(** * xponline-auto-systems: the CSV import pipeline and the earnings ledger

    A shallow embedding of [src/utils/csvParser.ts] (line-item parsing,
    order extraction, shipping-cost lookup, size/colour aggregation) and of
    the earnings computations of [src/App.tsx], with the properties the
    specification states about them.

    Conventions of the embedding.
    - A JavaScript string is a Rocq [string]; characters are the code units
      below 128 (ASCII), which is what [toUpperCase], [toLowerCase], [trim]
      and the [/i] and [\s] of the regular expressions are defined on here.
    - A JavaScript number holding money is a binary64 [float] (the kernel's
      primitive floats), so arithmetic rounds as it does in the program and
      [NaN] is a value.  Item quantities, which the program only reads with
      [parseInt] and adds up, and the counts made of them are numbers that
      hold integers: such a number is its integer, in [Z], and the [+] of
      the program is [number_add], which rounds as binary64 does (to the
      nearest integer it represents, ties to even), so that sums are exact
      up to 2^53 and not beyond.  A magnitude of 2^1024 or more, which is
      [Infinity] in the program and takes a quantity of 309 digits, is
      rounded like any other here.
    - An object used as a dictionary is a [gmap string _]; reads through the
      prototype chain are modelled where the key is data ([Object_prototype_keys]).
      A [Map] is an association list in insertion order.
    - A parsed CSV row is a [gmap string string]; a field that is absent from
      the row reads as [None] (JavaScript [undefined]). *)

From Stdlib Require Import ZArith Floats String Ascii List Lia Permutation.
From Stdlib Require Import DecimalString.
From Stdlib Require DecimalNat DecimalPos DecimalZ Sorted.
From stdpp Require Import gmap strings list fin_maps.

#[local] Set Warnings "-inexact-float".

Open Scope string_scope.
Open Scope list_scope.
Open Scope Z_scope.

(** ** Strings of the host language *)

Module JsString.

Definition in_range (lo hi : nat) (c : ascii) : bool :=
  let n := nat_of_ascii c in (lo <=? n)%nat && (n <=? hi)%nat.

(** White space and line terminators: TAB, LF, VT, FF, CR and space. *)
Definition is_white_space (c : ascii) : bool :=
  in_range 9 13 c || in_range 32 32 c.

Definition is_digit (c : ascii) : bool := in_range 48 57 c.

Definition upper_char (c : ascii) : ascii :=
  if in_range 97 122 c then ascii_of_nat (nat_of_ascii c - 32) else c.

Definition lower_char (c : ascii) : ascii :=
  if in_range 65 90 c then ascii_of_nat (nat_of_ascii c + 32) else c.

Fixpoint map_chars (f : ascii -> ascii) (s : string) : string :=
  match s with
  | EmptyString => EmptyString
  | String c s' => String (f c) (map_chars f s')
  end.

Fixpoint filter_chars (p : ascii -> bool) (s : string) : string :=
  match s with
  | EmptyString => EmptyString
  | String c s' => if p c then String c (filter_chars p s') else filter_chars p s'
  end.

Definition toUpperCase : string -> string := map_chars upper_char.
Definition toLowerCase : string -> string := map_chars lower_char.

Fixpoint trimStart (s : string) : string :=
  match s with
  | EmptyString => EmptyString
  | String c s' => if is_white_space c then trimStart s' else s
  end.

Fixpoint trimEnd (s : string) : string :=
  match s with
  | EmptyString => EmptyString
  | String c s' =>
      match trimEnd s' with
      | EmptyString => if is_white_space c then EmptyString else String c EmptyString
      | t => String c t
      end
  end.

Definition trim (s : string) : string := trimEnd (trimStart s).

Definition startsWith (s prefix : string) : bool := String.prefix prefix s.

(** [s.includes(needle)]: [needle] occurs somewhere in [s]. *)
Fixpoint includes (s needle : string) : bool :=
  String.prefix needle s ||
  match s with
  | EmptyString => false
  | String _ s' => includes s' needle
  end.

(** [s.split(sep)] for a non-empty separator: the occurrences of [sep] are
    found left to right without overlap.  [skip] counts the characters of
    an occurrence still to be passed over; the result is the segment being
    read and the segments after it. *)
Fixpoint split_go (sep : string) (skip : nat) (s : string) : string * list string :=
  match s with
  | EmptyString => (EmptyString, [])
  | String c s' =>
      match skip with
      | S k => split_go sep k s'
      | O =>
          if String.prefix sep s
          then let '(h, t) := split_go sep (String.length sep - 1) s' in
               (EmptyString, h :: t)
          else let '(h, t) := split_go sep 0 s' in
               (String c h, t)
      end
  end.

Definition split (s sep : string) : list string :=
  let '(h, t) := split_go sep 0 s in h :: t.

(** [parts.join(sep)]. *)
Definition join (parts : list string) (sep : string) : string :=
  String.concat sep parts.

(** A string is truthy when it is not empty. *)
Definition truthy (s : string) : bool :=
  match s with EmptyString => false | _ => true end.

(** A value that may be [undefined] is truthy when it is a non-empty string. *)
Definition truthy_opt (o : option string) : bool :=
  match o with Some s => truthy s | None => false end.

(** [ToString] of a value that may be [undefined]. *)
Definition to_string (o : option string) : string :=
  match o with Some s => s | None => "undefined" end.

(** Decimal text of an array index. *)
Definition of_index (n : nat) : string :=
  NilEmpty.string_of_uint (Nat.to_uint n).

End JsString.

(** ** Numbers of the host language *)

Module JsNumber.
Import JsString.

Definition digit_value (c : ascii) : Z := Z.of_nat (nat_of_ascii c - 48).

(** The longest prefix of decimal digits, and what follows it. *)
Fixpoint take_digits (s : string) : list ascii * string :=
  match s with
  | EmptyString => ([], EmptyString)
  | String c s' =>
      if is_digit c
      then let '(ds, rest) := take_digits s' in (c :: ds, rest)
      else ([], s)
  end.

Definition digits_value (ds : list ascii) : Z :=
  fold_left (fun acc c => 10 * acc + digit_value c) ds 0.

(** An optional leading sign: [true] for "-". *)
Definition take_sign (s : string) : bool * string :=
  match s with
  | String "-" s' => (true, s')
  | String "+" s' => (false, s')
  | _ => (false, s)
  end.

(** [parseInt(s, 10)]: leading white space, an optional sign, then the
    longest run of digits; anything after it is ignored.  [None] is [NaN]. *)
Definition parseInt (s : string) : option Z :=
  let '(neg, s1) := take_sign (trimStart s) in
  match take_digits s1 with
  | ([], _) => None
  | (ds, _) => Some (if neg then - digits_value ds else digits_value ds)
  end.

(** The binary64 number nearest to [m * 10^e] (ties to even), [m > 0]. *)
Definition of_decimal (m : positive) (e : Z) : float :=
  if 0 <=? e
  then SF2Prim (binary_normalize prec emax (Zpos m * 10 ^ e) 0 false)
  else SF2Prim (SFdiv prec emax (S754_finite false m 0)
                  (S754_finite false (Z.to_pos (10 ^ (- e))) 0)).

Definition signed (neg : bool) (x : float) : float :=
  if neg then (- x)%float else x.

(** The exponent part of a decimal literal, when one is well formed:
    "e" or "E", an optional sign and at least one digit. *)
Definition take_exponent (s : string) : Z :=
  match s with
  | String c s' =>
      if (Ascii.eqb c "e" || Ascii.eqb c "E")%bool
      then let '(neg, s2) := take_sign s' in
           match take_digits s2 with
           | ([], _) => 0
           | (ds, _) => if neg then - digits_value ds else digits_value ds
           end
      else 0
  | EmptyString => 0
  end.

(** [parseFloat(s)]: leading white space, then the longest prefix that is
    a decimal literal: an optional sign, then "Infinity", or digits with an
    optional fraction and exponent, or a fraction that starts with the dot.
    [nan] when there is no such prefix. *)
Definition parseFloat (s : string) : float :=
  let '(neg, s1) := take_sign (trimStart s) in
  if String.prefix "Infinity" s1 then signed neg infinity
  else
    let '(ip, s2) := take_digits s1 in
    let '(fp, s3) :=
      match s2 with
      | String "." s2' =>
          let '(fp, s3) := take_digits s2' in
          match ip, fp with
          | [], [] => ([], s2)
          | _, _ => (fp, s3)
          end
      | _ => ([], s2)
      end in
    match ip, fp with
    | [], [] => nan
    | _, _ =>
        let e := take_exponent s3 - Z.of_nat (List.length fp) in
        match digits_value (ip ++ fp) with
        | Zpos m => signed neg (of_decimal m e)
        | _ => signed neg 0%float
        end
    end.

Definition isNaN (x : float) : bool := is_nan x.

(** A number is falsy when it is [NaN], [+0] or [-0]. *)
Definition falsy (x : float) : bool := (is_nan x || is_zero x)%bool.

(** [x || 0]. *)
Definition or_zero (x : float) : float := if falsy x then 0%float else x.

End JsNumber.

(** ** [Map] objects *)

(** A [Map] keeps its entries in insertion order; [set] on a key that is
    present replaces the value where it stands. *)
Module JsMap.

Definition t (V : Type) : Type := list (string * V).

Definition empty {V} : t V := [].

Fixpoint get {V} (m : t V) (k : string) : option V :=
  match m with
  | [] => None
  | (k', v) :: m' => if String.eqb k' k then Some v else get m' k
  end.

Definition has {V} (m : t V) (k : string) : bool :=
  match get m k with Some _ => true | None => false end.

Fixpoint set {V} (m : t V) (k : string) (v : V) : t V :=
  match m with
  | [] => [(k, v)]
  | (k', v') :: m' =>
      if String.eqb k' k then (k, v) :: m' else (k', v') :: set m' k v
  end.

Definition keys {V} (m : t V) : list string := map fst m.
Definition values {V} (m : t V) : list V := map snd m.

End JsMap.

(** ** Regular expressions of [parseShippingCSV] *)

(** The patterns in the source are alternatives of literals with [\s*]
    between words, tested with the [i] flag anywhere in the subject. *)
Module JsRegExp.
Import JsString.

Inductive regex :=
| Lit (s : string)
| WsStar
| Seq (r1 r2 : regex)
| Alt (r1 r2 : regex).

(** [lit] is a prefix of [s] up to letter case; what is left of [s]. *)
Fixpoint strip_prefix_ci (lit s : string) : option string :=
  match lit, s with
  | EmptyString, _ => Some s
  | String a lit', String b s' =>
      if Ascii.eqb (lower_char a) (lower_char b) then strip_prefix_ci lit' s' else None
  | String _ _, EmptyString => None
  end.

(** Every way of passing over leading white space. *)
Fixpoint skip_white_space (s : string) : list string :=
  s :: match s with
       | String c s' => if is_white_space c then skip_white_space s' else []
       | EmptyString => []
       end.

(** Every remainder [r] can leave when it matches at the start of [s]. *)
Fixpoint match_here (r : regex) (s : string) : list string :=
  match r with
  | Lit l => match strip_prefix_ci l s with Some rest => [rest] | None => [] end
  | WsStar => skip_white_space s
  | Seq r1 r2 => flat_map (match_here r2) (match_here r1 s)
  | Alt r1 r2 => match_here r1 s ++ match_here r2 s
  end.

Definition matches_here (r : regex) (s : string) : bool :=
  match match_here r s with [] => false | _ => true end.

(** [r.test(s)]: a match starting at some position of [s]. *)
Fixpoint test (r : regex) (s : string) : bool :=
  matches_here r s ||
  match s with
  | EmptyString => false
  | String _ s' => test r s'
  end.

End JsRegExp.

(** ** [src/utils/csvParser.ts] *)

Abbreviation CSVRow := (gmap string string).
Abbreviation ShippingRow := (gmap string string).

(** The fields [id] and [size] of the source are [item_id], [order_id] and
    [item_size] here. *)
Record ParsedItem := {
  item_id : string;
  productName : string;
  color : string;
  item_size : string;
  quantity : Z
}.

(** [date] stands for the [Date] object by the text it is constructed from. *)
Record Order := {
  order_id : string;
  name : string;
  date : string;
  total : float;
  subtotal : float;
  shippingCost : float;
  netEarnings : float
}.

Record AggregatedData := {
  products : gmap string (gmap string Z);
  colorTotals : gmap string (gmap string Z);
  totals : gmap string Z;
  grandTotal : Z;
  orders : list Order
}.

Definition SIZE_MAPPING_entries : list (string * string) :=
  [ ("XS", "XS"); ("XSMALL", "XS");
    ("S", "SMALL"); ("SMALL", "SMALL"); ("SM", "SMALL");
    ("M", "MEDIUM"); ("MEDIUM", "MEDIUM"); ("MD", "MEDIUM");
    ("L", "LARGE"); ("LARGE", "LARGE"); ("LG", "LARGE");
    ("XL", "XL"); ("XLARGE", "XL");
    ("2XL", "2XL"); ("XXL", "2XL"); ("2X", "2XL");
    ("XXXL", "3XL"); ("3XL", "3XL"); ("3X", "3XL") ].

Definition SIZE_MAPPING : gmap string string := list_to_map SIZE_MAPPING_entries.

Definition ORDERED_SIZES : list string :=
  ["XS"; "SMALL"; "MEDIUM"; "LARGE"; "XL"; "2XL"; "3XL"].

(** The property names every object literal inherits from [Object.prototype]:
    reading one of them from an object that has no such key of its own gives
    the inherited (truthy) value, not [undefined]. *)
Definition Object_prototype_keys : list string :=
  [ "constructor"; "__proto__"; "hasOwnProperty"; "isPrototypeOf";
    "propertyIsEnumerable"; "toLocaleString"; "toString"; "valueOf";
    "__defineGetter__"; "__defineSetter__"; "__lookupGetter__"; "__lookupSetter__" ].

Definition detectColorFamily (color : string) : string :=
  let lower := JsString.toLowerCase color in
  if JsString.includes lower "black" then "black"
  else if JsString.includes lower "white" then "white"
  else if JsString.includes lower "brown" then "brown"
  else if JsString.includes lower "storm" then "storm"
  else if JsString.includes lower "blue" then "blue"
  else color.

(** [None] is the source's [null].  The key looked up is upper-cased, so it
    is never one of [Object_prototype_keys] (lemma [toUpperCase_not_inherited])
    and the lookup in the table's own keys is the whole of [SIZE_MAPPING[upper]]. *)
Definition normalizeSize (str : string) : option string :=
  if negb (JsString.truthy str) then None
  else
    let upper := JsString.toUpperCase str in
    match SIZE_MAPPING !! upper with
    | Some canonical => if JsString.truthy canonical then Some canonical else None
    | None => None
    end.

(** *** [parseCSV] *)

(** The name parsing of a line item: product name, colour and size. *)
Definition parseCSV_name (rawName : string) : string * string * string :=
  let parts := JsString.split rawName " - " in
  if (2 <=? List.length parts)%nat then
    let suffix := List.last parts "" in
    let productName := JsString.join (List.removelast parts) " - " in
    let suffixParts := map JsString.trim (JsString.split suffix "/") in
    match suffixParts with
    | [partA; partB] =>
        match normalizeSize partA, normalizeSize partB with
        | Some sizeA, _ => (productName, partB, sizeA)
        | None, Some sizeB => (productName, partA, sizeB)
        | None, None => (productName, suffix, "Unknown")
        end
    | _ =>
        match normalizeSize suffix with
        | Some s => (productName, "Standard", s)
        | None => (productName, suffix, "One Size")
        end
    end
  else (rawName, "Unknown", "Unknown").

(** Step 1 of the row callback: the line item of a row, if it has one. *)
Definition parseCSV_item (index : nat) (row : CSVRow) : option ParsedItem :=
  let quantity := JsNumber.parseInt (JsString.to_string (row !! "Lineitem quantity")) in
  let rawName := row !! "Lineitem name" in
  match rawName, quantity with
  | Some rawName, Some quantity =>
      if JsString.truthy rawName then
        let '(productName, color, size) := parseCSV_name rawName in
        Some {| item_id := JsString.of_index index +:+ "-" +:+ rawName;
                productName := productName;
                color := color;
                item_size := size;
                quantity := quantity |}
      else None
  | _, _ => None
  end.

(** [field || dflt]. *)
Definition text_or (field : option string) (dflt : string) : string :=
  match field with
  | Some s => if JsString.truthy s then s else dflt
  | None => dflt
  end.

(** The [Order] a header row is turned into. *)
Definition parseCSV_new_order (orderName : string) (row : CSVRow) : Order :=
  let total := JsNumber.parseFloat (text_or (row !! "Total") "0") in
  let subtotal := JsNumber.parseFloat (text_or (row !! "Subtotal") "0") in
  {| order_id := orderName;
     name := orderName;
     date := JsString.to_string (row !! "Created at");
     total := total;
     subtotal := subtotal;
     shippingCost := 0%float;
     netEarnings := total |}.

(** Step 2 of the row callback: order info, unique by name. *)
Definition parseCSV_order (ordersMap : JsMap.t Order) (row : CSVRow) : JsMap.t Order :=
  match row !! "Name" with
  | Some orderName =>
      if JsString.truthy orderName && negb (JsMap.has ordersMap orderName) then
        if JsString.truthy_opt (row !! "Created at")
        then JsMap.set ordersMap orderName (parseCSV_new_order orderName row)
        else ordersMap
      else ordersMap
  | None => ordersMap
  end.

(** The callback of [results.data.forEach]: [items.push] appends. *)
Definition parseCSV_row (st : list ParsedItem * JsMap.t Order) (ir : nat * CSVRow)
  : list ParsedItem * JsMap.t Order :=
  let '(items, ordersMap) := st in
  let '(index, row) := ir in
  (match parseCSV_item index row with
   | Some item => items ++ [item]
   | None => items
   end,
   parseCSV_order ordersMap row).

(** Rows with their indices, as [forEach] hands them to the callback. *)
Definition indexed {A} (l : list A) : list (nat * A) :=
  combine (seq 0 (List.length l)) l.

Definition parseCSV_state (data : list CSVRow) : list ParsedItem * JsMap.t Order :=
  fold_left parseCSV_row (indexed data) ([], JsMap.empty).

(** What the promise of [parseCSV] resolves to, for the rows [data] the
    reader delivers. *)
Definition parseCSV (data : list CSVRow) : list ParsedItem * list Order :=
  let '(items, ordersMap) := parseCSV_state data in
  (items, JsMap.values ordersMap).

(** *** [parseShippingCSV] *)

(** [/order\s*name|order\s*id|name/i] *)
Definition nameKey_re : JsRegExp.regex :=
  JsRegExp.Alt (JsRegExp.Seq (JsRegExp.Lit "order") (JsRegExp.Seq JsRegExp.WsStar (JsRegExp.Lit "name")))
 (JsRegExp.Alt (JsRegExp.Seq (JsRegExp.Lit "order") (JsRegExp.Seq JsRegExp.WsStar (JsRegExp.Lit "id")))
               (JsRegExp.Lit "name")).

(** [/shipping\s*charge|cost|amount|price|label/i] *)
Definition costKey_re : JsRegExp.regex :=
  JsRegExp.Alt (JsRegExp.Seq (JsRegExp.Lit "shipping") (JsRegExp.Seq JsRegExp.WsStar (JsRegExp.Lit "charge")))
 (JsRegExp.Alt (JsRegExp.Lit "cost")
 (JsRegExp.Alt (JsRegExp.Lit "amount")
 (JsRegExp.Alt (JsRegExp.Lit "price") (JsRegExp.Lit "label")))).

(** [key ? row[key] : dflt] *)
Definition field_or (key : option string) (row : ShippingRow) (dflt : string) : option string :=
  match key with
  | Some k => if JsString.truthy k then row !! k else Some dflt
  | None => Some dflt
  end.

(** The characters [/[^0-9.-]+/g] leaves in place. *)
Definition cost_char (c : ascii) : bool :=
  JsString.is_digit c || Ascii.eqb c "." || Ascii.eqb c "-".

(** "#1234" for both "#1234" and "1234". *)
Definition normalizeName (name : string) : string :=
  let normalizedName := JsString.trim name in
  if negb (JsString.startsWith normalizedName "#") then "#" +:+ normalizedName
  else normalizedName.

Definition parseShippingCSV_row (nameKey costKey : option string)
    (costs : JsMap.t float) (row : ShippingRow) : JsMap.t float :=
  let name := field_or nameKey row "" in
  let costVal := field_or costKey row "0" in
  if JsString.truthy_opt name && JsString.truthy_opt costVal then
    let cost := JsNumber.parseFloat
                  (JsString.filter_chars cost_char (JsString.to_string costVal)) in
    if negb (JsNumber.isNaN cost)
    then JsMap.set costs (normalizeName (JsString.to_string name)) cost
    else costs
  else costs.

(** What the promise of [parseShippingCSV] resolves to, for the column names
    [fields] ([results.meta.fields], possibly undefined) and the rows [data]. *)
Definition parseShippingCSV (fields : option (list string)) (data : list ShippingRow)
  : JsMap.t float :=
  let headers := match fields with Some hs => hs | None => [] end in
  let nameKey := List.find (JsRegExp.test nameKey_re) headers in
  let costKey := List.find (JsRegExp.test costKey_re) headers in
  fold_left (parseShippingCSV_row nameKey costKey) data JsMap.empty.

(** *** Numbers that hold integers *)

(** The integer nearest to [z] that binary64 represents, ties going to the
    even significand: below 2^53 every integer, from 2^53 to 2^54 the even
    ones, and so on, 53 binary digits at a time.  [e] is the binary exponent
    of the last of the 53 digits. *)
Definition binary64_nearest (z : Z) : Z :=
  let m := Z.abs z in
  let e := Z.log2 m - 52 in
  if e <=? 0 then z
  else
    let ulp := 2 ^ e in
    let q := m / ulp in
    let r := m mod ulp in
    let half := ulp / 2 in
    let q := if (half <? r) || ((r =? half) && Z.odd q) then q + 1 else q in
    Z.sgn z * (q * ulp).

(** [a + b] on two numbers that hold the integers [a] and [b] (as numbers:
    an integer that binary64 does not represent stands for the nearest one
    that it does, which is what [parseInt] returns for its digits). *)
Definition number_add (a b : Z) : Z :=
  binary64_nearest (binary64_nearest a + binary64_nearest b).

(** *** [aggregateData] *)

(** [ORDERED_SIZES.forEach((s) => (row[s] = 0))] on a fresh object. *)
Definition zero_row : gmap string Z :=
  fold_left (fun row s => <[s := 0]> row) ORDERED_SIZES ∅.

(** [row[k]] read as a count: 0 for an absent key. *)
Definition cell (row : gmap string Z) (k : string) : Z := default 0 (row !! k).

(** [row[k] += q], a sum of numbers.  The key is present whenever the
    program gets here (theorem [aggregate_invariants]), so that the sum is
    never taken with [undefined]. *)
Definition add_assign (row : gmap string Z) (k : string) (q : Z) : gmap string Z :=
  <[k := number_add (cell row k) q]> row.

(** The two blocks "Product Row" and "Color Family Row":
    [if (!table[key]) { table[key] = {}; ... = 0 }  table[key][size] += q].
    When [key] is not the table's own but is inherited from
    [Object.prototype], [table[key]] is truthy: no row is created and the
    update lands on the inherited object, so the table stays as it is. *)
Definition add_to_table (table : gmap string (gmap string Z)) (key size : string) (q : Z)
  : gmap string (gmap string Z) :=
  match table !! key with
  | Some row => <[key := add_assign row size q]> table
  | None =>
      if bool_decide (key ∈ Object_prototype_keys) then table
      else <[key := add_assign zero_row size q]> table
  end.

Definition rowKey_of (item : ParsedItem) : string :=
  productName item +:+ " - " +:+ color item.

(** The callback of [items.forEach]. *)
Definition aggregate_item (acc : AggregatedData) (item : ParsedItem) : AggregatedData :=
  if bool_decide (item_size item ∈ ORDERED_SIZES) then
    {| products := add_to_table (products acc) (rowKey_of item) (item_size item) (quantity item);
       colorTotals := add_to_table (colorTotals acc) (detectColorFamily (color item))
                        (item_size item) (quantity item);
       totals := add_assign (totals acc) (item_size item) (quantity item);
       grandTotal := number_add (grandTotal acc) (quantity item);
       orders := orders acc |}
  else acc.

Definition aggregate_init (orders : list Order) : AggregatedData :=
  {| products := ∅; colorTotals := ∅; totals := zero_row; grandTotal := 0;
     orders := orders |}.

Definition aggregateData (items : list ParsedItem) (orders : list Order) : AggregatedData :=
  fold_left aggregate_item items (aggregate_init orders).

(** ** [src/App.tsx]: the earnings view *)

Module App.

(** [{ ...o, shopifyFee, netAfterFees }] *)
Record ProcessedOrder := {
  order : Order;
  shopifyFee : float;
  netAfterFees : float
}.

Record EarningsStats := {
  totalSubtotal : float;
  totalShipping : float;
  totalShopify : float;
  netProfit : float;
  totalBlank : float
}.

Inductive SortField := by_date | by_earnings.
Inductive SortDirection := asc | desc.

(** [Array.prototype.sort] with a comparison function: stable, and a
    [NaN] from the comparison counts as 0.  [x] stood before every element
    of [l] and goes before the first one it is not greater than.  (When the
    comparison is not a consistent order, which [NaN] can cause, the
    language leaves the resulting order to the engine; it is a permutation
    in any case, lemma [sort_perm].) *)
Fixpoint sort_insert {A} (cmp : A -> A -> float) (x : A) (l : list A) : list A :=
  match l with
  | [] => [x]
  | y :: l' => if (0 <? cmp x y)%float then y :: sort_insert cmp x l' else x :: l
  end.

Fixpoint sort {A} (cmp : A -> A -> float) (l : list A) : list A :=
  match l with
  | [] => []
  | x :: l' => sort_insert cmp x (sort cmp l')
  end.

Section Earnings.
(** [date.getTime()] of the [Date] built from a text: what it is for
    texts other than ISO dates is up to the browser. *)
Variable getTime : string -> float.

(** The settings, kept as the text of their input fields. *)
Variables shopifyPercent shopifyFixed blankCosts shippingCostText : string.
Variable earningsSortField : SortField.
Variable earningsSortDirection : SortDirection.

Definition currentShopifyPercent : float :=
  JsNumber.or_zero (JsNumber.parseFloat shopifyPercent).
Definition currentShopifyFixed : float :=
  JsNumber.or_zero (JsNumber.parseFloat shopifyFixed).

(** The callback of [data.orders.map]. *)
Definition processOrder (o : Order) : ProcessedOrder :=
  let shopifyFeeVal :=
    (total o * (currentShopifyPercent / 100) + currentShopifyFixed)%float in
  {| order := o;
     shopifyFee := shopifyFeeVal;
     netAfterFees := (subtotal o - shopifyFeeVal)%float |}.

Definition compareOrders (a b : ProcessedOrder) : float :=
  let cmp :=
    match earningsSortField with
    | by_date => (getTime (date (order a)) - getTime (date (order b)))%float
    | by_earnings => (netAfterFees a - netAfterFees b)%float
    end in
  match earningsSortDirection with
  | asc => cmp
  | desc => (- cmp)%float
  end.

Definition getProcessedOrders (data : option AggregatedData) : list ProcessedOrder :=
  match data with
  | None => []
  | Some data => sort compareOrders (map processOrder (orders data))
  end.

Definition getEarningsStats (orders : list ProcessedOrder) : EarningsStats :=
  let currentShippingCost := JsNumber.or_zero (JsNumber.parseFloat shippingCostText) in
  let currentBlankCosts := JsNumber.or_zero (JsNumber.parseFloat blankCosts) in
  let totalSubtotal :=
    fold_left (fun acc o => (acc + subtotal (order o))%float) orders 0%float in
  let totalShopify :=
    fold_left (fun acc o => (acc + shopifyFee o)%float) orders 0%float in
  let netProfit :=
    (totalSubtotal - currentShippingCost - totalShopify - currentBlankCosts)%float in
  {| totalSubtotal := totalSubtotal;
     totalShipping := currentShippingCost;
     totalShopify := totalShopify;
     netProfit := netProfit;
     totalBlank := currentBlankCosts |}.

End Earnings.

End App.

(** ** [src/App.tsx]: the checklist *)

Definition ORDERED_SIZES_KEYS : list string := ORDERED_SIZES.

(** [n.toString()] of an integer. *)
Definition number_toString (n : Z) : string :=
  NilEmpty.string_of_int (Z.to_int n).

(** The number of an integer count, for the one division of the view. *)
Definition number_of_Z (n : Z) : float :=
  match n with
  | Z0 => 0%float
  | Zpos p => JsNumber.of_decimal p 0
  | Zneg p => (- JsNumber.of_decimal p 0)%float
  end.

Definition newline : string := String (ascii_of_nat 10) EmptyString.

Module Checklist.

(** A value kept in [checkedCells]: the count done, or the boolean an old
    save left there.  A key that is absent reads as [undefined]; so does,
    for what the code does with it, a name inherited from
    [Object.prototype], which is neither a number nor [true]. *)
Inductive CheckedVal :=
| Count (n : Z)
| Legacy (b : bool).

(** [`${rowName}_${size}`] *)
Definition cellKey (rowName size : string) : string :=
  rowName +:+ "_" +:+ size.

Definition getCellCount (checkedCells : gmap string CheckedVal)
    (rowName size : string) (totalQty : Z) : Z :=
  let key := cellKey rowName size in
  match checkedCells !! key with
  | Some (Legacy true) => totalQty
  | Some (Count n) => n
  | _ => 0
  end.

(** The updater [toggleCellCheck] hands to [setCheckedCells];
    [current + delta] is a sum of numbers. *)
Definition toggleCellCheck (rowKey size : string) (totalQty delta : Z)
    (prev : gmap string CheckedVal) : gmap string CheckedVal :=
  let key := cellKey rowKey size in
  let current :=
    match prev !! key with
    | Some (Count n) => n
    | Some (Legacy true) => totalQty
    | _ => 0
    end in
  let next := number_add current delta in
  let next := if totalQty <? next then totalQty else next in
  let next := if next <? 0 then 0 else next in
  <[key := Count next]> prev.

End Checklist.

(** ** [src/App.tsx]: the product table, its export and its statistics *)

Module Products.

(** An entry of [getProcessedProducts]. *)
Record Entry := {
  name : string;
  sizes : gmap string Z;
  total : Z
}.

Inductive SortField := by_name | by_total.
Inductive SortDirection := asc | desc.

(** [Array.prototype.sort] as in [App.sort], for a comparison function
    whose results are integers. *)
Fixpoint sort_insert {A} (cmp : A -> A -> Z) (x : A) (l : list A) : list A :=
  match l with
  | [] => [x]
  | y :: l' => if 0 <? cmp x y then y :: sort_insert cmp x l' else x :: l
  end.

Fixpoint sort {A} (cmp : A -> A -> Z) (l : list A) : list A :=
  match l with
  | [] => []
  | x :: l' => sort_insert cmp x (sort cmp l')
  end.

(** [ORDERED_SIZES_KEYS.reduce((acc, size) => acc + (sizes[size] || 0), 0)],
    a sum of numbers. *)
Definition sizes_total (sizes : gmap string Z) : Z :=
  fold_left (fun acc size => number_add acc (cell sizes size)) ORDERED_SIZES_KEYS 0.

(** The callback of [Object.entries(data.products).map]. *)
Definition entry_of (e : string * gmap string Z) : Entry :=
  {| name := e.1; sizes := e.2; total := sizes_total e.2 |}.




Record ProgressStats := {
  checkedCount : Z;
  totalCount : Z;
  percent : float
}.

Section View.
(** [Object.entries] lists the keys of an object in the order they were
    put in, which the map does not record: the listing is a parameter. *)
Variable Object_entries : gmap string (gmap string Z) -> list (string * gmap string Z).

(** [a.localeCompare(b)], which depends on the locale of the browser. *)
Variable localeCompare : string -> string -> Z.

Variable sortField : SortField.
Variable sortDirection : SortDirection.
Variable checkedCells : gmap string Checklist.CheckedVal.

(** Of [a.total - b.total] the sort uses the sign, which is that of the
    difference of the integers whatever the rounding. *)
Definition compareEntries (a b : Entry) : Z :=
  let cmp :=
    match sortField with
    | by_name => localeCompare (name a) (name b)
    | by_total => total a - total b
    end in
  match sortDirection with
  | asc => cmp
  | desc => - cmp
  end.

Definition getProcessedProducts (data : option AggregatedData) : list Entry :=
  match data with
  | None => []
  | Some data => sort compareEntries (map entry_of (Object_entries (products data)))
  end.

(** The count done of a cell, as [exportData] and [getProgressStats] work
    it out in place. *)
Definition count_done (rowName size : string) (qty : Z) : Z :=
  match checkedCells !! Checklist.cellKey rowName size with
  | Some (Checklist.Count n) => n
  | Some (Checklist.Legacy true) => qty
  | _ => 0
  end.

(** The text of one cell of the export. *)
Definition export_cell (withProgress : bool) (item : Entry) (size : string) : string :=
  let qty := cell (sizes item) size in
  let cellVal := number_toString qty in
  if withProgress && (0 <? qty) then
    let count := count_done (name item) size qty in
    if qty <=? count then "DONE (" +:+ number_toString qty +:+ ")"
    else if 0 <? count then number_toString count +:+ " / " +:+ number_toString qty
    else cellVal
  else cellVal.

(** [item.name.replace(/,/g, "")] *)
Definition without_commas (s : string) : string :=
  JsString.filter_chars (fun c => negb (Ascii.eqb c ",")) s.

(** The fields of one line of the export. *)
Definition export_fields (withProgress : bool) (item : Entry) : list string :=
  [without_commas (name item)]
  ++ map (export_cell withProgress item) ORDERED_SIZES_KEYS
  ++ [number_toString (total item)].

Definition export_header : list string :=
  ["Product / Color"] ++ ORDERED_SIZES_KEYS ++ ["Total"].

(** [csvContent], the text [exportData] hands to [encodeURI]. *)
Definition exportData_content (withProgress : bool) (data : AggregatedData) : string :=
  fold_left
    (fun csvContent item =>
       csvContent +:+ JsString.join (export_fields withProgress item) "," +:+ newline)
    (getProcessedProducts (Some data))
    ("data:text/csv;charset=utf-8," +:+ JsString.join export_header "," +:+ newline).

(** The name of the file [exportData] offers. *)
Definition exportData_download (withProgress : bool) : string :=
  "xponline_inventory_" +:+ (if withProgress then "progress" else "blank") +:+ ".csv".



(** The inner callback of [getProgressStats], for one size of one row;
    [checkedCount += Math.min(done, qty)] is a sum of numbers. *)
Definition progress_cell (rowName : string) (rowSizes : gmap string Z)
    (checkedCount : Z) (size : string) : Z :=
  let qty := cell rowSizes size in
  if 0 <? qty
  then number_add checkedCount (Z.min (count_done rowName size qty) qty)
  else checkedCount.

Definition getProgressStats (data : option AggregatedData) : ProgressStats :=
  match data with
  | None => {| checkedCount := 0; totalCount := 0; percent := 0%float |}
  | Some d =>
      let checkedCount :=
        fold_left
          (fun acc e => fold_left (progress_cell e.1 e.2) ORDERED_SIZES_KEYS acc)
          (Object_entries (products d)) 0 in
      let totalCount := grandTotal d in
      {| checkedCount := checkedCount;
         totalCount := totalCount;
         percent :=
           if 0 <? totalCount
           then (number_of_Z checkedCount / number_of_Z totalCount * 100)%float
           else 0%float |}
  end.

End View.

End Products.

(** * Definitions for the statements *)

(** ** SizeNormalizer *)

(** The nineteen size tokens of the specification. *)
Definition size_tokens : list string :=
  [ "XS"; "XSMALL"; "S"; "SMALL"; "SM"; "M"; "MEDIUM"; "MD"; "L"; "LARGE"; "LG";
    "XL"; "XLARGE"; "2XL"; "XXL"; "2X"; "3XL"; "XXXL"; "3X" ].

(** The canonical buckets as the specification documents them, each with
    the tokens it stands for. *)
Definition documented_buckets : list (string * list string) :=
  [ ("XS", ["XS"; "XSMALL"]);
    ("SMALL", ["S"; "SMALL"; "SM"]);
    ("MEDIUM", ["M"; "MEDIUM"; "MD"]);
    ("LARGE", ["L"; "LARGE"; "LG"]);
    ("XL", ["XL"; "XLARGE"]);
    ("2XL", ["2XL"; "XXL"; "2X"]);
    ("3XL", ["3XL"; "XXXL"; "3X"]) ].

Definition documented_bucket (token : string) : option string :=
  fst <$> List.find (fun b => bool_decide (token ∈ b.2)) documented_buckets.

(** ** LineItemParser *)

(** The pieces of a raw item name the parser works with. *)
Definition name_suffix (rawName : string) : string :=
  List.last (JsString.split rawName " - ") "".

Definition name_product (rawName : string) : string :=
  JsString.join (List.removelast (JsString.split rawName " - ")) " - ".

Definition suffix_parts (rawName : string) : list string :=
  map JsString.trim (JsString.split (name_suffix rawName) "/").

(** The quantity [parseInt] reads from a row, [None] for [NaN]. *)
Definition row_quantity (row : CSVRow) : option Z :=
  JsNumber.parseInt (JsString.to_string (row !! "Lineitem quantity")).

(** A text that is a valid integer: after leading white space, an optional
    sign and one or more digits, with nothing but white space after them. *)
Definition is_integer_text (s : string) : bool :=
  let '(_, s1) := JsNumber.take_sign (JsString.trimStart s) in
  match JsNumber.take_digits s1 with
  | ([], _) => false
  | (_, rest) => negb (JsString.truthy (JsString.trimStart rest))
  end.

(** The items of the rows [rows], the first of which has index [start]. *)
Definition parseCSV_items_from (start : nat) (rows : list CSVRow) : list ParsedItem :=
  omap (fun ir => parseCSV_item ir.1 ir.2) (combine (seq start (List.length rows)) rows).

(** The two-part rule as C3 words it, for one raw item name: when
    the last " - "-separated segment splits on "/" into exactly two trimmed
    parts, the item of a row with that name has its size and colour from them. *)
Definition two_part_rule (rawName : string) : Prop :=
  forall (index : nat) (row : CSVRow) (q : Z) (partA partB : string),
    row !! "Lineitem name" = Some rawName ->
    row_quantity row = Some q ->
    suffix_parts rawName = [partA; partB] ->
    exists item,
      parseCSV_item index row = Some item /\
      (forall sizeA, normalizeSize partA = Some sizeA ->
         item_size item = sizeA /\ color item = partB) /\
      (forall sizeB, normalizeSize partA = None -> normalizeSize partB = Some sizeB ->
         item_size item = sizeB /\ color item = partA) /\
      (normalizeSize partA = None -> normalizeSize partB = None ->
         color item = name_suffix rawName /\ item_size item = "Unknown").

(** ** OrderExtractor *)

(** [row] is an order header for the name [n]: it bears that name and its
    'Created at' field is non-empty. *)
Definition is_header_for (n : string) (row : CSVRow) : bool :=
  bool_decide (row !! "Name" = Some n) && JsString.truthy_opt (row !! "Created at").

(** The map of orders after the rows [data]. *)
Definition parseCSV_ordersMap (data : list CSVRow) : JsMap.t Order :=
  fold_left parseCSV_order data JsMap.empty.

(** Keys are distinct, and every order is stored under its own name. *)
Definition orders_wf (ordersMap : JsMap.t Order) : Prop :=
  NoDup (JsMap.keys ordersMap) /\
  Forall (fun kv => name kv.2 = kv.1) ordersMap.

(** ** ShippingCostResolver *)

(** The entry a row contributes, in the words of the specification: none
    unless both the key and the cost value are there and non-empty; the key
    trimmed, with "#" put in front when it does not lead; the cost parsed
    from what is left of the value once every character that is not a
    digit, a dot or a minus is gone; no entry when that is not a number. *)
Definition shipping_entry (nameKey costKey : string) (row : ShippingRow)
  : option (string * float) :=
  match row !! nameKey, row !! costKey with
  | Some key, Some value =>
      if JsString.truthy key && JsString.truthy value then
        let trimmed := JsString.trim key in
        let stored_key :=
          match trimmed with
          | String "#" _ => trimmed
          | _ => String "#" trimmed
          end in
        let stripped :=
          JsString.filter_chars
            (fun c => JsString.is_digit c || bool_decide (c = "."%char)
                      || bool_decide (c = "-"%char)) value in
        let cost := JsNumber.parseFloat stripped in
        if is_nan cost then None else Some (stored_key, cost)
      else None
  | _, _ => None
  end.

(** ** EarningsCalculator *)

(** Sum of binary64 numbers, left to right from 0, as [reduce] takes it. *)
Definition float_sum (l : list float) : float :=
  fold_left (fun acc x => (acc + x)%float) l 0%float.

(** An order of total 100 and subtotal 90. *)
Definition order_of_100 : Order :=
  {| order_id := "#1001"; name := "#1001"; date := "2025-12-26 18:48";
     total := 100%float; subtotal := 90%float; shippingCost := 0%float;
     netEarnings := 100%float |}.

(** ** Aggregator *)

(** An item counts when its size is one of the seven canonical sizes. *)
Definition canonical (item : ParsedItem) : Prop := item_size item ∈ ORDERED_SIZES.

#[global] Instance canonical_dec (item : ParsedItem) : Decision (canonical item).
Proof. unfold canonical. apply _. Defined.

Definition quantity_sum (items : list ParsedItem) : Z :=
  foldr (fun item acc => quantity item + acc) 0 items.

(** The sum of column [s] over the rows of a table. *)
Definition column_sum (s : string) (table : gmap string (gmap string Z)) : Z :=
  map_fold (fun _ row acc => cell row s + acc) 0 table.

(** The sum of a row over the canonical sizes. *)
Definition sizes_sum (row : gmap string Z) : Z :=
  foldr (fun s acc => cell row s + acc) 0 ORDERED_SIZES.

(** The sum of the absolute values of the quantities that are counted:
    what every sum the aggregator takes stays within. *)
Definition magnitude (items : list ParsedItem) : Z :=
  foldr (fun item acc => Z.abs (quantity item) + acc) 0 (filter canonical items).

(** The aggregate with the sums of integers in place of the sums of
    numbers: [sum_assign] and [sum_to_table] are [add_assign] and
    [add_to_table] with [+] on [Z]. *)
Definition sum_assign (row : gmap string Z) (k : string) (q : Z) : gmap string Z :=
  <[k := cell row k + q]> row.

Definition sum_to_table (table : gmap string (gmap string Z)) (key size : string) (q : Z)
  : gmap string (gmap string Z) :=
  match table !! key with
  | Some row => <[key := sum_assign row size q]> table
  | None =>
      if bool_decide (key ∈ Object_prototype_keys) then table
      else <[key := sum_assign zero_row size q]> table
  end.

(** The "Product Row" and the "Color Family Row" blocks are the same code
    on two tables, keyed by the row key and by the colour family: one pivot
    table, for the key [key]. *)

Definition table_step (key : ParsedItem -> string)
    (table : gmap string (gmap string Z)) (item : ParsedItem)
  : gmap string (gmap string Z) :=
  if bool_decide (item_size item ∈ ORDERED_SIZES)
  then sum_to_table table (key item) (item_size item) (quantity item)
  else table.

Definition table_of (key : ParsedItem -> string) (items : list ParsedItem)
  : gmap string (gmap string Z) :=
  fold_left (table_step key) items ∅.

(** The quantity of the items under key [k] in size [s]. *)
Definition tally (key : ParsedItem -> string) (k s : string) (items : list ParsedItem) : Z :=
  quantity_sum (filter (fun item => key item = k /\ item_size item = s) items).

(** The size totals. *)

Definition totals_step (totals : gmap string Z) (item : ParsedItem) : gmap string Z :=
  if bool_decide (item_size item ∈ ORDERED_SIZES)
  then sum_assign totals (item_size item) (quantity item)
  else totals.

Definition totals_of (items : list ParsedItem) : gmap string Z :=
  fold_left totals_step items zero_row.

(** ** Further definitions: the parser *)

(** [s] without its first [n] characters. *)
Fixpoint drop_chars (n : nat) (s : string) : string :=
  match n, s with
  | O, _ => s
  | S n', String _ s' => drop_chars n' s'
  | S _, EmptyString => EmptyString
  end.

(** Every character of [s] passes [p]. *)
Fixpoint all_chars (p : ascii -> bool) (s : string) : bool :=
  match s with
  | EmptyString => true
  | String c s' => p c && all_chars p s'
  end.

(** The name a row is an order header for, if it is one for any: the name
    is non-empty and so is 'Created at'. *)
Definition header_name (row : CSVRow) : option string :=
  match row !! "Name" with
  | Some n =>
      if JsString.truthy n && JsString.truthy_opt (row !! "Created at")
      then Some n else None
  | None => None
  end.

(** The names of [l] in order, each at its first occurrence, leaving out
    those of [seen]. *)
Fixpoint first_occurrences (seen l : list string) : list string :=
  match l with
  | [] => []
  | n :: l' =>
      if bool_decide (n ∈ seen) then first_occurrences seen l'
      else n :: first_occurrences (seen ++ [n]) l'
  end.

(** The two sentinel sizes of the parser. *)
Definition sentinel_sizes : list string := ["Unknown"; "One Size"].

(** ** Further definitions: the shipping lookup and the aggregate *)

(** The five colour families the classifier knows. *)
Definition color_families : list string := ["black"; "white"; "brown"; "storm"; "blue"].

(** What [sum_to_table] does to the entry of its key. *)
Definition table_entry_update (key size : string) (q : Z)
    (entry : option (gmap string Z)) : option (gmap string Z) :=
  match entry with
  | Some row => Some (sum_assign row size q)
  | None =>
      if bool_decide (key ∈ Object_prototype_keys) then None
      else Some (sum_assign zero_row size q)
  end.

(** ** Further definitions: the product table *)

(** The sum of a list of counts. *)
Definition count_sum (l : list Z) : Z := foldr Z.add 0 l.

(** The sum of the absolute values of the cells of a row: what the sums
    over the row stay within. *)
Definition row_magnitude (row : gmap string Z) : Z :=
  foldr (fun s acc => Z.abs (cell row s) + acc) 0 ORDERED_SIZES.

(** The sum of all the cells of a listing of rows. *)
Definition rows_total (rows : list (string * gmap string Z)) : Z :=
  count_sum (map (fun e => sizes_sum e.2) rows).

(** A character other than the comma. *)
Definition not_comma (c : ascii) : bool := negb (Ascii.eqb c ",").

(** ** Further definitions: the columns of the shipping report *)

(** [/order\s*id/i] and [/shipping\s*charge/i], the two alternatives of
    the patterns that are more than a word. *)
Definition order_id_re : JsRegExp.regex :=
  JsRegExp.Seq (JsRegExp.Lit "order") (JsRegExp.Seq JsRegExp.WsStar (JsRegExp.Lit "id")).

Definition shipping_charge_re : JsRegExp.regex :=
  JsRegExp.Seq (JsRegExp.Lit "shipping") (JsRegExp.Seq JsRegExp.WsStar (JsRegExp.Lit "charge")).

(** [word] occurs in [s], whatever the case of the letters of [s]. *)
Definition mentions (s word : string) : bool :=
  JsString.includes (JsString.toLowerCase s) word.

(** ** Further definitions: numbers and their text *)

(** The text starts with a decimal digit. *)
Definition starts_with_digit (s : string) : bool :=
  match s with
  | String c _ => JsString.is_digit c
  | EmptyString => false
  end.

(** The integer a binary64 number holds, when it holds one. *)
Definition float_integer (x : float) : option Z :=
  match Prim2SF x with
  | S754_zero _ => Some 0
  | S754_finite neg m e =>
      if 0 <=? e
      then Some ((if neg then -1 else 1) * (Zpos m * 2 ^ e))
      else if Zpos m mod 2 ^ (- e) =? 0
           then Some ((if neg then -1 else 1) * (Zpos m / 2 ^ (- e)))
           else None
  | _ => None
  end.

(** No count kept in [checkedCells] is negative: what [toggleCellCheck]
    writes never is. *)
Definition counts_not_negative (checkedCells : gmap string Checklist.CheckedVal) : Prop :=
  forall (k : string) (n : Z), checkedCells !! k = Some (Checklist.Count n) -> 0 <= n.

(** * Properties *)

(** ** SizeNormalizer *)

Lemma upper_char_not_lower (c : ascii) :
  JsString.in_range 97 122 (JsString.upper_char c) = false.
Proof. destruct c as [[] [] [] [] [] [] [] []]; reflexivity. Qed.

(** No character of an upper-cased string is a lower-case letter. *)
Lemma toUpperCase_no_lower (s : string) :
  JsString.filter_chars (JsString.in_range 97 122) (JsString.toUpperCase s) = "".
Proof.
  induction s as [|c s IH]; [reflexivity|].
  cbn [JsString.toUpperCase JsString.map_chars JsString.filter_chars].
  rewrite upper_char_not_lower. exact IH.
Qed.

(** The key [normalizeSize] looks up is never inherited from
    [Object.prototype]: every inherited name has a lower-case letter. *)
Lemma toUpperCase_not_inherited (s : string) :
  JsString.toUpperCase s ∉ Object_prototype_keys.
Proof.
  intros Hin. pose proof (toUpperCase_no_lower s) as Hs.
  unfold Object_prototype_keys in Hin.
  repeat (apply elem_of_cons in Hin as [Hin|Hin];
          [rewrite Hin in Hs; vm_compute in Hs; discriminate|]).
  inversion Hin.
Qed.

Lemma SIZE_MAPPING_lookup (k v : string) :
  SIZE_MAPPING !! k = Some v -> (k, v) ∈ SIZE_MAPPING_entries.
Proof. unfold SIZE_MAPPING. apply elem_of_list_to_map_2. Qed.

Lemma SIZE_MAPPING_values (k v : string) :
  SIZE_MAPPING !! k = Some v -> k ∈ size_tokens /\ v ∈ ORDERED_SIZES /\ JsString.truthy v = true.
Proof.
  intros H%SIZE_MAPPING_lookup. unfold SIZE_MAPPING_entries in H.
  repeat (apply elem_of_cons in H as [H|H];
          [injection H as -> ->; vm_compute; repeat split; set_solver|]).
  inversion H.
Qed.

Lemma toUpperCase_empty (s : string) :
  JsString.toUpperCase s = "" -> s = "".
Proof. destruct s; [reflexivity | discriminate]. Qed.

Lemma lower_upper_char (c : ascii) :
  JsString.lower_char (JsString.upper_char c) = JsString.lower_char c.
Proof. destruct c as [[] [] [] [] [] [] [] []]; reflexivity. Qed.

Lemma upper_lower_char (c : ascii) :
  JsString.upper_char (JsString.lower_char c) = JsString.upper_char c.
Proof. destruct c as [[] [] [] [] [] [] [] []]; reflexivity. Qed.

(** Two strings are the same up to letter case when they lower-case, or
    just as well upper-case, to the same string. *)
Lemma same_up_to_case (s t : string) :
  JsString.toLowerCase s = JsString.toLowerCase t <->
  JsString.toUpperCase s = JsString.toUpperCase t.
Proof.
  revert t. induction s as [|a s IH]; intros [|b t]; cbn; try (split; discriminate);
    [split; reflexivity|].
  fold (JsString.toLowerCase s) (JsString.toLowerCase t)
       (JsString.toUpperCase s) (JsString.toUpperCase t).
  split; intros [= Hc Hs]; f_equal.
  - rewrite <- (upper_lower_char a), Hc. apply upper_lower_char.
  - apply IH, Hs.
  - rewrite <- (lower_upper_char a), Hc. apply lower_upper_char.
  - apply IH, Hs.
Qed.

Lemma normalizeSize_no_match (s : string) :
  JsString.toUpperCase s ∉ size_tokens -> normalizeSize s = None.
Proof.
  intros Hnot. unfold normalizeSize.
  destruct (negb (JsString.truthy s)); [reflexivity|].
  destruct (SIZE_MAPPING !! JsString.toUpperCase s) as [v|] eqn:E; [|reflexivity].
  apply SIZE_MAPPING_values in E as (Hin & _ & _). contradiction.
Qed.

(** C6.  A string that is one of the nineteen size tokens up to letter case
    (it upper-cases to the token) is normalized to the bucket the
    specification documents for that token, which is one of the seven
    canonical sizes; a string whose upper-cased form is not one of the
    nineteen gets the no-match value [None]. *)
Theorem normalizeSize_table :
  (forall s token : string,
      token ∈ size_tokens ->
      JsString.toLowerCase s = JsString.toLowerCase token \/
      JsString.toUpperCase s = token ->
      exists canonical,
        documented_bucket token = Some canonical /\
        canonical ∈ ORDERED_SIZES /\
        normalizeSize s = Some canonical) /\
  (forall s : string,
      JsString.toUpperCase s ∉ size_tokens -> normalizeSize s = None).
Proof.
  split.
  - intros s token Hin Hcase.
    assert (Hup : JsString.toUpperCase s = token).
    { destruct Hcase as [Hlow|Hup]; [|exact Hup].
      apply same_up_to_case in Hlow. rewrite Hlow. clear Hlow.
      unfold size_tokens in Hin.
      repeat (apply elem_of_cons in Hin as [->|Hin]; [reflexivity|]).
      inversion Hin. }
    clear Hcase. unfold size_tokens in Hin.
    assert (Hs : JsString.truthy s = true).
    { destruct s; [|reflexivity]. cbn in Hup. subst token. exfalso.
      repeat (apply elem_of_cons in Hin as [Hin|Hin]; [discriminate|]).
      inversion Hin. }
    unfold normalizeSize. rewrite Hs, Hup. cbn [negb].
    repeat (apply elem_of_cons in Hin as [->|Hin];
            [eexists; vm_compute; repeat split; set_solver|]).
    inversion Hin.
  - exact normalizeSize_no_match.
Qed.

Lemma normalizeSize_table_witness :
  (exists canonical,
      documented_bucket "XSMALL" = Some canonical /\
      canonical ∈ ORDERED_SIZES /\
      normalizeSize "xSmall" = Some canonical) /\
  normalizeSize "Navy" = None.
Proof.
  split.
  - apply (proj1 normalizeSize_table "xSmall" "XSMALL"); [compute_done | left; reflexivity].
  - apply (proj2 normalizeSize_table "Navy"). compute_done.
Defined.

(** ** Splitting *)

Lemma split_go_absent (sep s : string) :
  JsString.includes s sep = false -> JsString.split_go sep 0 s = (s, []).
Proof.
  induction s as [|c s IH]; [reflexivity|].
  cbn [JsString.includes JsString.split_go]. intros H.
  apply orb_false_elim in H as [Hp Hi]. rewrite Hp, (IH Hi). reflexivity.
Qed.

Lemma split_go_present (sep s : string) :
  sep <> "" -> JsString.includes s sep = true -> snd (JsString.split_go sep 0 s) <> [].
Proof.
  intros Hsep. induction s as [|c s IH].
  - intros H. destruct sep; [contradiction|]. cbn in H. discriminate.
  - cbn [JsString.includes JsString.split_go]. intros H.
    destruct (String.prefix sep (String c s)).
    + destruct (JsString.split_go sep (String.length sep - 1) s). cbn. discriminate.
    + cbn in H. specialize (IH H).
      destruct (JsString.split_go sep 0 s). exact IH.
Qed.

(** A string splits into two segments or more exactly when it contains the
    separator. *)
Lemma split_length_includes (s sep : string) :
  sep <> "" ->
  (2 <=? List.length (JsString.split s sep))%nat = JsString.includes s sep.
Proof.
  intros Hsep. unfold JsString.split.
  destruct (JsString.includes s sep) eqn:E.
  - pose proof (split_go_present sep s Hsep E) as H.
    destruct (JsString.split_go sep 0 s) as [h [|x t]]; [contradiction | reflexivity].
  - rewrite (split_go_absent _ _ E). reflexivity.
Qed.

Lemma includes_slash_upper (s : string) :
  JsString.includes s "/" = true ->
  JsString.includes (JsString.toUpperCase s) "/" = true.
Proof.
  induction s as [|c s IH]; [discriminate|].
  cbn [JsString.includes JsString.toUpperCase JsString.map_chars].
  fold (JsString.toUpperCase s). intros H.
  apply orb_true_iff in H as [H|H].
  - apply orb_true_iff. left. revert H.
    destruct c as [[] [] [] [] [] [] [] []]; cbn; try discriminate; destruct s; reflexivity.
  - apply orb_true_iff. right. exact (IH H).
Qed.

(** A string that contains "/" never normalizes as a size. *)
Lemma normalizeSize_slash (s : string) :
  JsString.includes s "/" = true -> normalizeSize s = None.
Proof.
  intros H%includes_slash_upper. apply normalizeSize_no_match.
  intros Hin. unfold size_tokens in Hin.
  repeat (apply elem_of_cons in Hin as [Hin|Hin];
          [rewrite Hin in H; vm_compute in H; discriminate|]).
  inversion Hin.
Qed.

(** ** LineItemParser *)

Lemma parseCSV_items_from_cons (start : nat) (row : CSVRow) (rows : list CSVRow) :
  parseCSV_items_from start (row :: rows) =
  match parseCSV_item start row with Some item => [item] | None => [] end
  ++ parseCSV_items_from (S start) rows.
Proof.
  unfold parseCSV_items_from. cbn.
  destruct (parseCSV_item start row); reflexivity.
Qed.

Lemma parseCSV_items_from_app (start : nat) (pre post : list CSVRow) :
  parseCSV_items_from start (pre ++ post) =
  parseCSV_items_from start pre ++ parseCSV_items_from (start + List.length pre) post.
Proof.
  revert start. induction pre as [|row pre IH]; intros start.
  - cbn [app List.length]. rewrite Nat.add_0_r. reflexivity.
  - rewrite <- app_comm_cons, !parseCSV_items_from_cons, IH, <- app_assoc.
    cbn [List.length]. rewrite Nat.add_succ_r. reflexivity.
Qed.

Lemma parseCSV_fold (l : list (nat * CSVRow)) (items : list ParsedItem)
    (ordersMap : JsMap.t Order) :
  fold_left parseCSV_row l (items, ordersMap) =
  (items ++ omap (fun ir => parseCSV_item ir.1 ir.2) l,
   fold_left parseCSV_order (map snd l) ordersMap).
Proof.
  revert items ordersMap. induction l as [|[index row] l IH]; intros items ordersMap.
  - cbn. rewrite app_nil_r. reflexivity.
  - cbn [fold_left map snd]. unfold parseCSV_row at 2. rewrite IH. cbn [omap list_omap fst snd].
    destruct (parseCSV_item index row); [rewrite <- app_assoc|]; reflexivity.
Qed.

Lemma indexed_rows {A} (start : nat) (l : list A) :
  map snd (combine (seq start (List.length l)) l) = l.
Proof.
  revert start. induction l as [|x l IH]; intros start; [reflexivity|].
  cbn. rewrite IH. reflexivity.
Qed.

(** The two halves of what [parseCSV] returns: the items row by row, and
    the orders of the map filled row by row. *)
Lemma parseCSV_unfold (data : list CSVRow) :
  parseCSV data =
  (parseCSV_items_from 0 data,
   JsMap.values (fold_left parseCSV_order data JsMap.empty)).
Proof.
  unfold parseCSV, parseCSV_state, indexed. rewrite parseCSV_fold.
  rewrite indexed_rows. reflexivity.
Qed.

Lemma parseCSV_items_from_elem (start : nat) (rows : list CSVRow) (item : ParsedItem) :
  item ∈ parseCSV_items_from start rows <->
  exists i row, rows !! i = Some row /\ parseCSV_item (start + i) row = Some item.
Proof.
  revert start. induction rows as [|row rows IH]; intros start.
  - split; [intros H; inversion H | intros (i & r & H & _); destruct i; discriminate].
  - rewrite parseCSV_items_from_cons, elem_of_app, IH. split.
    + intros [H|(i & r & Hi & Hr)].
      * exists 0%nat, row. rewrite Nat.add_0_r. split; [reflexivity|].
        destruct (parseCSV_item start row); [|inversion H].
        apply list_elem_of_singleton in H. congruence.
      * exists (S i), r. rewrite Nat.add_succ_r. auto.
    + intros ([|i] & r & Hi & Hr).
      * left. cbn in Hi. injection Hi as ->. rewrite Nat.add_0_r in Hr. rewrite Hr.
        apply list_elem_of_singleton. reflexivity.
      * right. exists i, r. rewrite Nat.add_succ_r in Hr. auto.
Qed.

Lemma includes_nonempty (s sep : string) :
  sep <> "" -> JsString.includes s sep = true -> JsString.truthy s = true.
Proof.
  intros Hsep H. destruct s; [|reflexivity].
  destruct sep; [contradiction | discriminate].
Qed.

(** A row with a name that has a separator and a quantity that parses
    yields the item whose fields [parseCSV_name] computes. *)
Lemma parseCSV_item_named (index : nat) (row : CSVRow) (rawName : string) (q : Z) :
  row !! "Lineitem name" = Some rawName ->
  row_quantity row = Some q ->
  JsString.truthy rawName = true ->
  parseCSV_item index row =
  Some {| item_id := JsString.of_index index +:+ "-" +:+ rawName;
          productName := (parseCSV_name rawName).1.1;
          color := (parseCSV_name rawName).1.2;
          item_size := (parseCSV_name rawName).2;
          quantity := q |}.
Proof.
  unfold row_quantity, parseCSV_item. intros -> -> ->.
  destruct (parseCSV_name rawName) as [[p c] s]. reflexivity.
Qed.

(** With a separator in the name, [parseCSV_name] takes the suffix branch. *)
Lemma parseCSV_name_suffix (rawName : string) :
  JsString.includes rawName " - " = true ->
  parseCSV_name rawName =
  match suffix_parts rawName with
  | [partA; partB] =>
      match normalizeSize partA, normalizeSize partB with
      | Some sizeA, _ => (name_product rawName, partB, sizeA)
      | None, Some sizeB => (name_product rawName, partA, sizeB)
      | None, None => (name_product rawName, name_suffix rawName, "Unknown")
      end
  | _ =>
      match normalizeSize (name_suffix rawName) with
      | Some s => (name_product rawName, "Standard", s)
      | None => (name_product rawName, name_suffix rawName, "One Size")
      end
  end.
Proof.
  intros H. unfold parseCSV_name.
  rewrite split_length_includes, H by discriminate. reflexivity.
Qed.

Lemma parseCSV_name_whole (rawName : string) :
  JsString.includes rawName " - " = false ->
  parseCSV_name rawName = (rawName, "Unknown", "Unknown").
Proof.
  intros H. unfold parseCSV_name.
  rewrite split_length_includes, H by discriminate. reflexivity.
Qed.

Lemma parseCSV_item_invalid (index : nat) (row : CSVRow) :
  row_quantity row = None \/ JsString.truthy_opt (row !! "Lineitem name") = false ->
  parseCSV_item index row = None.
Proof.
  unfold row_quantity, parseCSV_item, JsString.truthy_opt. intros [H|H].
  - rewrite H. destruct (row !! "Lineitem name"); reflexivity.
  - destruct (row !! "Lineitem name") as [rawName|]; [|reflexivity].
    rewrite H. destruct (JsNumber.parseInt _); reflexivity.
Qed.

Lemma parseCSV_item_some (index : nat) (row : CSVRow) (item : ParsedItem) :
  parseCSV_item index row = Some item ->
  row_quantity row = Some (quantity item) /\
  JsString.truthy_opt (row !! "Lineitem name") = true.
Proof.
  unfold row_quantity, parseCSV_item, JsString.truthy_opt.
  destruct (row !! "Lineitem name") as [rawName|]; [|discriminate].
  destruct (JsNumber.parseInt _) as [q|]; [|discriminate].
  destruct (JsString.truthy rawName); [|discriminate].
  destruct (parseCSV_name rawName) as [[p c] s].
  intros [= <-]. split; reflexivity.
Qed.

(** C3, as stated, fails for a name without " - ": "Navy / Large" is its own
    last segment and splits into "Navy" and "Large", but the parser leaves
    colour and size at "Unknown". *)
Lemma two_part_rule_needs_separator : ~ two_part_rule "Navy / Large".
Proof.
  intros H.
  destruct (H 0%nat {[ "Lineitem name" := "Navy / Large"; "Lineitem quantity" := "1" ]}
              1 "Navy" "Large")
    as (item & Hitem & _ & Hrule & _); try (vm_compute; reflexivity).
  vm_compute in Hitem. injection Hitem as <-.
  destruct (Hrule "LARGE") as [Hsize _]; try (vm_compute; reflexivity).
  discriminate Hsize.
Qed.

(** C3 (amended).  For a raw item name that contains " - ", the two-part
    rule holds: the first part wins as size when it normalizes, else the
    second; when neither does, the colour is the whole suffix and the size
    stays "Unknown".  "Classic Tee - Navy / Large" gives product
    "Classic Tee", size "LARGE" and colour "Navy". *)
Theorem two_part_suffix :
  (forall rawName : string,
      JsString.includes rawName " - " = true -> two_part_rule rawName) /\
  (forall (index : nat) (row : CSVRow) (q : Z),
      row !! "Lineitem name" = Some "Classic Tee - Navy / Large" ->
      row_quantity row = Some q ->
      exists item,
        parseCSV_item index row = Some item /\
        productName item = "Classic Tee" /\ item_size item = "LARGE" /\
        color item = "Navy" /\ quantity item = q).
Proof.
  split.
  - intros rawName Hsep index row q partA partB Hname Hq Hparts.
    rewrite (parseCSV_item_named index row rawName q Hname Hq
               (includes_nonempty rawName " - " ltac:(discriminate) Hsep)).
    eexists. split; [reflexivity|]. cbn [item_size color].
    rewrite (parseCSV_name_suffix _ Hsep), Hparts.
    destruct (normalizeSize partA) as [sizeA|], (normalizeSize partB) as [sizeB|];
      cbn; repeat split; intros; simplify_eq; reflexivity.
  - intros index row q Hname Hq.
    rewrite (parseCSV_item_named index row _ q Hname Hq eq_refl).
    eexists. split; [reflexivity|]. vm_compute. repeat split.
Qed.

Lemma two_part_suffix_witness :
  exists item,
    parseCSV_item 0 {[ "Lineitem name" := "Classic Tee - Navy / Large";
                       "Lineitem quantity" := "2" ]} = Some item /\
    item_size item = "LARGE" /\ color item = "Navy".
Proof.
  destruct (proj1 two_part_suffix "Classic Tee - Navy / Large" eq_refl 0%nat
              {[ "Lineitem name" := "Classic Tee - Navy / Large";
                 "Lineitem quantity" := "2" ]} 2 "Navy" "Large")
    as (item & Hitem & _ & Hrule & _); try (vm_compute; reflexivity).
  exists item. split; [exact Hitem|].
  apply Hrule; vm_compute; reflexivity.
Defined.

(** C10.  For a raw item name that contains " - " and whose suffix splits on
    "/" into three parts or more, the suffix does not normalize as a size
    (it contains "/"), and the item gets the whole suffix as colour and
    "One Size" as size. *)
Theorem multi_part_suffix (index : nat) (row : CSVRow) (rawName : string) (q : Z) :
  row !! "Lineitem name" = Some rawName ->
  row_quantity row = Some q ->
  JsString.includes rawName " - " = true ->
  (3 <= List.length (JsString.split (name_suffix rawName) "/"))%nat ->
  normalizeSize (name_suffix rawName) = None /\
  exists item,
    parseCSV_item index row = Some item /\
    productName item = name_product rawName /\
    color item = name_suffix rawName /\
    item_size item = "One Size" /\
    quantity item = q.
Proof.
  intros Hname Hq Hsep Hlen.
  assert (Hnone : normalizeSize (name_suffix rawName) = None).
  { apply normalizeSize_slash. rewrite <- split_length_includes by discriminate.
    apply Nat.leb_le. lia. }
  split; [exact Hnone|].
  rewrite (parseCSV_item_named index row rawName q Hname Hq
             (includes_nonempty rawName " - " ltac:(discriminate) Hsep)).
  eexists. split; [reflexivity|]. cbn [productName color item_size quantity].
  rewrite (parseCSV_name_suffix _ Hsep), Hnone.
  assert (Hparts : (3 <= List.length (suffix_parts rawName))%nat).
  { unfold suffix_parts. rewrite length_map. exact Hlen. }
  destruct (suffix_parts rawName) as [|a [|b [|c l]]]; cbn in Hparts; try lia.
  repeat split.
Qed.

Lemma multi_part_suffix_witness :
  normalizeSize "Red/Navy/Large" = None /\
  exists item,
    parseCSV_item 4 {[ "Lineitem name" := "Tee - Red/Navy/Large";
                       "Lineitem quantity" := "3" ]} = Some item /\
    productName item = "Tee" /\
    color item = "Red/Navy/Large" /\
    item_size item = "One Size" /\
    quantity item = 3.
Proof.
  apply (multi_part_suffix 4 {[ "Lineitem name" := "Tee - Red/Navy/Large";
                                "Lineitem quantity" := "3" ]} "Tee - Red/Navy/Large" 3);
    [vm_compute; reflexivity | vm_compute; reflexivity | reflexivity | vm_compute; lia].
Defined.

(** Text that is a valid integer is read by [parseInt]. *)
Lemma integer_text_parsed (s : string) :
  is_integer_text s = true -> exists z, JsNumber.parseInt s = Some z.
Proof.
  unfold is_integer_text, JsNumber.parseInt.
  destruct (JsNumber.take_sign (JsString.trimStart s)) as [neg s1].
  destruct (JsNumber.take_digits s1) as [[|d ds] rest]; [discriminate|].
  intros _. eexists. reflexivity.
Qed.

(** C7, as stated, fails: "12abc" is not a valid integer, yet [parseInt]
    reads 12 from it and the row yields a LineItem of quantity 12. *)
Lemma leading_integer_is_kept :
  ~ (forall (index : nat) (row : CSVRow),
        is_integer_text (JsString.to_string (row !! "Lineitem quantity")) = false \/
        JsString.truthy_opt (row !! "Lineitem name") = false ->
        parseCSV_item index row = None).
Proof.
  intros H.
  specialize (H 0%nat {[ "Lineitem quantity" := "12abc"; "Lineitem name" := "Tee" ]}).
  assert (Hitem : parseCSV_item 0 {[ "Lineitem quantity" := "12abc"; "Lineitem name" := "Tee" ]}
                  = Some {| item_id := "0-Tee"; productName := "Tee"; color := "Unknown";
                            item_size := "Unknown"; quantity := 12 |}).
  { vm_compute. reflexivity. }
  rewrite Hitem in H. discriminate H. left. vm_compute. reflexivity.
Qed.

(** C7 (amended).  A row from whose quantity field [parseInt] reads no
    integer (after optional white space and sign the text does not start
    with a digit), or whose item-name field is empty or absent, produces no
    LineItem: the item list of the import is the list the rows before it
    and after it produce, and [parseCSV] returns as for any other input.
    These are the only rows without a LineItem.  In particular quantity
    "abc" or name "" yields no LineItem. *)
Theorem invalid_row_dropped :
  (forall (pre post : list CSVRow) (row : CSVRow),
      row_quantity row = None \/ JsString.truthy_opt (row !! "Lineitem name") = false ->
      (parseCSV (pre ++ row :: post)).1 =
      parseCSV_items_from 0 pre ++ parseCSV_items_from (S (List.length pre)) post) /\
  (forall (index : nat) (row : CSVRow),
      parseCSV_item index row = None <->
      row_quantity row = None \/ JsString.truthy_opt (row !! "Lineitem name") = false) /\
  (forall (index : nat) (row : CSVRow),
      row !! "Lineitem quantity" = Some "abc" \/ row !! "Lineitem name" = Some "" ->
      parseCSV_item index row = None).
Proof.
  split; [|split].
  2:{ intros index row. split; [|apply parseCSV_item_invalid].
      intros Hnone. destruct (row_quantity row) as [q|] eqn:Hq; [|left; reflexivity].
      right. destruct (JsString.truthy_opt (row !! "Lineitem name")) eqn:Hn; [|reflexivity].
      unfold JsString.truthy_opt in Hn.
      destruct (row !! "Lineitem name") as [rawName|] eqn:Hname; [|discriminate].
      rewrite (parseCSV_item_named index row rawName q Hname Hq Hn) in Hnone.
      discriminate. }
  - intros pre post row Hrow. rewrite parseCSV_unfold. cbn [fst].
    rewrite parseCSV_items_from_app, parseCSV_items_from_cons.
    rewrite (parseCSV_item_invalid _ _ Hrow). cbn [app].
    rewrite Nat.add_0_l. reflexivity.
  - intros index row [H|H]; apply parseCSV_item_invalid.
    + left. unfold row_quantity. rewrite H. reflexivity.
    + right. rewrite H. reflexivity.
Qed.

Lemma invalid_row_dropped_witness :
  (parseCSV ([ {[ "Lineitem quantity" := "1"; "Lineitem name" := "Cap" ]} ] ++
             {[ "Lineitem quantity" := "abc"; "Lineitem name" := "Shipping" ]} ::
             [ {[ "Lineitem quantity" := "2"; "Lineitem name" := "Tee - Navy / L" ]} ])).1 =
  parseCSV_items_from 0 [ {[ "Lineitem quantity" := "1"; "Lineitem name" := "Cap" ]} ] ++
  parseCSV_items_from 2 [ {[ "Lineitem quantity" := "2"; "Lineitem name" := "Tee - Navy / L" ]} ].
Proof.
  apply (proj1 invalid_row_dropped
           [ {[ "Lineitem quantity" := "1"; "Lineitem name" := "Cap" ]} ]
           [ {[ "Lineitem quantity" := "2"; "Lineitem name" := "Tee - Navy / L" ]} ]
           {[ "Lineitem quantity" := "abc"; "Lineitem name" := "Shipping" ]}).
  left. vm_compute. reflexivity.
Defined.

(** C9, as stated, fails: a row with quantity "0" yields a LineItem, and its
    quantity is 0. *)
Lemma quantity_not_always_positive :
  ~ (forall (data : list CSVRow) (item : ParsedItem),
        item ∈ (parseCSV data).1 -> 0 < quantity item).
Proof.
  intros H.
  specialize (H [ {[ "Lineitem quantity" := "0"; "Lineitem name" := "Tee" ]} ]
                {| item_id := "0-Tee"; productName := "Tee"; color := "Unknown";
                   item_size := "Unknown"; quantity := 0 |}).
  assert (Hin : {| item_id := "0-Tee"; productName := "Tee"; color := "Unknown";
                   item_size := "Unknown"; quantity := 0 |}
                ∈ (parseCSV [ {[ "Lineitem quantity" := "0";
                                 "Lineitem name" := "Tee" ]} ]).1).
  { vm_compute. apply list_elem_of_here. }
  specialize (H Hin). cbn in H. lia.
Qed.

(** C9 (amended).  Every LineItem the parser produces comes from a row with
    a non-empty item name, and its quantity is the integer [parseInt] reads
    from that row's quantity field, of either sign or zero. *)
Theorem item_quantity_parsed (data : list CSVRow) (item : ParsedItem) :
  item ∈ (parseCSV data).1 ->
  exists (index : nat) (row : CSVRow),
    data !! index = Some row /\
    parseCSV_item index row = Some item /\
    row_quantity row = Some (quantity item) /\
    JsString.truthy_opt (row !! "Lineitem name") = true.
Proof.
  rewrite parseCSV_unfold. cbn [fst].
  intros (index & row & Hrow & Hitem)%parseCSV_items_from_elem.
  exists index, row. cbn in Hitem.
  split; [exact Hrow|]. split; [exact Hitem|].
  exact (parseCSV_item_some _ _ _ Hitem).
Qed.

Lemma item_quantity_parsed_witness :
  exists (index : nat) (row : CSVRow),
    [ {[ "Lineitem quantity" := "-2"; "Lineitem name" := "Tee - Navy / L" ]} ] !! index
      = Some row /\
    parseCSV_item index row =
      Some {| item_id := "0-Tee - Navy / L"; productName := "Tee"; color := "Navy";
              item_size := "LARGE"; quantity := -2 |} /\
    row_quantity row = Some (-2) /\
    JsString.truthy_opt (row !! "Lineitem name") = true.
Proof.
  apply (item_quantity_parsed
           [ {[ "Lineitem quantity" := "-2"; "Lineitem name" := "Tee - Navy / L" ]} ]
           {| item_id := "0-Tee - Navy / L"; productName := "Tee"; color := "Navy";
              item_size := "LARGE"; quantity := -2 |}).
  vm_compute. apply list_elem_of_here.
Defined.

(** ** [Map] lemmas *)

Lemma JsMap_get_set_eq {V} (m : JsMap.t V) (k : string) (v : V) :
  JsMap.get (JsMap.set m k v) k = Some v.
Proof.
  induction m as [|[k' v'] m IH]; cbn.
  - rewrite String.eqb_refl. reflexivity.
  - destruct (String.eqb k' k) eqn:E; cbn.
    + rewrite String.eqb_refl. reflexivity.
    + rewrite E. exact IH.
Qed.

Lemma JsMap_get_set_ne {V} (m : JsMap.t V) (k k' : string) (v : V) :
  k <> k' -> JsMap.get (JsMap.set m k v) k' = JsMap.get m k'.
Proof.
  intros Hne. induction m as [|[k0 v0] m IH]; cbn.
  - destruct (String.eqb_spec k k'); [contradiction | reflexivity].
  - destruct (String.eqb_spec k0 k) as [->|Hk]; cbn.
    + destruct (String.eqb_spec k k'); [contradiction | reflexivity].
    + rewrite IH. reflexivity.
Qed.

(** [set] on a key that is not there appends the entry. *)
Lemma JsMap_set_new {V} (m : JsMap.t V) (k : string) (v : V) :
  JsMap.get m k = None -> JsMap.set m k v = m ++ [(k, v)].
Proof.
  induction m as [|[k' v'] m IH]; cbn; [reflexivity|].
  destruct (String.eqb k' k); [discriminate|].
  intros H. rewrite (IH H). reflexivity.
Qed.

Lemma JsMap_get_elem {V} (m : JsMap.t V) (k : string) (v : V) :
  JsMap.get m k = Some v -> (k, v) ∈ m.
Proof.
  induction m as [|[k' v'] m IH]; cbn; [discriminate|].
  destruct (String.eqb_spec k' k) as [->|Hk].
  - intros [= ->]. apply list_elem_of_here.
  - intros H. apply list_elem_of_further, IH, H.
Qed.

Lemma JsMap_get_None {V} (m : JsMap.t V) (k : string) :
  JsMap.get m k = None <-> k ∉ JsMap.keys m.
Proof.
  induction m as [|[k' v'] m IH]; cbn.
  - split; [intros _ H; inversion H | reflexivity].
  - rewrite not_elem_of_cons. destruct (String.eqb_spec k' k) as [->|Hk].
    + split; [discriminate | intros [H _]; contradiction].
    + rewrite IH. split; [intros H; split; [congruence | exact H] | intros [_ H]; exact H].
Qed.

Lemma JsMap_elem_get {V} (m : JsMap.t V) (k : string) (v : V) :
  NoDup (JsMap.keys m) -> (k, v) ∈ m -> JsMap.get m k = Some v.
Proof.
  induction m as [|[k' v'] m IH]; cbn; intros Hnd Hin; [inversion Hin|].
  apply NoDup_cons in Hnd as [Hk' Hnd].
  apply elem_of_cons in Hin as [[= -> ->]|Hin].
  - rewrite String.eqb_refl. reflexivity.
  - destruct (String.eqb_spec k' k) as [->|Hne]; [|exact (IH Hnd Hin)].
    exfalso. apply Hk'. apply list_elem_of_fmap. exists (k, v). split; [reflexivity | exact Hin].
Qed.

(** ** OrderExtractor *)

(** An entry, once in the map, stays as it is. *)
Lemma parseCSV_order_keeps (ordersMap : JsMap.t Order) (row : CSVRow) (n : string) (o : Order) :
  JsMap.get ordersMap n = Some o -> JsMap.get (parseCSV_order ordersMap row) n = Some o.
Proof.
  intros Hn. unfold parseCSV_order.
  destruct (row !! "Name") as [k|]; [|exact Hn].
  destruct (JsString.truthy k); [|exact Hn]. cbn [andb].
  unfold JsMap.has. destruct (JsMap.get ordersMap k) eqn:Hk; [exact Hn|]. cbn [negb].
  destruct (JsString.truthy_opt _); [|exact Hn].
  rewrite JsMap_get_set_ne; [exact Hn | congruence].
Qed.

Lemma parseCSV_order_get (ordersMap : JsMap.t Order) (row : CSVRow) (n : string) :
  JsMap.get (parseCSV_order ordersMap row) n =
  match JsMap.get ordersMap n with
  | Some o => Some o
  | None => if JsString.truthy n && is_header_for n row
            then Some (parseCSV_new_order n row) else None
  end.
Proof.
  destruct (JsMap.get ordersMap n) as [o|] eqn:Hn.
  { exact (parseCSV_order_keeps _ _ _ _ Hn). }
  unfold parseCSV_order, is_header_for.
  destruct (row !! "Name") as [k|] eqn:Hname.
  2:{ rewrite bool_decide_eq_false_2 by discriminate.
      rewrite andb_false_r. exact Hn. }
  destruct (decide (k = n)) as [->|Hne].
  - rewrite bool_decide_eq_true_2 by reflexivity. cbn [andb].
    unfold JsMap.has. rewrite Hn. cbn [negb]. rewrite andb_true_r.
    destruct (JsString.truthy n); cbn [andb]; [|exact Hn].
    destruct (JsString.truthy_opt _); [apply JsMap_get_set_eq | exact Hn].
  - rewrite bool_decide_eq_false_2 by congruence. rewrite andb_false_r.
    destruct (JsString.truthy k && negb (JsMap.has ordersMap k)); [|exact Hn].
    destruct (JsString.truthy_opt _); [|exact Hn].
    rewrite JsMap_get_set_ne by exact Hne. exact Hn.
Qed.

(** The entry of a name after the rows [data]: the one it had before, else
    the order of the first header row for it. *)
Lemma parseCSV_orders_get (data : list CSVRow) (ordersMap : JsMap.t Order) (n : string) :
  JsMap.get (fold_left parseCSV_order data ordersMap) n =
  match JsMap.get ordersMap n with
  | Some o => Some o
  | None => if JsString.truthy n
            then parseCSV_new_order n <$> List.find (is_header_for n) data
            else None
  end.
Proof.
  revert ordersMap. induction data as [|row data IH]; intros ordersMap.
  - cbn. destruct (JsMap.get ordersMap n); [|destruct (JsString.truthy n)]; reflexivity.
  - cbn [fold_left List.find]. rewrite IH, parseCSV_order_get.
    destruct (JsMap.get ordersMap n); [reflexivity|].
    destruct (JsString.truthy n); cbn [andb]; [|reflexivity].
    destruct (is_header_for n row); reflexivity.
Qed.

Lemma parseCSV_order_wf (ordersMap : JsMap.t Order) (row : CSVRow) :
  orders_wf ordersMap -> orders_wf (parseCSV_order ordersMap row).
Proof.
  intros [Hnd Hname]. unfold parseCSV_order.
  destruct (row !! "Name") as [k|]; [|split; assumption].
  destruct (JsString.truthy k); [|split; assumption]. cbn [andb].
  unfold JsMap.has. destruct (JsMap.get ordersMap k) eqn:Hk; [split; assumption|]. cbn [negb].
  destruct (JsString.truthy_opt _); [|split; assumption].
  rewrite (JsMap_set_new _ _ _ Hk). split.
  - unfold JsMap.keys. rewrite map_app. cbn. apply NoDup_app. split; [exact Hnd|].
    split; [|apply NoDup_singleton].
    intros x Hx Hx'. apply list_elem_of_singleton in Hx'. subst x.
    apply JsMap_get_None in Hk. contradiction.
  - apply Forall_app. split; [exact Hname|]. apply Forall_singleton. reflexivity.
Qed.

Lemma parseCSV_ordersMap_wf (data : list CSVRow) : orders_wf (parseCSV_ordersMap data).
Proof.
  unfold parseCSV_ordersMap.
  assert (H : forall om, orders_wf om -> orders_wf (fold_left parseCSV_order data om)).
  { induction data as [|row data IH]; intros om Hom; [exact Hom|].
    cbn. apply IH, parseCSV_order_wf, Hom. }
  apply H. split; [apply NoDup_nil_2 | apply Forall_nil_2].
Qed.

Lemma orders_wf_names (ordersMap : JsMap.t Order) :
  orders_wf ordersMap -> map name (JsMap.values ordersMap) = JsMap.keys ordersMap.
Proof.
  intros [_ H]. unfold JsMap.values, JsMap.keys.
  induction H as [|[k o] m Hko _ IH]; [reflexivity|].
  cbn in *. rewrite Hko, IH. reflexivity.
Qed.

(** An order is among the orders returned exactly when the map holds it
    under its name. *)
Lemma parseCSV_orders_elem (data : list CSVRow) (o : Order) :
  o ∈ (parseCSV data).2 <-> JsMap.get (parseCSV_ordersMap data) (name o) = Some o.
Proof.
  rewrite parseCSV_unfold. cbn [snd]. fold (parseCSV_ordersMap data).
  destruct (parseCSV_ordersMap_wf data) as [Hnd Hname]. split.
  - intros ([k o'] & -> & Hin)%list_elem_of_fmap. cbn.
    pose proof (proj1 (Forall_forall _ _) Hname _ Hin) as Hk. cbn in Hk. subst k.
    apply JsMap_elem_get; assumption.
  - intros H%JsMap_get_elem. apply list_elem_of_fmap.
    exists (name o, o). split; [reflexivity | exact H].
Qed.

Lemma parseCSV_orders_spec (data : list CSVRow) (o : Order) :
  o ∈ (parseCSV data).2 <->
  JsString.truthy (name o) = true /\
  exists row, List.find (is_header_for (name o)) data = Some row /\
              o = parseCSV_new_order (name o) row.
Proof.
  rewrite parseCSV_orders_elem. unfold parseCSV_ordersMap.
  rewrite parseCSV_orders_get. cbn [JsMap.get JsMap.empty].
  destruct (JsString.truthy (name o)).
  - destruct (List.find _ data) as [row|]; cbn.
    + split.
      * intros [= H]. split; [reflexivity|]. exists row. auto.
      * intros [_ (row' & [= <-] & ->)]. reflexivity.
    + split; [discriminate | intros [_ (row' & H & _)]; discriminate].
  - split; [discriminate | intros [H _]; discriminate].
Qed.

Lemma parseCSV_orders_stay (pre post : list CSVRow) (o : Order) :
  o ∈ (parseCSV pre).2 -> o ∈ (parseCSV (pre ++ post)).2.
Proof.
  rewrite !parseCSV_orders_elem. unfold parseCSV_ordersMap. intros H.
  rewrite fold_left_app, parseCSV_orders_get, H. reflexivity.
Qed.

(** C2.  The orders of an import have distinct, non-empty names; the order
    of a name is the one built from the first row, in sequence order, that
    bears the name and has a non-empty 'Created at', and every name with such
    a row has its order; an order, once created, is among the orders whatever
    rows follow.  Two rows named "#1001", the first with 'Created at' set and
    Total 50, the second with 'Created at' empty, give exactly one order, of
    total 50. *)
Theorem orders_first_header_wins :
  (forall data : list CSVRow,
      NoDup (map name (parseCSV data).2) /\
      (forall o : Order,
          o ∈ (parseCSV data).2 <->
          JsString.truthy (name o) = true /\
          exists row, List.find (is_header_for (name o)) data = Some row /\
                      o = parseCSV_new_order (name o) row)) /\
  (forall (pre post : list CSVRow) (o : Order),
      o ∈ (parseCSV pre).2 -> o ∈ (parseCSV (pre ++ post)).2) /\
  (forall (row1 row2 : CSVRow) (created : string),
      row1 !! "Name" = Some "#1001" ->
      row1 !! "Created at" = Some created ->
      JsString.truthy created = true ->
      row1 !! "Total" = Some "50" ->
      row2 !! "Name" = Some "#1001" ->
      JsString.truthy_opt (row2 !! "Created at") = false ->
      exists o, (parseCSV [row1; row2]).2 = [o] /\
                name o = "#1001" /\ total o = 50%float).
Proof.
  split; [|split].
  - intros data. split; [|apply parseCSV_orders_spec].
    rewrite parseCSV_unfold. cbn [snd]. fold (parseCSV_ordersMap data).
    rewrite (orders_wf_names _ (parseCSV_ordersMap_wf data)).
    apply (parseCSV_ordersMap_wf data).
  - exact parseCSV_orders_stay.
  - intros row1 row2 created Hn1 Hc1 Hcreated Ht1 Hn2 Hc2.
    rewrite parseCSV_unfold. cbn [snd fold_left].
    unfold parseCSV_order at 2. rewrite Hn1, Hc1. cbn. rewrite Hcreated.
    unfold parseCSV_order. rewrite Hn2. cbn.
    eexists. split; [reflexivity|]. split; [reflexivity|].
    unfold parseCSV_new_order. cbn [total]. rewrite Ht1. vm_compute. reflexivity.
Qed.

Lemma orders_first_header_wins_witness :
  exists o,
    (parseCSV [ {[ "Name" := "#1001"; "Created at" := "2025-12-26 18:48"; "Total" := "50" ]};
                {[ "Name" := "#1001"; "Created at" := ""; "Total" := "70" ]} ]).2 = [o] /\
    name o = "#1001" /\ total o = 50%float.
Proof.
  apply (proj2 (proj2 orders_first_header_wins)
           {[ "Name" := "#1001"; "Created at" := "2025-12-26 18:48"; "Total" := "50" ]}
           {[ "Name" := "#1001"; "Created at" := ""; "Total" := "70" ]}
           "2025-12-26 18:48");
    vm_compute; reflexivity.
Defined.

(** An empty or absent Total or Subtotal does default to 0. *)
Lemma empty_total_defaults_to_zero (n : string) (row : CSVRow) :
  JsString.truthy_opt (row !! "Total") = false ->
  total (parseCSV_new_order n row) = 0%float.
Proof.
  unfold parseCSV_new_order, text_or, JsString.truthy_opt. cbn [total].
  destruct (row !! "Total") as [s|]; [intros ->|intros _]; vm_compute; reflexivity.
Qed.

(** C8 on the code: a header row whose Total is "abc" and whose Subtotal is
    "n/a" creates an order, and both fields of that order are [NaN], not 0. *)
Theorem unparseable_total_is_NaN :
  exists o,
    (parseCSV [ {[ "Name" := "#1001"; "Created at" := "2025-12-26 18:48";
                   "Total" := "abc"; "Subtotal" := "n/a" ]} ]).2 = [o] /\
    is_nan (total o) = true /\ is_nan (subtotal o) = true /\
    total o <> 0%float /\ subtotal o <> 0%float.
Proof.
  eexists. split; [vm_compute; reflexivity|]. cbn [total subtotal].
  repeat split; try reflexivity;
    intros H; apply (f_equal is_nan) in H; vm_compute in H; discriminate.
Qed.

(** ** ShippingCostResolver *)

(** No name inherited from [Object.prototype] is picked as the key or the
    cost column, so that [row[nameKey]] and [row[costKey]] read the row's
    own fields or [undefined]. *)
Lemma resolved_keys_not_inherited :
  forallb (fun k => negb (JsRegExp.test nameKey_re k) && negb (JsRegExp.test costKey_re k))
    Object_prototype_keys = true.
Proof. vm_compute. reflexivity. Qed.

Lemma normalizeName_hash (key : string) :
  normalizeName key =
  match JsString.trim key with
  | String "#" _ => JsString.trim key
  | _ => String "#" (JsString.trim key)
  end.
Proof.
  unfold normalizeName, JsString.startsWith.
  destruct (JsString.trim key) as [|c t]; [reflexivity|].
  cbn [String.prefix].
  destruct (Ascii.ascii_dec "#" c) as [<-|Hc]; [destruct t; reflexivity|].
  cbn. destruct c as [[] [] [] [] [] [] [] []]; first [reflexivity | contradiction].
Qed.

Lemma cost_char_words (value : string) :
  JsString.filter_chars cost_char value =
  JsString.filter_chars
    (fun c => JsString.is_digit c || bool_decide (c = "."%char)
              || bool_decide (c = "-"%char)) value.
Proof.
  induction value as [|c v IH]; [reflexivity|]. cbn [JsString.filter_chars].
  rewrite IH. unfold cost_char.
  replace (Ascii.eqb c ".") with (bool_decide (c = "."%char))
    by (destruct (Ascii.eqb_spec c "."); [apply bool_decide_eq_true_2 | apply bool_decide_eq_false_2]; assumption).
  replace (Ascii.eqb c "-") with (bool_decide (c = "-"%char))
    by (destruct (Ascii.eqb_spec c "-"); [apply bool_decide_eq_true_2 | apply bool_decide_eq_false_2]; assumption).
  reflexivity.
Qed.

(** The row callback of [parseShippingCSV] stores the row's entry. *)
Lemma parseShippingCSV_row_entry (nameKey costKey : string)
    (costs : JsMap.t float) (row : ShippingRow) :
  JsString.truthy nameKey = true -> JsString.truthy costKey = true ->
  parseShippingCSV_row (Some nameKey) (Some costKey) costs row =
  match shipping_entry nameKey costKey row with
  | Some (k, cost) => JsMap.set costs k cost
  | None => costs
  end.
Proof.
  intros Hn Hc. unfold parseShippingCSV_row, shipping_entry, field_or.
  rewrite Hn, Hc. unfold JsString.truthy_opt, JsNumber.isNaN.
  destruct (row !! nameKey) as [key|]; [|reflexivity].
  destruct (row !! costKey) as [value|]; [|rewrite andb_false_r; reflexivity].
  cbn [JsString.to_string].
  destruct (JsString.truthy key && JsString.truthy value); [|reflexivity].
  rewrite <- cost_char_words, <- normalizeName_hash.
  destruct (is_nan _); reflexivity.
Qed.

(** Last wins: the cost under a key is that of the last entry with the key. *)
Lemma shipping_fold_get (step : JsMap.t float -> ShippingRow -> JsMap.t float)
    (entry : ShippingRow -> option (string * float)) :
  (forall costs row,
      step costs row =
      match entry row with Some (k, cost) => JsMap.set costs k cost | None => costs end) ->
  forall (data : list ShippingRow) (costs : JsMap.t float) (k : string),
    JsMap.get (fold_left step data costs) k =
    match last (filter (fun e => e.1 = k) (omap entry data)) with
    | Some e => Some e.2
    | None => JsMap.get costs k
    end.
Proof.
  intros Hstep data. induction data as [|row data IH]; intros costs k; [reflexivity|].
  cbn [fold_left omap list_omap]. rewrite IH, Hstep.
  destruct (entry row) as [[k' cost]|]; [|reflexivity].
  rewrite filter_cons. cbn [fst]. destruct (decide (k' = k)) as [->|Hne].
  - rewrite last_cons.
    destruct (last (filter _ (omap entry data))); [reflexivity|].
    apply JsMap_get_set_eq.
  - destruct (last (filter _ (omap entry data))); [reflexivity|].
    apply JsMap_get_set_ne, Hne.
Qed.

Lemma resolved_key_truthy (r : JsRegExp.regex) (fields : list string) (key : string) :
  JsRegExp.test r "" = false ->
  List.find (JsRegExp.test r) fields = Some key ->
  JsString.truthy key = true.
Proof.
  intros Hr [_ Hkey]%find_some. destruct key; [congruence | reflexivity].
Qed.

(** C5.  With the key and the cost column resolved, the lookup holds under
    each key the cost of the last row whose entry has that key, where the
    entry of a row is as [shipping_entry] words it.  With the columns
    "Order name" and "Shipping charge", the row ("1002", "$12.50") makes
    the lookup map "#1002" to 12.5. *)
Theorem shipping_lookup_last_wins :
  (forall (fields : list string) (nameKey costKey : string)
          (data : list ShippingRow) (k : string),
      List.find (JsRegExp.test nameKey_re) fields = Some nameKey ->
      List.find (JsRegExp.test costKey_re) fields = Some costKey ->
      JsMap.get (parseShippingCSV (Some fields) data) k =
      snd <$> last (filter (fun e => e.1 = k)
                      (omap (shipping_entry nameKey costKey) data))) /\
  (forall row : ShippingRow,
      row !! "Order name" = Some "1002" ->
      row !! "Shipping charge" = Some "$12.50" ->
      JsMap.get (parseShippingCSV (Some ["Order name"; "Shipping charge"]) [row]) "#1002"
      = Some 12.5%float).
Proof.
  assert (Hgen : forall fields nameKey costKey data k,
      List.find (JsRegExp.test nameKey_re) fields = Some nameKey ->
      List.find (JsRegExp.test costKey_re) fields = Some costKey ->
      JsMap.get (parseShippingCSV (Some fields) data) k =
      snd <$> last (filter (fun e => e.1 = k)
                      (omap (shipping_entry nameKey costKey) data))).
  { intros fields nameKey costKey data k Hn Hc. unfold parseShippingCSV.
    rewrite Hn, Hc.
    rewrite (shipping_fold_get _ (shipping_entry nameKey costKey)).
    - destruct (last _); reflexivity.
    - intros costs row. apply parseShippingCSV_row_entry.
      + exact (resolved_key_truthy nameKey_re _ _ eq_refl Hn).
      + exact (resolved_key_truthy costKey_re _ _ eq_refl Hc). }
  split; [exact Hgen|].
  intros row Hname Hcost.
  rewrite (Hgen _ "Order name" "Shipping charge") by reflexivity.
  cbn [omap list_omap]. unfold shipping_entry. rewrite Hname, Hcost.
  vm_compute. reflexivity.
Qed.

Lemma shipping_lookup_last_wins_witness :
  JsMap.get (parseShippingCSV (Some ["Order name"; "Shipping charge"])
               [ {[ "Order name" := "1002"; "Shipping charge" := "$12.50" ]};
                 {[ "Order name" := " #1002 "; "Shipping charge" := "USD 9.75" ]};
                 {[ "Order name" := "1003"; "Shipping charge" := "n/a" ]} ]) "#1002"
  = Some 9.75%float /\
  JsMap.get (parseShippingCSV (Some ["Order name"; "Shipping charge"])
               [ {[ "Order name" := "1002"; "Shipping charge" := "$12.50" ]} ]) "#1002"
  = Some 12.5%float.
Proof.
  split.
  - rewrite (proj1 shipping_lookup_last_wins ["Order name"; "Shipping charge"]
               "Order name" "Shipping charge") by reflexivity.
    vm_compute. reflexivity.
  - apply (proj2 shipping_lookup_last_wins); vm_compute; reflexivity.
Defined.

(** ** EarningsCalculator *)

Lemma sort_insert_perm {A} (cmp : A -> A -> float) (x : A) (l : list A) :
  Permutation (App.sort_insert cmp x l) (x :: l).
Proof.
  induction l as [|y l IH]; cbn; [reflexivity|].
  destruct (0 <? cmp x y)%float; [|reflexivity].
  rewrite IH. apply perm_swap.
Qed.

(** Sorting only reorders. *)
Lemma sort_perm {A} (cmp : A -> A -> float) (l : list A) :
  Permutation (App.sort cmp l) l.
Proof.
  induction l as [|x l IH]; cbn; [reflexivity|].
  rewrite sort_insert_perm, IH. reflexivity.
Qed.

Lemma reduce_float_sum {A} (f : A -> float) (l : list A) (acc : float) :
  fold_left (fun acc o => (acc + f o)%float) l acc =
  fold_left (fun acc x => (acc + x)%float) (map f l) acc.
Proof.
  revert acc. induction l as [|x l IH]; intros acc; [reflexivity|]. cbn. apply IH.
Qed.

(** C4, as stated, fails in its example: with percent "2.9" and fixed "0.30"
    the fee the program computes for a total of 100 is not the number 3.2
    (binary64 division and multiplication round: it is 3.1999999999999997). *)
Lemma shopify_fee_example_not_3_2 :
  App.shopifyFee (App.processOrder "2.9" "0.30" order_of_100) <> 3.2%float.
Proof.
  intros H. apply (f_equal (fun x => (x =? 3.2)%float)) in H.
  vm_compute in H. discriminate H.
Qed.

(** C4 (amended).  In the program's binary64 arithmetic: the processed
    orders are the orders of the import, reordered, each with
    shopifyFee = total * (percent / 100) + fixed and
    netAfterFees = subtotal - shopifyFee; totalSubtotal and totalShopify
    are the sums of subtotal and shopifyFee over the processed orders, taken
    left to right from 0, and netProfit = totalSubtotal - shipping -
    totalShopify - blanks.  With percent "2.9" and fixed "0.30", a total of
    100 gives the fee 3.1999999999999997. *)
Theorem earnings_formulas :
  (forall (getTime : string -> float) (percent fixed blanks shipping : string)
          (field : App.SortField) (direction : App.SortDirection)
          (data : AggregatedData),
      let processed := App.getProcessedOrders getTime percent fixed field direction (Some data) in
      let stats := App.getEarningsStats blanks shipping processed in
      Permutation processed (map (App.processOrder percent fixed) (orders data)) /\
      (forall p : App.ProcessedOrder, p ∈ processed ->
         App.order p ∈ orders data /\
         App.shopifyFee p =
           (total (App.order p) * (App.currentShopifyPercent percent / 100)
            + App.currentShopifyFixed fixed)%float /\
         App.netAfterFees p = (subtotal (App.order p) - App.shopifyFee p)%float) /\
      App.totalSubtotal stats = float_sum (map (fun p => subtotal (App.order p)) processed) /\
      App.totalShopify stats = float_sum (map App.shopifyFee processed) /\
      App.netProfit stats =
        (App.totalSubtotal stats - JsNumber.or_zero (JsNumber.parseFloat shipping)
         - App.totalShopify stats - JsNumber.or_zero (JsNumber.parseFloat blanks))%float) /\
  (forall o : Order,
      total o = 100%float ->
      App.shopifyFee (App.processOrder "2.9" "0.30" o) = 3.1999999999999997%float).
Proof.
  split.
  - intros getTime percent fixed blanks shipping field direction data processed stats.
    assert (Hperm : Permutation processed (map (App.processOrder percent fixed) (orders data))).
    { apply sort_perm. }
    split; [exact Hperm|]. split; [|split; [|split]].
    + intros p Hp. rewrite Hperm in Hp.
      apply list_elem_of_fmap in Hp as (o & -> & Ho).
      cbn. repeat split. exact Ho.
    + apply reduce_float_sum.
    + apply reduce_float_sum.
    + reflexivity.
  - intros o Ho. cbn. rewrite Ho. vm_compute. reflexivity.
Qed.

Lemma earnings_formulas_witness :
  App.shopifyFee (App.processOrder "2.9" "0.30" order_of_100) = 3.1999999999999997%float /\
  App.netAfterFees (App.processOrder "2.9" "0.30" order_of_100) = 86.799999999999997%float.
Proof.
  split.
  - apply (proj2 earnings_formulas order_of_100). reflexivity.
  - destruct (proj1 earnings_formulas (fun _ => 0%float) "2.9" "0.30" "0" "0"
                App.by_date App.desc (aggregateData [] [order_of_100]))
      as (_ & Hfee & _).
    destruct (Hfee (App.processOrder "2.9" "0.30" order_of_100)) as (_ & _ & Hnet).
    + vm_compute. apply list_elem_of_here.
    + rewrite Hnet. vm_compute. reflexivity.
Defined.

(** ** Aggregator *)

Lemma quantity_sum_app (l1 l2 : list ParsedItem) :
  quantity_sum (l1 ++ l2) = quantity_sum l1 + quantity_sum l2.
Proof.
  unfold quantity_sum. induction l1 as [|x l1 IH]; cbn; [reflexivity | rewrite IH; lia].
Qed.

Lemma zero_row_lookup (s : string) :
  zero_row !! s = if bool_decide (s ∈ ORDERED_SIZES) then Some 0 else None.
Proof.
  unfold zero_row, ORDERED_SIZES. cbn [fold_left].
  repeat (rewrite lookup_insert; case_decide; [subst s; reflexivity|]).
  rewrite lookup_empty, bool_decide_eq_false_2; [reflexivity|].
  intros Hin. repeat (apply elem_of_cons in Hin as [Hin|Hin]; [congruence|]).
  inversion Hin.
Qed.

(** The lemmas on [sum_assign], [table_of] and [totals_of] are about the
    aggregate taken with sums of integers; lemma [aggregateData_unfold]
    shows the aggregate of the program to be that one within 2^53. *)

Lemma sum_assign_lookup (row : gmap string Z) (k s : string) (q : Z) :
  sum_assign row k q !! s = if decide (k = s) then Some (cell row k + q) else row !! s.
Proof. unfold sum_assign. apply lookup_insert. Qed.

Lemma cell_sum_assign (row : gmap string Z) (k s : string) (q : Z) :
  cell (sum_assign row k q) s = cell row s + (if decide (k = s) then q else 0).
Proof.
  unfold cell at 1. rewrite sum_assign_lookup.
  case_decide; [subst; reflexivity | cbn; fold (cell row s); lia].
Qed.

Lemma column_sum_insert_new (s k : string) (row : gmap string Z)
    (table : gmap string (gmap string Z)) :
  table !! k = None ->
  column_sum s (<[k := row]> table) = cell row s + column_sum s table.
Proof.
  intros Hk. unfold column_sum.
  rewrite map_fold_insert_L; [reflexivity | intros; lia | exact Hk].
Qed.

Lemma column_sum_insert_old (s k : string) (row row0 : gmap string Z)
    (table : gmap string (gmap string Z)) :
  table !! k = Some row0 ->
  column_sum s (<[k := row]> table) = cell row s - cell row0 s + column_sum s table.
Proof.
  intros Hk. rewrite <- insert_delete_eq.
  rewrite column_sum_insert_new by apply lookup_delete_eq.
  unfold column_sum at 2.
  rewrite (map_fold_delete_L _ _ k row0 table); [fold (column_sum s (delete k table)); lia| |exact Hk].
  intros; lia.
Qed.

(** A size that is canonical is counted once in the sum over the sizes. *)
Lemma sizes_sum_assign (row : gmap string Z) (size : string) (q : Z) :
  size ∈ ORDERED_SIZES ->
  sizes_sum (sum_assign row size q) = sizes_sum row + q.
Proof.
  intros Hin. unfold sizes_sum, ORDERED_SIZES in *. cbn [foldr].
  rewrite !cell_sum_assign.
  repeat (apply elem_of_cons in Hin as [->|Hin];
          [repeat (case_decide; [try discriminate | try congruence]); lia|]).
  inversion Hin.
Qed.

(** The row key always holds " - ", so that it is never a name inherited
    from [Object.prototype]. *)
Lemma rowKey_not_inherited (item : ParsedItem) :
  rowKey_of item ∉ Object_prototype_keys.
Proof.
  assert (Hsp : forall a b, JsString.includes (a +:+ " - " +:+ b) " " = true).
  { intros a b. induction a as [|c a IH]; [reflexivity|].
    change (String.prefix " " (String c (a +:+ " - " +:+ b))
            || JsString.includes (a +:+ " - " +:+ b) " " = true).
    rewrite IH. apply orb_true_r. }
  intros Hin. specialize (Hsp (productName item) (color item)).
  unfold rowKey_of, Object_prototype_keys in *.
  repeat (apply elem_of_cons in Hin as [Hin|Hin];
          [rewrite Hin in Hsp; vm_compute in Hsp; discriminate|]).
  inversion Hin.
Qed.

(** *** One pivot table *)

Section Table.

Variable key : ParsedItem -> string.

Lemma table_of_snoc (items : list ParsedItem) (x : ParsedItem) :
  table_of key (items ++ [x]) = table_step key (table_of key items) x.
Proof. unfold table_of. rewrite fold_left_app. reflexivity. Qed.

Lemma tally_snoc (k s : string) (items : list ParsedItem) (x : ParsedItem) :
  tally key k s (items ++ [x]) =
  tally key k s items + (if decide (key x = k /\ item_size x = s) then quantity x else 0).
Proof.
  unfold tally. rewrite filter_app, quantity_sum_app, filter_cons, filter_nil.
  case_decide; cbn; lia.
Qed.

Lemma tally_snoc_other (k s : string) (items : list ParsedItem) (x : ParsedItem) :
  ~ (key x = k /\ item_size x = s) -> tally key k s (items ++ [x]) = tally key k s items.
Proof. intros H. rewrite tally_snoc, decide_False by exact H. lia. Qed.

Lemma tally_snoc_same (items : list ParsedItem) (x : ParsedItem) :
  tally key (key x) (item_size x) (items ++ [x]) =
  tally key (key x) (item_size x) items + quantity x.
Proof. rewrite tally_snoc, decide_True by (split; reflexivity). reflexivity. Qed.

(** Every row of the table is under a key that is not inherited and holds,
    for each canonical size, the quantity counted for it; a key that could
    have a row and has none has nothing counted. *)
Lemma table_rows_full (items : list ParsedItem) :
  (forall k row, table_of key items !! k = Some row ->
     (k ∉ Object_prototype_keys) /\
     (forall s, s ∈ ORDERED_SIZES -> row !! s = Some (tally key k s items))) /\
  (forall k, table_of key items !! k = None -> k ∉ Object_prototype_keys ->
     forall s, s ∈ ORDERED_SIZES -> tally key k s items = 0).
Proof.
  induction items as [|x items [IH1 IH2]] using rev_ind.
  { split; [|reflexivity]. intros k row H.
    change (table_of key []) with (∅ : gmap string (gmap string Z)) in H.
    rewrite lookup_empty in H. discriminate. }
  rewrite table_of_snoc. unfold table_step. case_bool_decide as Hcan.
  2:{ assert (Hx : forall k s, s ∈ ORDERED_SIZES -> ~ (key x = k /\ item_size x = s)).
      { intros k s Hs [_ E]. apply Hcan. rewrite E. exact Hs. }
      split.
      - intros k row Hrow. destruct (IH1 _ _ Hrow) as [Hnp Hr]. split; [exact Hnp|].
        intros s Hs. rewrite tally_snoc_other by auto. auto.
      - intros k Hnone Hnp s Hs. rewrite tally_snoc_other by auto. auto. }
  unfold sum_to_table. destruct (table_of key items !! key x) as [row0|] eqn:Hkx.
  - destruct (IH1 _ _ Hkx) as [Hnp0 Hrow0]. split.
    + intros k row Hrow. rewrite lookup_insert in Hrow. case_decide as Hk.
      * subst k. injection Hrow as <-. split; [exact Hnp0|]. intros s Hs.
        rewrite sum_assign_lookup. case_decide as Hsz.
        -- subst s. rewrite tally_snoc_same. unfold cell. rewrite (Hrow0 _ Hs). reflexivity.
        -- rewrite tally_snoc_other by (intros [_ ?]; contradiction). auto.
      * destruct (IH1 _ _ Hrow) as [Hnp Hr]. split; [exact Hnp|]. intros s Hs.
        rewrite tally_snoc_other by (intros [? _]; contradiction). auto.
    + intros k Hnone Hnp s Hs. rewrite lookup_insert in Hnone.
      case_decide as Hk; [discriminate|].
      rewrite tally_snoc_other by (intros [? _]; contradiction). auto.
  - case_bool_decide as Hproto.
    + assert (Hx : forall k, k ∉ Object_prototype_keys -> key x <> k) by congruence.
      split.
      * intros k row Hrow. destruct (IH1 _ _ Hrow) as [Hnp Hr]. split; [exact Hnp|].
        intros s Hs. rewrite tally_snoc_other by (intros [? _]; eapply Hx; eauto). auto.
      * intros k Hnone Hnp s Hs.
        rewrite tally_snoc_other by (intros [? _]; eapply Hx; eauto). auto.
    + split.
      * intros k row Hrow. rewrite lookup_insert in Hrow. case_decide as Hk.
        -- subst k. injection Hrow as <-. split; [exact Hproto|]. intros s Hs.
           rewrite sum_assign_lookup. case_decide as Hsz.
           ++ subst s. rewrite tally_snoc_same, (IH2 _ Hkx Hproto _ Hs). unfold cell.
              rewrite zero_row_lookup, bool_decide_eq_true_2 by exact Hs. reflexivity.
           ++ rewrite tally_snoc_other by (intros [_ ?]; contradiction).
              rewrite (IH2 _ Hkx Hproto _ Hs), zero_row_lookup.
              rewrite bool_decide_eq_true_2 by exact Hs. reflexivity.
        -- destruct (IH1 _ _ Hrow) as [Hnp Hr]. split; [exact Hnp|]. intros s Hs.
           rewrite tally_snoc_other by (intros [? _]; contradiction). auto.
      * intros k Hnone Hnp s Hs. rewrite lookup_insert in Hnone.
        case_decide as Hk; [discriminate|].
        rewrite tally_snoc_other by (intros [? _]; contradiction). auto.
Qed.

(** The column of a size sums to the quantity of the items of that size
    whose key is not an inherited name. *)
Lemma table_column_sum (items : list ParsedItem) (s : string) :
  s ∈ ORDERED_SIZES ->
  column_sum s (table_of key items) =
  quantity_sum (filter (fun item => item_size item = s /\ key item ∉ Object_prototype_keys) items).
Proof.
  intros Hs. induction items as [|x items IH] using rev_ind; [reflexivity|].
  rewrite table_of_snoc, filter_app, quantity_sum_app, filter_cons, filter_nil, <- IH.
  unfold table_step. destruct (table_rows_full items) as [IH1 _].
  case_bool_decide as Hcan.
  2:{ rewrite decide_False; [cbn; lia|]. intros [E _]. apply Hcan. rewrite E. exact Hs. }
  unfold sum_to_table. destruct (table_of key items !! key x) as [row0|] eqn:Hkx.
  - destruct (IH1 _ _ Hkx) as [Hnp0 _].
    rewrite (column_sum_insert_old _ _ _ row0) by exact Hkx. rewrite cell_sum_assign.
    repeat case_decide; cbn; first [lia | tauto].
  - case_bool_decide as Hproto.
    + rewrite decide_False by tauto. cbn. lia.
    + rewrite column_sum_insert_new by exact Hkx. rewrite cell_sum_assign.
      unfold cell at 1. rewrite zero_row_lookup, bool_decide_eq_true_2 by exact Hs.
      repeat case_decide; cbn; first [lia | tauto].
Qed.

End Table.

(** *** The size totals and the whole aggregate *)

Lemma totals_of_snoc (items : list ParsedItem) (x : ParsedItem) :
  totals_of (items ++ [x]) = totals_step (totals_of items) x.
Proof. unfold totals_of. rewrite fold_left_app. reflexivity. Qed.

(** [totals] holds, for each canonical size, the quantity of the items of
    that size. *)
Lemma totals_tally (items : list ParsedItem) (s : string) :
  s ∈ ORDERED_SIZES ->
  totals_of items !! s = Some (quantity_sum (filter (fun item => item_size item = s) items)).
Proof.
  intros Hs. induction items as [|x items IH] using rev_ind.
  { unfold totals_of. cbn [fold_left]. rewrite zero_row_lookup.
    rewrite bool_decide_eq_true_2 by exact Hs. reflexivity. }
  rewrite totals_of_snoc, filter_app, quantity_sum_app, filter_cons, filter_nil.
  unfold totals_step. case_bool_decide as Hcan.
  - rewrite sum_assign_lookup. unfold cell.
    case_decide as Hsz.
    + rewrite Hsz, IH. cbn. f_equal. lia.
    + rewrite IH. cbn. f_equal. lia.
  - rewrite decide_False, IH; [cbn; f_equal; lia|].
    intros E. apply Hcan. rewrite E. exact Hs.
Qed.

Lemma totals_sizes_sum (items : list ParsedItem) :
  sizes_sum (totals_of items) = quantity_sum (filter canonical items).
Proof.
  induction items as [|x items IH] using rev_ind; [vm_compute; reflexivity|].
  rewrite totals_of_snoc, filter_app, quantity_sum_app, filter_cons, filter_nil, <- IH.
  unfold totals_step, canonical. case_bool_decide as Hcan.
  - rewrite sizes_sum_assign by exact Hcan.
    rewrite decide_True by exact Hcan. cbn. lia.
  - rewrite decide_False by exact Hcan. cbn. lia.
Qed.

(** *** Sums of numbers *)

Lemma binary64_nearest_exact (z : Z) :
  Z.abs z <= 2 ^ 53 -> binary64_nearest z = z.
Proof.
  intros Hz. destruct (Z.eq_dec (Z.abs z) (2 ^ 53)) as [E|E].
  - destruct (Z.abs_spec z) as [[_ Ha]|[_ Ha]]; rewrite Ha in E.
    + subst z. vm_compute. reflexivity.
    + assert (z = - 2 ^ 53) as -> by lia. vm_compute. reflexivity.
  - unfold binary64_nearest. cbv zeta.
    assert (Hlog : Z.log2 (Z.abs z) - 52 <= 0).
    { destruct (Z.eq_dec (Z.abs z) 0) as [E0|E0]; [rewrite E0; cbn; lia|].
      assert (Z.log2 (Z.abs z) < 53); [|lia].
      apply Z.log2_lt_pow2; lia. }
    apply Z.leb_le in Hlog. rewrite Hlog. reflexivity.
Qed.

(** Within 2^53 the sum of two numbers is the sum of their integers. *)
Lemma number_add_exact (a b : Z) :
  Z.abs a + Z.abs b <= 2 ^ 53 -> number_add a b = a + b.
Proof.
  intros H. unfold number_add.
  rewrite (binary64_nearest_exact a), (binary64_nearest_exact b) by lia.
  apply binary64_nearest_exact. lia.
Qed.

Lemma binary64_nearest_nonneg (z : Z) : 0 <= z -> 0 <= binary64_nearest z.
Proof.
  intros Hz. unfold binary64_nearest. cbv zeta.
  destruct (_ <=? 0) eqn:E; [exact Hz|]. apply Z.leb_gt in E.
  rewrite Z.abs_eq in E |- * by exact Hz.
  assert (Hulp : 0 < 2 ^ (Z.log2 z - 52)) by (apply Z.pow_pos_nonneg; lia).
  assert (Hq : 0 <= z / 2 ^ (Z.log2 z - 52)) by (apply Z.div_pos; lia).
  assert (Hs : 0 <= Z.sgn z) by (apply Z.sgn_nonneg; exact Hz).
  destruct (_ || _); nia.
Qed.

Lemma number_add_nonneg (a b : Z) : 0 <= a -> 0 <= b -> 0 <= number_add a b.
Proof.
  intros Ha Hb. unfold number_add. apply binary64_nearest_nonneg.
  pose proof (binary64_nearest_nonneg a Ha). pose proof (binary64_nearest_nonneg b Hb). lia.
Qed.

(** The rounding is that of the machine: at these integers, on both sides
    of 2^53 and of 2^54 and far beyond, the kernel's binary64 number of the
    integer holds [binary64_nearest] of it, and the sum of two such numbers
    holds [number_add] of them. *)
Lemma binary64_nearest_agrees :
  Forall (fun z => float_integer (number_of_Z z) = Some (binary64_nearest z))
    [0; 1; -1; 2 ^ 53 - 1; 2 ^ 53; 2 ^ 53 + 1; 2 ^ 53 + 2; 2 ^ 53 + 3;
     - (2 ^ 53 + 1); - (2 ^ 53 + 3); 2 ^ 54 + 1; 2 ^ 54 + 2; 2 ^ 54 + 3; 2 ^ 54 + 6;
     2 ^ 60 + 2 ^ 7; 2 ^ 60 + 2 ^ 7 + 1; 2 ^ 60 + 3 * 2 ^ 7; 10 ^ 20 + 1; 10 ^ 30 - 7;
     12345678901234567890123; - 98765432109876543210987654321] /\
  Forall (fun ab => float_integer (number_of_Z ab.1 + number_of_Z ab.2)%float
                    = Some (number_add ab.1 ab.2))
    [(0, 0); (2, 3); (2 ^ 53, 1); (2 ^ 53, 2); (2 ^ 53, 3); (2 ^ 53 + 2, -1); (2 ^ 53, -1);
     (1, 2 ^ 53); (2, 2 ^ 53); (2 ^ 53 + 2, 1); (2 ^ 53 + 2, 3); (- 2 ^ 53, -1);
     (2 ^ 54, 2); (2 ^ 54, 3); (2 ^ 54 + 4, 2); (2 ^ 54 + 4, 6); (2 ^ 53 - 1, 2 ^ 53 - 1);
     (2 ^ 53 + 1, 1); (10 ^ 20 + 1, 10 ^ 20 + 3); (2 ^ 60, - (2 ^ 7 + 1))].
Proof. split; repeat constructor. Qed.

(** *** What the sums stay within *)

Lemma magnitude_nonneg (items : list ParsedItem) : 0 <= magnitude items.
Proof.
  unfold magnitude. induction (filter canonical items) as [|x l IH]; cbn [foldr]; lia.
Qed.

Lemma magnitude_app (l1 l2 : list ParsedItem) :
  magnitude (l1 ++ l2) = magnitude l1 + magnitude l2.
Proof.
  unfold magnitude. rewrite filter_app.
  induction (filter canonical l1) as [|x l IH]; cbn [foldr app]; [reflexivity | rewrite IH; lia].
Qed.

Lemma magnitude_snoc (items : list ParsedItem) (x : ParsedItem) :
  magnitude (items ++ [x]) =
  magnitude items + (if decide (canonical x) then Z.abs (quantity x) else 0).
Proof.
  rewrite magnitude_app. f_equal. unfold magnitude. rewrite filter_cons, filter_nil.
  case_decide; cbn [foldr]; lia.
Qed.

(** A sum of quantities over some of the counted items is within the
    magnitude of the list. *)
Lemma quantity_sum_bound (P : ParsedItem -> Prop) `{!forall x, Decision (P x)}
    (items : list ParsedItem) :
  (forall x, P x -> canonical x) ->
  Z.abs (quantity_sum (filter P items)) <= magnitude items.
Proof.
  intros HP. induction items as [|x items IH]; [cbn; lia|].
  change (x :: items) with ([x] ++ items). rewrite magnitude_app, filter_app, quantity_sum_app.
  assert (Hx : Z.abs (quantity_sum (filter P [x])) <= magnitude [x]).
  { unfold magnitude. rewrite !filter_cons, !filter_nil.
    destruct (decide (P x)) as [Hp|Hp].
    - rewrite decide_True by (apply HP, Hp). cbn. lia.
    - case_decide; cbn; lia. }
  lia.
Qed.

Lemma cell_zero_row (s : string) : cell zero_row s = 0.
Proof. unfold cell. rewrite zero_row_lookup. case_bool_decide; reflexivity. Qed.

Lemma add_assign_exact (row : gmap string Z) (k : string) (q : Z) :
  Z.abs (cell row k) + Z.abs q <= 2 ^ 53 -> add_assign row k q = sum_assign row k q.
Proof. intros H. unfold add_assign, sum_assign. rewrite number_add_exact by exact H. reflexivity. Qed.

Lemma add_to_table_exact (table : gmap string (gmap string Z)) (key size : string) (q : Z) :
  (forall row, table !! key = Some row -> Z.abs (cell row size) + Z.abs q <= 2 ^ 53) ->
  Z.abs q <= 2 ^ 53 ->
  add_to_table table key size q = sum_to_table table key size q.
Proof.
  intros Hrow Hq. unfold add_to_table, sum_to_table.
  destruct (table !! key) as [row|].
  - rewrite add_assign_exact by (apply Hrow; reflexivity). reflexivity.
  - rewrite add_assign_exact; [reflexivity|]. rewrite cell_zero_row. lia.
Qed.

Lemma aggregateData_snoc (items : list ParsedItem) (x : ParsedItem) (orders0 : list Order) :
  aggregateData (items ++ [x]) orders0 = aggregate_item (aggregateData items orders0) x.
Proof. unfold aggregateData. rewrite fold_left_app. reflexivity. Qed.

(** [aggregateData] field by field, when the quantities that are counted
    have a magnitude of at most 2^53: every sum of numbers it takes is then
    the sum of the integers. *)
Lemma aggregateData_unfold (items : list ParsedItem) (orders0 : list Order) :
  magnitude items <= 2 ^ 53 ->
  aggregateData items orders0 =
  {| products := table_of rowKey_of items;
     colorTotals := table_of (fun item => detectColorFamily (color item)) items;
     totals := totals_of items;
     grandTotal := quantity_sum (filter canonical items);
     orders := orders0 |}.
Proof.
  induction items as [|x items IH] using rev_ind; intros Hm; [reflexivity|].
  rewrite magnitude_snoc in Hm. pose proof (magnitude_nonneg items) as Hpos.
  assert (Hm0 : magnitude items <= 2 ^ 53) by (case_decide; lia).
  rewrite aggregateData_snoc, (IH Hm0).
  rewrite !table_of_snoc, totals_of_snoc, filter_app, quantity_sum_app, filter_cons, filter_nil.
  unfold aggregate_item, table_step, totals_step.
  cbn [products colorTotals totals grandTotal orders].
  destruct (decide (canonical x)) as [Hcan|Hcan].
  2:{ unfold canonical in Hcan. rewrite !bool_decide_eq_false_2 by exact Hcan.
      f_equal. cbn. lia. }
  assert (Hq : Z.abs (quantity x) + magnitude items <= 2 ^ 53) by lia.
  unfold canonical in Hcan. rewrite !bool_decide_eq_true_2 by exact Hcan.
  assert (Htable : forall key : ParsedItem -> string,
             add_to_table (table_of key items) (key x) (item_size x) (quantity x) =
             sum_to_table (table_of key items) (key x) (item_size x) (quantity x)).
  { intros key. apply add_to_table_exact; [|lia]. intros row Hrow.
    destruct (table_rows_full key items) as [Hfull _].
    destruct (Hfull _ _ Hrow) as [_ Hcells]. unfold cell. rewrite (Hcells _ Hcan).
    cbn [default from_option id].
    assert (Hb : Z.abs (tally key (key x) (item_size x) items) <= magnitude items); [|lia].
    apply quantity_sum_bound. intros y [_ Hy]. unfold canonical. rewrite Hy. exact Hcan. }
  rewrite !Htable. f_equal.
  - apply add_assign_exact. unfold cell. rewrite (totals_tally items _ Hcan).
    cbn [default from_option id].
    assert (Hb : Z.abs (quantity_sum (filter (fun item => item_size item = item_size x) items))
                 <= magnitude items); [|lia].
    apply quantity_sum_bound. intros y Hy. unfold canonical. rewrite Hy. exact Hcan.
  - rewrite number_add_exact.
    + cbn. lia.
    + pose proof (quantity_sum_bound canonical items (fun _ H => H)). lia.
Qed.

(** Items of a size that is not canonical leave the aggregate as it is. *)
Lemma aggregateData_canonical_only (items : list ParsedItem) (orders0 : list Order) :
  aggregateData (filter canonical items) orders0 = aggregateData items orders0.
Proof.
  unfold aggregateData. generalize (aggregate_init orders0) as acc.
  induction items as [|x items IH]; intros acc; [reflexivity|].
  rewrite filter_cons. destruct (decide (canonical x)) as [Hcan|Hcan]; cbn [fold_left].
  - apply IH.
  - assert (Hskip : aggregate_item acc x = acc).
    { unfold aggregate_item. rewrite bool_decide_eq_false_2 by exact Hcan. reflexivity. }
    rewrite Hskip. apply IH.
Qed.

Lemma aggregateData_orders (items : list ParsedItem) (orders0 : list Order) :
  orders (aggregateData items orders0) = orders0.
Proof.
  induction items as [|x items IH] using rev_ind; [reflexivity|].
  rewrite aggregateData_snoc. unfold aggregate_item.
  case_bool_decide; [cbn [orders]|]; exact IH.
Qed.

(** *** The keys of the tables, whatever the quantities *)

Lemma add_assign_lookup (row : gmap string Z) (k s : string) (q : Z) :
  add_assign row k q !! s =
  if decide (k = s) then Some (number_add (cell row k) q) else row !! s.
Proof. unfold add_assign. apply lookup_insert. Qed.

Lemma add_assign_keys (row : gmap string Z) (k s : string) (q : Z) :
  is_Some (row !! s) -> is_Some (add_assign row k q !! s).
Proof. intros H. rewrite add_assign_lookup. case_decide; [eauto | exact H]. Qed.

Lemma zero_row_keys (s : string) : s ∈ ORDERED_SIZES -> is_Some (zero_row !! s).
Proof. intros Hs. rewrite zero_row_lookup, bool_decide_eq_true_2 by exact Hs. eauto. Qed.

Lemma add_to_table_is_Some (table : gmap string (gmap string Z)) (key size : string) (q : Z)
    (k : string) :
  is_Some (add_to_table table key size q !! k) <->
  is_Some (table !! k) \/ (k = key /\ key ∉ Object_prototype_keys).
Proof.
  unfold add_to_table. destruct (table !! key) as [row|] eqn:E.
  - rewrite lookup_insert. case_decide as Hk.
    + subst k. rewrite E. split; [intros _; left; eauto | intros _; eauto].
    + split; [intros H; left; exact H | intros [H|[-> _]]; [exact H | contradiction]].
  - case_bool_decide as Hin.
    + split; [intros H; left; exact H | intros [H|[_ Hn]]; [exact H | contradiction]].
    + rewrite lookup_insert. case_decide as Hk.
      * subst k. split; [intros _; right; split; [reflexivity | exact Hin] | intros _; eauto].
      * split; [intros H; left; exact H | intros [H|[-> _]]; [exact H | contradiction]].
Qed.

Lemma add_to_table_rows (table : gmap string (gmap string Z)) (key size : string) (q : Z) :
  (forall k row s, table !! k = Some row -> s ∈ ORDERED_SIZES -> is_Some (row !! s)) ->
  forall k row s, add_to_table table key size q !! k = Some row -> s ∈ ORDERED_SIZES ->
                  is_Some (row !! s).
Proof.
  intros Htable k row s. unfold add_to_table.
  destruct (table !! key) as [row0|] eqn:E.
  - rewrite lookup_insert. case_decide as Hk.
    + intros [= <-] Hs. apply add_assign_keys. exact (Htable _ _ _ E Hs).
    + apply Htable.
  - case_bool_decide; [apply Htable|].
    rewrite lookup_insert. case_decide as Hk.
    + intros [= <-] Hs. apply add_assign_keys, zero_row_keys, Hs.
    + apply Htable.
Qed.

(** The two tables are filled by the same code: [table] is [products] with
    [rowKey_of] or [colorTotals] with the colour family. *)
Section TableOfAggregate.

Variable key : ParsedItem -> string.
Variable table : AggregatedData -> gmap string (gmap string Z).
Hypothesis table_init : forall orders0, table (aggregate_init orders0) = ∅.
Hypothesis table_item : forall acc x,
  table (aggregate_item acc x) =
  if bool_decide (item_size x ∈ ORDERED_SIZES)
  then add_to_table (table acc) (key x) (item_size x) (quantity x)
  else table acc.

(** Every row has the seven sizes as keys. *)
Lemma aggregate_rows_full (items : list ParsedItem) (orders0 : list Order)
    (k : string) (row : gmap string Z) (s : string) :
  table (aggregateData items orders0) !! k = Some row -> s ∈ ORDERED_SIZES ->
  is_Some (row !! s).
Proof.
  revert k row s. induction items as [|x items IH] using rev_ind; intros k row s.
  - unfold aggregateData. cbn [fold_left]. rewrite table_init, lookup_empty. discriminate.
  - rewrite aggregateData_snoc, table_item. case_bool_decide; [|apply IH].
    apply add_to_table_rows, IH.
Qed.

(** There is a row under [k] exactly when [k] is not an inherited name and
    is the key of an item of canonical size. *)
Lemma aggregate_rows_exist (items : list ParsedItem) (orders0 : list Order) (k : string) :
  is_Some (table (aggregateData items orders0) !! k) <->
  (k ∉ Object_prototype_keys) /\
  exists item, item ∈ items /\ canonical item /\ key item = k.
Proof.
  induction items as [|x items IH] using rev_ind.
  - unfold aggregateData. cbn [fold_left]. rewrite table_init, lookup_empty. split.
    + intros [? [=]].
    + intros [_ [item [Hin _]]]. inversion Hin.
  - rewrite aggregateData_snoc, table_item. case_bool_decide as Hcan.
    + rewrite add_to_table_is_Some, IH. split.
      * intros [[Hk [item [Hin [Hc Hkey]]]]|[-> Hk]].
        -- split; [exact Hk|]. exists item. rewrite elem_of_app. auto.
        -- split; [exact Hk|]. exists x. rewrite elem_of_app, list_elem_of_singleton. auto.
      * intros [Hk [item [Hin [Hc Hkey]]]].
        apply elem_of_app in Hin as [Hin|Hin%list_elem_of_singleton].
        -- left. split; [exact Hk|]. exists item. auto.
        -- subst item. right. split; [symmetry; exact Hkey | rewrite Hkey; exact Hk].
    + rewrite IH. split.
      * intros [Hk [item [Hin [Hc Hkey]]]]. split; [exact Hk|].
        exists item. rewrite elem_of_app. auto.
      * intros [Hk [item [Hin [Hc Hkey]]]]. split; [exact Hk|].
        apply elem_of_app in Hin as [Hin|Hin%list_elem_of_singleton].
        -- exists item. auto.
        -- subst item. contradiction.
Qed.

End TableOfAggregate.

Lemma products_item (acc : AggregatedData) (x : ParsedItem) :
  products (aggregate_item acc x) =
  if bool_decide (item_size x ∈ ORDERED_SIZES)
  then add_to_table (products acc) (rowKey_of x) (item_size x) (quantity x)
  else products acc.
Proof. unfold aggregate_item. destruct (bool_decide _); reflexivity. Qed.

Lemma colorTotals_item (acc : AggregatedData) (x : ParsedItem) :
  colorTotals (aggregate_item acc x) =
  if bool_decide (item_size x ∈ ORDERED_SIZES)
  then add_to_table (colorTotals acc) (detectColorFamily (color x)) (item_size x) (quantity x)
  else colorTotals acc.
Proof. unfold aggregate_item. destruct (bool_decide _); reflexivity. Qed.

Lemma totals_keys (items : list ParsedItem) (orders0 : list Order) (s : string) :
  s ∈ ORDERED_SIZES -> is_Some (totals (aggregateData items orders0) !! s).
Proof.
  intros Hs. induction items as [|x items IH] using rev_ind.
  - apply zero_row_keys, Hs.
  - rewrite aggregateData_snoc. unfold aggregate_item.
    case_bool_decide; [cbn [totals]; apply add_assign_keys|]; exact IH.
Qed.

(** A colour that is a name inherited from [Object.prototype] gets no row
    of its own in [colorTotals]; the item is counted everywhere else. *)
Lemma inherited_family_has_no_row :
  let a := aggregateData
             [ {| item_id := "0-Tee - constructor / L"; productName := "Tee";
                  color := "constructor"; item_size := "LARGE"; quantity := 2 |} ] [] in
  colorTotals a = ∅ /\ grandTotal a = 2 /\ totals a !! "LARGE" = Some 2 /\
  (exists row, products a !! "Tee - constructor" = Some row /\ row !! "LARGE" = Some 2).
Proof.
  cbv zeta. repeat split; try (vm_compute; reflexivity).
  eexists. split; vm_compute; reflexivity.
Qed.

(** C1, as stated, fails: the sums are sums of binary64 numbers.  With the
    quantities 2^53, 1 and 1 in size XS, the first of one product and the
    other two of another, [totals] and [grandTotal] take 2^53 + 1 twice,
    which rounds to 2^53 both times, while the column of [products] holds
    2^53 and 2. *)
Lemma aggregate_sums_round :
  ~ (forall (items : list ParsedItem) (orders0 : list Order) (s : string),
        s ∈ ORDERED_SIZES ->
        cell (totals (aggregateData items orders0)) s =
        column_sum s (products (aggregateData items orders0))).
Proof.
  intros H.
  specialize (H [ {| item_id := "0-Tee - XS / Red"; productName := "Tee"; color := "Red";
                     item_size := "XS"; quantity := 2 ^ 53 |};
                  {| item_id := "1-Cap - XS / Red"; productName := "Cap"; color := "Red";
                     item_size := "XS"; quantity := 1 |};
                  {| item_id := "2-Cap - XS / Red"; productName := "Cap"; color := "Red";
                     item_size := "XS"; quantity := 1 |} ] [] "XS").
  assert (Hs : "XS" ∈ ORDERED_SIZES) by compute_done.
  specialize (H Hs). vm_compute in H. discriminate H.
Qed.

(** C1 (amended).  In the aggregate of any item list and order list: every
    row of [products] and of [colorTotals], and [totals], has each of the
    seven canonical sizes as a key; the items of a size that is not
    canonical change nothing in the aggregate; the orders are handed on.
    When the quantities of the items of canonical size have absolute values
    that add up to 2^53 at most, each of these keys holds the quantity of
    the items counted under it (0 when there is none), [totals[s]] is the
    sum of column [s] over the rows of [products], [grandTotal] is the sum
    of [totals] over the canonical sizes, and both are the quantity of the
    items of canonical size. *)
Theorem aggregate_invariants (items : list ParsedItem) (orders0 : list Order) :
  let a := aggregateData items orders0 in
  (forall (rowKey : string) (row : gmap string Z) (s : string),
      products a !! rowKey = Some row -> s ∈ ORDERED_SIZES -> is_Some (row !! s)) /\
  (forall (family : string) (row : gmap string Z) (s : string),
      colorTotals a !! family = Some row -> s ∈ ORDERED_SIZES -> is_Some (row !! s)) /\
  (forall s : string, s ∈ ORDERED_SIZES -> is_Some (totals a !! s)) /\
  aggregateData (filter canonical items) orders0 = a /\
  orders a = orders0 /\
  (magnitude items <= 2 ^ 53 ->
   (forall (rowKey : string) (row : gmap string Z) (s : string),
       products a !! rowKey = Some row -> s ∈ ORDERED_SIZES ->
       row !! s = Some (quantity_sum
                          (filter (fun item => rowKey_of item = rowKey /\ item_size item = s)
                             items))) /\
   (forall (family : string) (row : gmap string Z) (s : string),
       colorTotals a !! family = Some row -> s ∈ ORDERED_SIZES ->
       row !! s = Some (quantity_sum
                          (filter (fun item => detectColorFamily (color item) = family /\
                                               item_size item = s) items))) /\
   (forall s : string,
       s ∈ ORDERED_SIZES ->
       totals a !! s = Some (quantity_sum (filter (fun item => item_size item = s) items))) /\
   (forall s : string,
       s ∈ ORDERED_SIZES -> cell (totals a) s = column_sum s (products a)) /\
   grandTotal a = sizes_sum (totals a) /\
   grandTotal a = quantity_sum (filter canonical items)).
Proof.
  intros a. subst a. split; [|split; [|split; [|split; [|split]]]].
  - apply (aggregate_rows_full rowKey_of products); [reflexivity | apply products_item].
  - apply (aggregate_rows_full (fun item => detectColorFamily (color item)) colorTotals);
      [reflexivity | apply colorTotals_item].
  - apply totals_keys.
  - apply aggregateData_canonical_only.
  - apply aggregateData_orders.
  - intros Hm. rewrite (aggregateData_unfold _ _ Hm).
    cbn [products colorTotals totals grandTotal orders].
    repeat split.
    + intros rowKey row s Hrow Hs.
      exact (proj2 (proj1 (table_rows_full rowKey_of items) _ _ Hrow) s Hs).
    + intros family row s Hrow Hs.
      exact (proj2 (proj1 (table_rows_full _ items) _ _ Hrow) s Hs).
    + intros s Hs. exact (totals_tally items s Hs).
    + intros s Hs. unfold cell. rewrite (totals_tally items s Hs).
      rewrite (table_column_sum rowKey_of items s Hs). cbn. f_equal.
      apply list_filter_iff. intros item. split; [|tauto].
      intros E. split; [exact E | apply rowKey_not_inherited].
    + symmetry. apply totals_sizes_sum.
Qed.

Lemma aggregate_invariants_witness :
  totals (aggregateData
            [ {| item_id := "0-Tee - Navy / L"; productName := "Tee"; color := "Navy";
                 item_size := "LARGE"; quantity := 2 |};
              {| item_id := "1-Cap"; productName := "Cap"; color := "Unknown";
                 item_size := "Unknown"; quantity := 7 |};
              {| item_id := "2-Tee - Black / L"; productName := "Tee"; color := "Black";
                 item_size := "LARGE"; quantity := 3 |} ] []) !! "LARGE" = Some 5.
Proof.
  destruct (aggregate_invariants
           [ {| item_id := "0-Tee - Navy / L"; productName := "Tee"; color := "Navy";
                item_size := "LARGE"; quantity := 2 |};
             {| item_id := "1-Cap"; productName := "Cap"; color := "Unknown";
                item_size := "Unknown"; quantity := 7 |};
             {| item_id := "2-Tee - Black / L"; productName := "Tee"; color := "Black";
                item_size := "LARGE"; quantity := 3 |} ] []) as (_ & _ & _ & _ & _ & H).
  destruct H as (_ & _ & H & _); [vm_compute; discriminate|].
  apply H. compute_done.
Defined.

(** * Further properties *)

(** ** [parseCSV]: names *)

Lemma concat_cons_char (sep : string) (c : ascii) (h : string) (t : list string) :
  String.concat sep (String c h :: t) = String c (String.concat sep (h :: t)).
Proof. destruct t; reflexivity. Qed.

Lemma prefix_drop (p s : string) :
  String.prefix p s = true -> p +:+ drop_chars (String.length p) s = s.
Proof.
  revert s. induction p as [|a p IH]; intros s H; [reflexivity|].
  destruct s as [|b s]; [discriminate|]. cbn in H |- *.
  destruct (Ascii.ascii_dec a b) as [->|]; [|discriminate].
  change (String b (p +:+ drop_chars (String.length p) s) = String b s).
  f_equal. apply IH, H.
Qed.

Lemma split_go_concat (sep s : string) (k : nat) :
  sep <> "" ->
  String.concat sep (let '(h, t) := JsString.split_go sep k s in h :: t) = drop_chars k s.
Proof.
  intros Hsep. revert k. induction s as [|c s IH]; intros k.
  - destruct k; reflexivity.
  - destruct k as [|k]; cbn [JsString.split_go drop_chars].
    + destruct (String.prefix sep (String c s)) eqn:Hp.
      * specialize (IH (String.length sep - 1)%nat).
        destruct (JsString.split_go sep (String.length sep - 1) s) as [h t].
        change (String.concat sep ("" :: h :: t)) with (sep +:+ String.concat sep (h :: t)).
        rewrite IH. etransitivity; [|exact (prefix_drop _ _ Hp)].
        destruct sep as [|a sep]; [contradiction|].
        cbn [String.length Nat.sub drop_chars]. rewrite Nat.sub_0_r. reflexivity.
      * specialize (IH 0%nat). destruct (JsString.split_go sep 0 s) as [h t].
        rewrite concat_cons_char, IH. reflexivity.
    + apply IH.
Qed.

Lemma string_app_assoc (a b c : string) : (a +:+ b) +:+ c = a +:+ b +:+ c.
Proof.
  induction a as [|x a IH]; [reflexivity|].
  change (String x ((a +:+ b) +:+ c) = String x (a +:+ b +:+ c)). f_equal. exact IH.
Qed.

Lemma concat_snoc (sep x : string) (l : list string) :
  l <> [] -> String.concat sep (l ++ [x]) = String.concat sep l +:+ sep +:+ x.
Proof.
  induction l as [|a l IH]; [contradiction|]. intros _.
  destruct l as [|b l].
  - reflexivity.
  - specialize (IH ltac:(discriminate)).
    change (String.concat sep ((a :: b :: l) ++ [x]))
      with (a +:+ sep +:+ String.concat sep ((b :: l) ++ [x])).
    rewrite IH.
    change (String.concat sep (a :: b :: l)) with (a +:+ sep +:+ String.concat sep (b :: l)).
    rewrite !string_app_assoc. reflexivity.
Qed.

(** X1.  Splitting on a non-empty separator and joining with it gives the
    string back; so the product name and the suffix the parser takes a
    name apart into, put together with " - " between them, are the name. *)
Theorem split_join_round_trip :
  (forall s sep : string,
      sep <> "" -> JsString.join (JsString.split s sep) sep = s) /\
  (forall rawName : string,
      JsString.includes rawName " - " = true ->
      (parseCSV_name rawName).1.1 +:+ " - " +:+ name_suffix rawName = rawName).
Proof.
  assert (Hjoin : forall s sep, sep <> "" -> JsString.join (JsString.split s sep) sep = s).
  { intros s sep Hsep. unfold JsString.join, JsString.split.
    pose proof (split_go_concat sep s 0 Hsep) as H.
    destruct (JsString.split_go sep 0 s) as [h t]. exact H. }
  split; [exact Hjoin|].
  intros rawName Hsep.
  assert (Hprod : (parseCSV_name rawName).1.1 = name_product rawName).
  { rewrite (parseCSV_name_suffix _ Hsep).
    destruct (suffix_parts rawName) as [|a [|b [|c l]]];
      repeat match goal with |- context [normalizeSize ?x] => destruct (normalizeSize x) end;
      reflexivity. }
  rewrite Hprod. unfold name_product, name_suffix, JsString.join.
  pose proof (split_length_includes rawName " - " ltac:(discriminate)) as Hlen.
  rewrite Hsep in Hlen. apply Nat.leb_le in Hlen.
  specialize (Hjoin rawName " - " ltac:(discriminate)). unfold JsString.join in Hjoin.
  destruct (JsString.split rawName " - ") as [|a l] eqn:E using rev_ind; [cbn in Hlen; lia|].
  clear IHl. rewrite List.last_last, List.removelast_last.
  rewrite concat_snoc in Hjoin; [exact Hjoin|].
  intros ->. cbn in Hlen. lia.
Qed.

Lemma split_join_round_trip_witness :
  (parseCSV_name "Classic Tee - Navy / Large").1.1 +:+ " - " +:+
  name_suffix "Classic Tee - Navy / Large" = "Classic Tee - Navy / Large".
Proof.
  apply (proj2 split_join_round_trip "Classic Tee - Navy / Large"). reflexivity.
Defined.

(** ** [parseCSV]: the items *)

Lemma normalizeSize_canonical (s c : string) :
  normalizeSize s = Some c -> c ∈ ORDERED_SIZES.
Proof.
  unfold normalizeSize. destruct (negb (JsString.truthy s)); [discriminate|].
  destruct (SIZE_MAPPING !! JsString.toUpperCase s) as [v|] eqn:E; [|discriminate].
  apply SIZE_MAPPING_values in E as (_ & Hv & Ht). rewrite Ht. intros [= <-]. exact Hv.
Qed.

Lemma parseCSV_name_size (rawName : string) :
  (parseCSV_name rawName).2 ∈ ORDERED_SIZES \/ (parseCSV_name rawName).2 ∈ sentinel_sizes.
Proof.
  unfold parseCSV_name. destruct (2 <=? _)%nat; [|right; compute_done].
  destruct (map JsString.trim _) as [|a [|b [|c l]]];
    repeat match goal with
           | |- context [normalizeSize ?x] =>
               let E := fresh "E" in destruct (normalizeSize x) eqn:E
           end;
    cbn [snd];
    first [ left; eapply normalizeSize_canonical; eassumption | right; compute_done ].
Qed.

Lemma sentinel_not_canonical (s : string) :
  s ∈ sentinel_sizes -> s ∉ ORDERED_SIZES.
Proof.
  intros Hs Hc. unfold sentinel_sizes, ORDERED_SIZES in *.
  repeat (apply elem_of_cons in Hs as [->|Hs];
          [repeat (apply elem_of_cons in Hc as [Hc|Hc]; [discriminate|]); inversion Hc|]).
  inversion Hs.
Qed.

(** X2.  The size of every LineItem the parser produces is one of the
    seven canonical sizes or one of the two sentinels "Unknown" and
    "One Size", and the item counts in the aggregate exactly when it is not
    a sentinel. *)
Theorem item_size_range (data : list CSVRow) (item : ParsedItem) :
  item ∈ (parseCSV data).1 ->
  (item_size item ∈ ORDERED_SIZES \/ item_size item ∈ sentinel_sizes) /\
  (canonical item <-> item_size item ∉ sentinel_sizes).
Proof.
  intros Hin.
  assert (Hrange : item_size item ∈ ORDERED_SIZES \/ item_size item ∈ sentinel_sizes).
  { rewrite parseCSV_unfold in Hin. cbn [fst] in Hin.
    apply parseCSV_items_from_elem in Hin as (i & row & _ & Hitem).
    unfold parseCSV_item in Hitem.
    destruct (row !! "Lineitem name") as [rawName|]; [|discriminate].
    destruct (JsNumber.parseInt _) as [q|]; [|discriminate].
    destruct (JsString.truthy rawName); [|discriminate].
    pose proof (parseCSV_name_size rawName) as Hsize.
    destruct (parseCSV_name rawName) as [[p c] s]. injection Hitem as <-. exact Hsize. }
  split; [exact Hrange|]. unfold canonical. split.
  - intros Hc Hs. exact (sentinel_not_canonical _ Hs Hc).
  - intros Hs. destruct Hrange; [assumption | contradiction].
Qed.

Lemma item_size_range_witness :
  (item_size {| item_id := "0-Cap - Red"; productName := "Cap"; color := "Red";
                item_size := "One Size"; quantity := 1 |} ∈ ORDERED_SIZES \/
   item_size {| item_id := "0-Cap - Red"; productName := "Cap"; color := "Red";
                item_size := "One Size"; quantity := 1 |} ∈ sentinel_sizes) /\
  (canonical {| item_id := "0-Cap - Red"; productName := "Cap"; color := "Red";
                item_size := "One Size"; quantity := 1 |} <->
   item_size {| item_id := "0-Cap - Red"; productName := "Cap"; color := "Red";
                item_size := "One Size"; quantity := 1 |} ∉ sentinel_sizes).
Proof.
  apply (item_size_range [ {[ "Lineitem quantity" := "1"; "Lineitem name" := "Cap - Red" ]} ]).
  vm_compute. apply list_elem_of_here.
Defined.

(** X3.  For a name that contains " - " and whose suffix has no "/", the
    suffix as it stands (not trimmed) is tried as a size: when it
    normalizes the item has that size and the colour "Standard", otherwise
    the colour is the suffix and the size is "One Size". *)
Theorem single_part_suffix (index : nat) (row : CSVRow) (rawName : string) (q : Z) :
  row !! "Lineitem name" = Some rawName ->
  row_quantity row = Some q ->
  JsString.includes rawName " - " = true ->
  JsString.includes (name_suffix rawName) "/" = false ->
  exists item,
    parseCSV_item index row = Some item /\
    productName item = name_product rawName /\
    quantity item = q /\
    match normalizeSize (name_suffix rawName) with
    | Some s => item_size item = s /\ color item = "Standard"
    | None => item_size item = "One Size" /\ color item = name_suffix rawName
    end.
Proof.
  intros Hname Hq Hsep Hslash.
  rewrite (parseCSV_item_named index row rawName q Hname Hq
             (includes_nonempty rawName " - " ltac:(discriminate) Hsep)).
  eexists. split; [reflexivity|]. cbn [productName color item_size quantity].
  rewrite (parseCSV_name_suffix _ Hsep).
  assert (Hparts : suffix_parts rawName = [JsString.trim (name_suffix rawName)]).
  { unfold suffix_parts, JsString.split. rewrite (split_go_absent _ _ Hslash). reflexivity. }
  rewrite Hparts. destruct (normalizeSize (name_suffix rawName)); repeat split.
Qed.

Lemma single_part_suffix_witness :
  exists item,
    parseCSV_item 0 {[ "Lineitem name" := "Classic Tee -  Large";
                       "Lineitem quantity" := "1" ]} = Some item /\
    productName item = "Classic Tee" /\
    quantity item = 1 /\
    item_size item = "One Size" /\ color item = " Large".
Proof.
  apply (single_part_suffix 0 {[ "Lineitem name" := "Classic Tee -  Large";
                                 "Lineitem quantity" := "1" ]} "Classic Tee -  Large" 1);
    vm_compute; reflexivity.
Defined.

Lemma string_of_uint_digits (d : Decimal.uint) :
  all_chars JsString.is_digit (NilEmpty.string_of_uint d) = true.
Proof. induction d; cbn; try reflexivity; exact IHd. Qed.

Lemma of_index_inj (i j : nat) :
  JsString.of_index i = JsString.of_index j -> i = j.
Proof.
  unfold JsString.of_index. intros H.
  apply (f_equal NilEmpty.uint_of_string) in H. rewrite !NilEmpty.usu in H.
  injection H as H. apply (f_equal Nat.of_uint) in H.
  rewrite !DecimalNat.Unsigned.of_to in H. exact H.
Qed.

Lemma digits_dash_inj (a b x y : string) :
  all_chars JsString.is_digit a = true ->
  all_chars JsString.is_digit b = true ->
  a +:+ "-" +:+ x = b +:+ "-" +:+ y -> a = b.
Proof.
  revert b. induction a as [|c a IH]; intros [|d b] Ha Hb H.
  - reflexivity.
  - exfalso. injection H as Hc _. subst d. cbn in Hb. discriminate.
  - exfalso. injection H as Hc _. subst c. cbn in Ha. discriminate.
  - injection H as -> H. f_equal.
    cbn in Ha, Hb. apply andb_prop in Ha as [_ Ha]. apply andb_prop in Hb as [_ Hb].
    exact (IH b Ha Hb H).
Qed.

Lemma parseCSV_item_id (index : nat) (row : CSVRow) (item : ParsedItem) :
  parseCSV_item index row = Some item ->
  exists rawName, item_id item = JsString.of_index index +:+ "-" +:+ rawName.
Proof.
  unfold parseCSV_item.
  destruct (row !! "Lineitem name") as [rawName|]; [|discriminate].
  destruct (JsNumber.parseInt _) as [q|]; [|discriminate].
  destruct (JsString.truthy rawName); [|discriminate].
  destruct (parseCSV_name rawName) as [[p c] s]. intros [= <-]. exists rawName. reflexivity.
Qed.

Lemma parseCSV_items_from_ids (start : nat) (rows : list CSVRow) :
  NoDup (map item_id (parseCSV_items_from start rows)).
Proof.
  revert start. induction rows as [|row rows IH]; intros start; [apply NoDup_nil_2|].
  rewrite parseCSV_items_from_cons.
  destruct (parseCSV_item start row) as [item|] eqn:Hitem; [|apply IH].
  cbn [app map]. apply NoDup_cons. split; [|apply IH].
  intros Hin. apply list_elem_of_fmap in Hin as (item' & Hid & Hin').
  apply parseCSV_items_from_elem in Hin' as (i & row' & _ & Hitem').
  apply parseCSV_item_id in Hitem as (n & Hn).
  apply parseCSV_item_id in Hitem' as (n' & Hn').
  rewrite Hn, Hn' in Hid.
  apply digits_dash_inj in Hid; [|apply string_of_uint_digits..].
  apply of_index_inj in Hid. lia.
Qed.

(** X4.  The ids of the LineItems of one import are pairwise distinct. *)
Theorem item_ids_distinct (data : list CSVRow) :
  NoDup (map item_id (parseCSV data).1).
Proof. rewrite parseCSV_unfold. apply parseCSV_items_from_ids. Qed.

(** ** [parseCSV]: the orders *)

Lemma JsMap_has_keys {V} (m : JsMap.t V) (k : string) :
  JsMap.has m k = bool_decide (k ∈ JsMap.keys m).
Proof.
  unfold JsMap.has. destruct (JsMap.get m k) eqn:E.
  - symmetry. apply bool_decide_eq_true_2.
    destruct (decide (k ∈ JsMap.keys m)) as [|Hn]; [assumption|].
    apply JsMap_get_None in Hn. congruence.
  - symmetry. apply bool_decide_eq_false_2. apply JsMap_get_None, E.
Qed.

Lemma parseCSV_order_keys (data : list CSVRow) (ordersMap : JsMap.t Order) :
  JsMap.keys (fold_left parseCSV_order data ordersMap) =
  JsMap.keys ordersMap ++ first_occurrences (JsMap.keys ordersMap) (omap header_name data).
Proof.
  revert ordersMap. induction data as [|row data IH]; intros ordersMap.
  { cbn. rewrite app_nil_r. reflexivity. }
  cbn [fold_left omap list_omap]. rewrite IH. clear IH.
  unfold parseCSV_order, header_name.
  destruct (row !! "Name") as [n|]; [|reflexivity].
  destruct (JsString.truthy n); cbn [andb]; [|reflexivity].
  rewrite JsMap_has_keys.
  destruct (JsString.truthy_opt (row !! "Created at")).
  - cbn [first_occurrences]. case_bool_decide as Hin; cbn [negb]; [reflexivity|].
    rewrite JsMap_set_new by (apply JsMap_get_None, Hin).
    unfold JsMap.keys. rewrite map_app. cbn [map fst]. rewrite <- app_assoc. reflexivity.
  - destruct (negb _); reflexivity.
Qed.

(** X5.  The orders come out in the order in which their names first
    occur among the header rows (the rows with a non-empty name and a
    non-empty 'Created at'). *)
Theorem orders_in_first_header_order (data : list CSVRow) :
  map name (parseCSV data).2 = first_occurrences [] (omap header_name data).
Proof.
  rewrite parseCSV_unfold. cbn [snd]. fold (parseCSV_ordersMap data).
  rewrite (orders_wf_names _ (parseCSV_ordersMap_wf data)).
  unfold parseCSV_ordersMap. rewrite parseCSV_order_keys. reflexivity.
Qed.

(** X6.  Every order the parser returns has its name as id, a non-empty
    date text, no shipping cost yet, and its total as net earnings. *)
Theorem orders_start_unshipped (data : list CSVRow) (o : Order) :
  o ∈ (parseCSV data).2 ->
  order_id o = name o /\
  JsString.truthy (date o) = true /\
  shippingCost o = 0%float /\
  netEarnings o = total o.
Proof.
  intros (_ & row & Hfind & Ho)%parseCSV_orders_spec.
  apply find_some in Hfind as [_ Hhead]. unfold is_header_for in Hhead.
  apply andb_prop in Hhead as [_ Hcreated].
  remember (name o) as n eqn:Hn. clear Hn. subst o.
  cbn [parseCSV_new_order order_id name date shippingCost netEarnings total].
  repeat split. unfold JsString.truthy_opt in Hcreated.
  destruct (row !! "Created at"); [exact Hcreated | discriminate].
Qed.

Lemma orders_start_unshipped_witness :
  let o := {| order_id := "#1001"; name := "#1001"; date := "2025-12-26 18:48";
              total := 50%float; subtotal := 45%float; shippingCost := 0%float;
              netEarnings := 50%float |} in
  order_id o = name o /\ JsString.truthy (date o) = true /\
  shippingCost o = 0%float /\ netEarnings o = total o.
Proof.
  apply (orders_start_unshipped
           [ {[ "Name" := "#1001"; "Created at" := "2025-12-26 18:48";
                "Total" := "50"; "Subtotal" := "45" ]} ]).
  vm_compute. apply list_elem_of_here.
Defined.

(** ** [parseShippingCSV] *)

Lemma JsMap_set_elem {V} (m : JsMap.t V) (k : string) (v : V) (e : string * V) :
  e ∈ JsMap.set m k v -> e = (k, v) \/ e ∈ m.
Proof.
  induction m as [|[k' v'] m IH]; cbn [JsMap.set].
  - intros H%list_elem_of_singleton. left. exact H.
  - destruct (String.eqb k' k).
    + intros [->|H]%elem_of_cons; [left; reflexivity | right; apply list_elem_of_further, H].
    + intros [->|H]%elem_of_cons; [right; apply list_elem_of_here|].
      destruct (IH H) as [->|H']; [left; reflexivity | right; apply list_elem_of_further, H'].
Qed.

Lemma JsMap_set_keys {V} (m : JsMap.t V) (k : string) (v v0 : V) :
  JsMap.get m k = Some v0 -> JsMap.keys (JsMap.set m k v) = JsMap.keys m.
Proof.
  induction m as [|[k' v'] m IH]; cbn [JsMap.get JsMap.set]; [discriminate|].
  destruct (String.eqb_spec k' k) as [->|Hne]; [reflexivity|].
  intros E. unfold JsMap.keys in *. cbn [map fst]. rewrite (IH E). reflexivity.
Qed.

Lemma JsMap_set_keys_NoDup {V} (m : JsMap.t V) (k : string) (v : V) :
  NoDup (JsMap.keys m) -> NoDup (JsMap.keys (JsMap.set m k v)).
Proof.
  intros Hnd. destruct (JsMap.get m k) as [v0|] eqn:E.
  - rewrite (JsMap_set_keys _ _ _ _ E). exact Hnd.
  - rewrite (JsMap_set_new _ _ _ E). unfold JsMap.keys. rewrite map_app.
    apply NoDup_app. split; [exact Hnd|]. split; [|apply NoDup_singleton].
    intros x Hx Hx'%list_elem_of_singleton. subst x.
    apply JsMap_get_None in E. contradiction.
Qed.

Lemma normalizeName_starts (key : string) :
  JsString.startsWith (normalizeName key) "#" = true.
Proof.
  unfold normalizeName.
  destruct (JsString.startsWith (JsString.trim key) "#") eqn:E; cbn [negb]; [exact E|].
  change ("#" +:+ JsString.trim key) with (String "#" (JsString.trim key)).
  destruct (JsString.trim key); reflexivity.
Qed.

(** What holds of every entry the row callback can add holds of the lookup. *)
Lemma parseShippingCSV_row_entries (P : string * float -> Prop)
    (nameKey costKey : option string) (data : list ShippingRow) :
  (forall costs row e,
      e ∈ parseShippingCSV_row nameKey costKey costs row -> e ∈ costs \/ P e) ->
  forall costs, (forall e, e ∈ costs -> P e) ->
  forall e, e ∈ fold_left (parseShippingCSV_row nameKey costKey) data costs -> P e.
Proof.
  intros Hstep.
  induction data as [|row data IH]; intros costs Hc; [exact Hc|].
  cbn [fold_left]. apply IH. intros e He.
  destruct (Hstep _ _ _ He); auto.
Qed.

(** X7.  Every key of the shipping lookup starts with "#", no stored cost
    is [NaN], and no key occurs twice. *)
Theorem shipping_lookup_well_formed (fields : option (list string)) (data : list ShippingRow) :
  NoDup (JsMap.keys (parseShippingCSV fields data)) /\
  (forall (k : string) (cost : float),
      (k, cost) ∈ parseShippingCSV fields data ->
      JsString.startsWith k "#" = true /\ is_nan cost = false).
Proof.
  split.
  - unfold parseShippingCSV.
    set (nameKey := List.find _ _). set (costKey := List.find _ _).
    assert (H : forall costs, NoDup (JsMap.keys costs) ->
                  NoDup (JsMap.keys (fold_left (parseShippingCSV_row nameKey costKey) data costs))).
    { induction data as [|row data IH]; intros costs Hc; [exact Hc|].
      cbn [fold_left]. apply IH. unfold parseShippingCSV_row.
      destruct (_ && _); [|exact Hc]. destruct (negb _); [|exact Hc].
      apply JsMap_set_keys_NoDup, Hc. }
    apply H, NoDup_nil_2.
  - intros k cost. unfold parseShippingCSV.
    apply (parseShippingCSV_row_entries
             (fun e => JsString.startsWith e.1 "#" = true /\ is_nan e.2 = false)).
    + intros costs row e. unfold parseShippingCSV_row.
      destruct (_ && _); [|auto]. unfold JsNumber.isNaN.
      destruct (is_nan _) eqn:Hnan; cbn [negb]; [auto|].
      intros [->|He]%JsMap_set_elem; [right|left; exact He].
      split; [apply normalizeName_starts | exact Hnan].
    + intros e He. inversion He.
Qed.

Lemma shipping_lookup_well_formed_witness :
  JsString.startsWith "#1002" "#" = true /\ is_nan 12.5%float = false.
Proof.
  apply (proj2 (shipping_lookup_well_formed (Some ["Order name"; "Shipping charge"])
                  [ {[ "Order name" := "1002"; "Shipping charge" := "$12.50" ]} ])).
  vm_compute. apply list_elem_of_here.
Defined.

(** X8.  When no column name matches the key pattern (or the column names
    are not there at all), the lookup is empty, whatever the rows. *)
Theorem shipping_lookup_without_key_column
    (fields : option (list string)) (data : list ShippingRow) :
  List.find (JsRegExp.test nameKey_re) (match fields with Some hs => hs | None => [] end)
    = None ->
  parseShippingCSV fields data = JsMap.empty.
Proof.
  intros Hn. unfold parseShippingCSV. rewrite Hn.
  set (costKey := List.find _ _). generalize (@JsMap.empty float) as costs.
  induction data as [|row data IH]; intros costs; [reflexivity|].
  cbn [fold_left]. apply IH.
Qed.

Lemma shipping_lookup_without_key_column_witness :
  parseShippingCSV (Some ["Date"; "Order"; "Amount"])
    [ {[ "Date" := "12/26/2025"; "Order" := "1002"; "Amount" := "$12.50" ]} ] = JsMap.empty.
Proof.
  apply (shipping_lookup_without_key_column (Some ["Date"; "Order"; "Amount"])). reflexivity.
Defined.

(** X9.  When a key column is found but no column name matches the cost
    pattern, the cost of every row reads as "0": every cost in the lookup
    is 0. *)
Theorem shipping_lookup_without_cost_column
    (fields : option (list string)) (data : list ShippingRow) (k : string) (cost : float) :
  List.find (JsRegExp.test costKey_re) (match fields with Some hs => hs | None => [] end)
    = None ->
  (k, cost) ∈ parseShippingCSV fields data -> cost = 0%float.
Proof.
  intros Hc. unfold parseShippingCSV. rewrite Hc.
  apply (parseShippingCSV_row_entries (fun e => e.2 = 0%float)).
  - intros costs row e. unfold parseShippingCSV_row.
    cbn [field_or]. destruct (_ && _); [|auto].
    change (JsNumber.parseFloat _) with 0%float.
    change (negb (JsNumber.isNaN 0)) with true. cbn match.
    intros [->|He]%JsMap_set_elem; [right; reflexivity | left; exact He].
  - intros e He. inversion He.
Qed.

Lemma shipping_lookup_without_cost_column_witness :
  (0 : float) = 0%float.
Proof.
  apply (shipping_lookup_without_cost_column (Some ["Order name"; "Date"])
           [ {[ "Order name" := "1002"; "Date" := "12/26/2025" ]} ] "#1002" 0%float).
  - reflexivity.
  - vm_compute. apply list_elem_of_here.
Defined.

Lemma trimEnd_idempotent (s : string) :
  JsString.trimEnd (JsString.trimEnd s) = JsString.trimEnd s.
Proof.
  induction s as [|c s IH]; [reflexivity|].
  cbn [JsString.trimEnd].
  destruct (JsString.trimEnd s) as [|d t] eqn:E.
  - destruct (JsString.is_white_space c) eqn:Hc; [reflexivity|].
    cbn [JsString.trimEnd]. rewrite Hc. reflexivity.
  - cbn [JsString.trimEnd] in IH |- *. 
    change (match JsString.trimEnd (String d t) with
            | "" => if JsString.is_white_space c then "" else String c ""
            | String a s0 => String c (String a s0)
            end = String c (String d t)).
    cbn [JsString.trimEnd]. rewrite IH. reflexivity.
Qed.

(** What [trimStart] leaves is empty or starts with a character that is
    not white space. *)
Lemma trimStart_head (s : string) :
  match JsString.trimStart s with
  | EmptyString => True
  | String c _ => JsString.is_white_space c = false
  end.
Proof.
  induction s as [|c s IH]; [exact I|].
  cbn [JsString.trimStart]. destruct (JsString.is_white_space c) eqn:Hc; [exact IH | exact Hc].
Qed.

Lemma trimEnd_cons (c : ascii) (s : string) :
  JsString.is_white_space c = false ->
  JsString.trimEnd (String c s) = String c (JsString.trimEnd s).
Proof.
  intros Hc. cbn [JsString.trimEnd]. destruct (JsString.trimEnd s); [rewrite Hc|]; reflexivity.
Qed.

Lemma trim_idempotent (s : string) : JsString.trim (JsString.trim s) = JsString.trim s.
Proof.
  unfold JsString.trim. pose proof (trimStart_head s) as H.
  destruct (JsString.trimStart s) as [|c t]; [reflexivity|].
  rewrite (trimEnd_cons _ _ H). cbn [JsString.trimStart]. rewrite H.
  rewrite (trimEnd_cons _ _ H), trimEnd_idempotent. reflexivity.
Qed.

Lemma trim_hash (s : string) :
  JsString.trim (String "#" (JsString.trim s)) = String "#" (JsString.trim s).
Proof.
  unfold JsString.trim at 1. cbn [JsString.trimStart].
  change (JsString.is_white_space "#") with false. cbv iota.
  rewrite trimEnd_cons by reflexivity. unfold JsString.trim.
  rewrite trimEnd_idempotent. reflexivity.
Qed.

(** X10.  The key of the shipping lookup is a normal form: normalising it
    again changes nothing, white space around the name does not count, and
    a name written without its "#" gets the key of the name written with
    it. *)
Theorem normalizeName_normal_form (name : string) :
  normalizeName (normalizeName name) = normalizeName name /\
  normalizeName (JsString.trim name) = normalizeName name /\
  (JsString.startsWith (JsString.trim name) "#" = false ->
   normalizeName ("#" +:+ JsString.trim name) = normalizeName name).
Proof.
  assert (Hidem : normalizeName (normalizeName name) = normalizeName name).
  { destruct (JsString.startsWith (JsString.trim name) "#") eqn:E.
    - assert (Hn : normalizeName name = JsString.trim name).
      { unfold normalizeName. rewrite E. reflexivity. }
      rewrite Hn. unfold normalizeName. rewrite trim_idempotent, E. reflexivity.
    - assert (Hn : normalizeName name = String "#" (JsString.trim name)).
      { unfold normalizeName. rewrite E. reflexivity. }
      rewrite Hn. unfold normalizeName. rewrite trim_hash.
      destruct (JsString.trim name); reflexivity. }
  split; [exact Hidem|]. split.
  - unfold normalizeName. rewrite trim_idempotent. reflexivity.
  - intros E.
    assert (Hn : normalizeName name = String "#" (JsString.trim name)).
    { unfold normalizeName. rewrite E. reflexivity. }
    change ("#" +:+ JsString.trim name) with (String "#" (JsString.trim name)).
    rewrite <- Hn. exact Hidem.
Qed.

Lemma normalizeName_normal_form_witness :
  normalizeName ("#" +:+ JsString.trim " 1002 ") = normalizeName " 1002 ".
Proof.
  apply (proj2 (proj2 (normalizeName_normal_form " 1002 "))). reflexivity.
Defined.

(** ** [detectColorFamily] *)

(** Either the colour mentions a family, and is classified as one it
    mentions, or it mentions none and is its own family. *)
Lemma detectColorFamily_cases (color : string) :
  (detectColorFamily color ∈ color_families /\
   JsString.includes (JsString.toLowerCase color) (detectColorFamily color) = true) \/
  (detectColorFamily color = color /\
   forall f, f ∈ color_families -> JsString.includes (JsString.toLowerCase color) f = false).
Proof.
  unfold detectColorFamily.
  destruct (JsString.includes _ "black") eqn:E1; [left; split; [compute_done|exact E1]|].
  destruct (JsString.includes _ "white") eqn:E2; [left; split; [compute_done|exact E2]|].
  destruct (JsString.includes _ "brown") eqn:E3; [left; split; [compute_done|exact E3]|].
  destruct (JsString.includes _ "storm") eqn:E4; [left; split; [compute_done|exact E4]|].
  destruct (JsString.includes _ "blue") eqn:E5; [left; split; [compute_done|exact E5]|].
  right. split; [reflexivity|]. intros f Hf. unfold color_families in Hf.
  repeat (apply elem_of_cons in Hf as [->|Hf]; [assumption|]).
  inversion Hf.
Qed.

(** X11.  A colour is classified as one of the five families or as itself;
    the class of a colour is its own class; and a colour that is classified
    as a family is classified so whatever the case of its letters. *)
Theorem detectColorFamily_stable (color color' : string) :
  (detectColorFamily color ∈ color_families \/ detectColorFamily color = color) /\
  detectColorFamily (detectColorFamily color) = detectColorFamily color /\
  (JsString.toLowerCase color = JsString.toLowerCase color' ->
   detectColorFamily color ∈ color_families ->
   detectColorFamily color' = detectColorFamily color).
Proof.
  split; [destruct (detectColorFamily_cases color) as [[H _]|[H _]]; auto|]. split.
  - destruct (detectColorFamily_cases color) as [[H _]|[H _]].
    + unfold color_families in H.
      repeat (apply elem_of_cons in H as [->|H]; [reflexivity|]). inversion H.
    + rewrite !H. reflexivity.
  - intros Hcase Hfam.
    destruct (detectColorFamily_cases color) as [_|[Heq Hnone]].
    + revert Hfam. unfold detectColorFamily. rewrite <- Hcase.
      destruct (JsString.includes _ "black") eqn:E1; [reflexivity|].
      destruct (JsString.includes _ "white") eqn:E2; [reflexivity|].
      destruct (JsString.includes _ "brown") eqn:E3; [reflexivity|].
      destruct (JsString.includes _ "storm") eqn:E4; [reflexivity|].
      destruct (JsString.includes _ "blue") eqn:E5; [reflexivity|].
      intros Hfam. exfalso. unfold color_families in Hfam.
      repeat (apply elem_of_cons in Hfam as [->|Hfam]; [vm_compute in E1, E2, E3, E4, E5; discriminate|]).
      inversion Hfam.
    + exfalso. rewrite Heq in Hfam. specialize (Hnone _ Hfam).
      unfold color_families in Hfam.
      repeat (apply elem_of_cons in Hfam as [->|Hfam]; [vm_compute in Hnone; discriminate|]).
      inversion Hfam.
Qed.

Lemma detectColorFamily_stable_witness :
  detectColorFamily "JET BLACK" = detectColorFamily "Jet Black".
Proof.
  apply (proj2 (proj2 (detectColorFamily_stable "Jet Black" "JET BLACK"))).
  - reflexivity.
  - vm_compute. apply list_elem_of_here.
Defined.

(** ** [aggregateData]: the order of the items, the rows there are *)

Lemma fold_left_permutation {A B} (f : B -> A -> B) (l l' : list A) :
  (forall b x y, f (f b x) y = f (f b y) x) ->
  Permutation l l' -> forall b, fold_left f l b = fold_left f l' b.
Proof.
  intros Hf Hp. induction Hp as [|x l l' _ IH|x y l|l l' l'' _ IH1 _ IH2]; intros b.
  - reflexivity.
  - cbn [fold_left]. apply IH.
  - cbn [fold_left]. rewrite Hf. reflexivity.
  - rewrite IH1. apply IH2.
Qed.

Lemma sum_assign_comm (row : gmap string Z) (s1 s2 : string) (q1 q2 : Z) :
  sum_assign (sum_assign row s1 q1) s2 q2 = sum_assign (sum_assign row s2 q2) s1 q1.
Proof.
  unfold sum_assign at 1 3. rewrite !cell_sum_assign. unfold sum_assign.
  destruct (decide (s1 = s2)) as [->|Hne].
  - rewrite !decide_True by reflexivity. rewrite !insert_insert_eq. f_equal. lia.
  - rewrite !decide_False by congruence.
    rewrite !Z.add_0_r. apply insert_insert_ne. congruence.
Qed.

Lemma sum_to_table_alter (table : gmap string (gmap string Z)) (key size : string) (q : Z) :
  sum_to_table table key size q = partial_alter (table_entry_update key size q) key table.
Proof.
  unfold sum_to_table. destruct (table !! key) as [row|] eqn:E.
  - apply (partial_alter_ext (fun _ => Some (sum_assign row size q))).
    intros x Hx. rewrite E in Hx. subst x. reflexivity.
  - case_bool_decide as Hk.
    + symmetry. apply partial_alter_id. rewrite E. cbn.
      rewrite bool_decide_eq_true_2 by exact Hk. reflexivity.
    + apply (partial_alter_ext (fun _ => Some (sum_assign zero_row size q))).
      intros x Hx. rewrite E in Hx. subst x. cbn.
      rewrite bool_decide_eq_false_2 by exact Hk. reflexivity.
Qed.

Lemma sum_to_table_comm (table : gmap string (gmap string Z))
    (k1 s1 : string) (q1 : Z) (k2 s2 : string) (q2 : Z) :
  sum_to_table (sum_to_table table k1 s1 q1) k2 s2 q2 =
  sum_to_table (sum_to_table table k2 s2 q2) k1 s1 q1.
Proof.
  rewrite !sum_to_table_alter.
  destruct (decide (k2 = k1)) as [->|Hne].
  - rewrite !partial_alter_partial_alter_eq.
    apply partial_alter_ext. intros [row|] _; unfold compose, table_entry_update.
    + rewrite sum_assign_comm. reflexivity.
    + destruct (bool_decide (k1 ∈ Object_prototype_keys)); [reflexivity|].
      rewrite sum_assign_comm. reflexivity.
  - apply partial_alter_partial_alter_ne, Hne.
Qed.

Lemma table_of_permutation (key : ParsedItem -> string) (items items' : list ParsedItem) :
  Permutation items items' -> table_of key items = table_of key items'.
Proof.
  intros Hp. unfold table_of. apply fold_left_permutation; [|exact Hp].
  intros table x y. unfold table_step.
  repeat case_bool_decide; try reflexivity. apply sum_to_table_comm.
Qed.

Lemma totals_of_permutation (items items' : list ParsedItem) :
  Permutation items items' -> totals_of items = totals_of items'.
Proof.
  intros Hp. unfold totals_of. apply fold_left_permutation; [|exact Hp].
  intros totals x y. unfold totals_step.
  repeat case_bool_decide; try reflexivity. apply sum_assign_comm.
Qed.

Lemma quantity_sum_permutation (l l' : list ParsedItem) :
  Permutation l l' -> quantity_sum l = quantity_sum l'.
Proof.
  unfold quantity_sum.
  induction 1 as [|x l l' _ IH|x y l|l l' l'' _ IH1 _ IH2]; cbn [foldr]; lia.
Qed.

Lemma magnitude_permutation (items items' : list ParsedItem) :
  Permutation items items' -> magnitude items = magnitude items'.
Proof.
  intros Hp. unfold magnitude.
  assert (H : Permutation (filter canonical items) (filter canonical items')).
  { apply filter_Permutation, Hp. }
  induction H as [|x l l' _ IH|x y l|l l' l'' _ IH1 _ IH2]; cbn [foldr]; lia.
Qed.

(** X12.  When the quantities of the items of canonical size have absolute
    values that add up to 2^53 at most, the aggregate does not depend on the
    order of the items: two item lists that are permutations of each other
    give the same tables (the same keys with the same cells), the same
    totals and the same grand total.  (Beyond 2^53 the sums round, and in
    another order they round otherwise.) *)
Theorem aggregateData_permutation (items items' : list ParsedItem) (orders0 : list Order) :
  magnitude items <= 2 ^ 53 ->
  Permutation items items' ->
  aggregateData items orders0 = aggregateData items' orders0.
Proof.
  intros Hm Hp.
  rewrite (aggregateData_unfold items orders0 Hm).
  rewrite (aggregateData_unfold items' orders0)
    by (rewrite <- (magnitude_permutation _ _ Hp); exact Hm).
  f_equal.
  - apply table_of_permutation, Hp.
  - apply table_of_permutation, Hp.
  - apply totals_of_permutation, Hp.
  - apply quantity_sum_permutation, filter_Permutation, Hp.
Qed.

Lemma aggregateData_permutation_witness :
  let a := {| item_id := "0-Tee - L / Black"; productName := "Tee";
              color := "Black"; item_size := "LARGE"; quantity := 2 |} in
  let b := {| item_id := "1-Hat - Red"; productName := "Hat";
              color := "Red"; item_size := "One Size"; quantity := 1 |} in
  let c := {| item_id := "2-Tee - S / Black"; productName := "Tee";
              color := "Black"; item_size := "SMALL"; quantity := 3 |} in
  aggregateData [a; b; c] [] = aggregateData [c; a; b] [].
Proof.
  intros a b c. apply (aggregateData_permutation [a; b; c] [c; a; b]).
  - vm_compute. discriminate.
  - apply Permutation_sym, (Permutation_cons_append [a; b] c).
Defined.

(** The hypothesis is needed: 2^53, 1, 1 add up to 2^53 in this order and
    to 2^53 + 2 with the large quantity last. *)
Lemma aggregateData_order_matters :
  let a := {| item_id := "0-Tee - XS / Red"; productName := "Tee";
              color := "Red"; item_size := "XS"; quantity := 2 ^ 53 |} in
  let b := {| item_id := "1-Tee - XS / Red"; productName := "Tee";
              color := "Red"; item_size := "XS"; quantity := 1 |} in
  grandTotal (aggregateData [a; b; b] []) = 2 ^ 53 /\
  grandTotal (aggregateData [b; b; a] []) = 2 ^ 53 + 2.
Proof. cbv zeta. split; vm_compute; reflexivity. Qed.

(** X13.  [products] has a row exactly for the row keys of the items of
    canonical size, and [colorTotals] exactly for their colour families,
    those apart that are names inherited from [Object.prototype]. *)
Theorem aggregate_rows (items : list ParsedItem) (orders0 : list Order) :
  let a := aggregateData items orders0 in
  (forall rowKey : string,
      is_Some (products a !! rowKey) <->
      exists item, item ∈ items /\ canonical item /\ rowKey_of item = rowKey) /\
  (forall family : string,
      is_Some (colorTotals a !! family) <->
      (family ∉ Object_prototype_keys) /\
      exists item, item ∈ items /\ canonical item /\
                   detectColorFamily (color item) = family).
Proof.
  cbv zeta. split.
  - intros rowKey.
    rewrite (aggregate_rows_exist rowKey_of products (fun _ => eq_refl) products_item).
    split.
    + intros [_ H]. exact H.
    + intros [item [Hin [Hc Hkey]]]. split; [|eauto].
      rewrite <- Hkey. apply rowKey_not_inherited.
  - intros family.
    apply (aggregate_rows_exist (fun item => detectColorFamily (color item)) colorTotals
             (fun _ => eq_refl) colorTotals_item).
Qed.

Lemma quantity_sum_split (P Q : ParsedItem -> Prop)
    `{!forall x, Decision (P x)} `{!forall x, Decision (Q x)} (items : list ParsedItem) :
  quantity_sum (filter P items) =
  quantity_sum (filter (fun x => P x /\ ~ Q x) items) +
  quantity_sum (filter (fun x => P x /\ Q x) items).
Proof.
  induction items as [|x items IH]; [reflexivity|].
  rewrite !filter_cons.
  destruct (decide (P x)) as [HP|HP]; destruct (decide (Q x)) as [HQ|HQ].
  - rewrite decide_False by tauto. rewrite decide_True by tauto.
    unfold quantity_sum in *. cbn [foldr]. lia.
  - rewrite decide_True by tauto. rewrite decide_False by tauto.
    unfold quantity_sum in *. cbn [foldr]. lia.
  - rewrite !decide_False by tauto. exact IH.
  - rewrite !decide_False by tauto. exact IH.
Qed.

(** X14.  When the quantities of the items of canonical size have absolute
    values that add up to 2^53 at most: for a canonical size, the size total
    is the sum of that column over the colour families plus the quantity of
    the items of that size whose colour family is a name inherited from
    [Object.prototype], which have no row. *)
Theorem color_totals_account (items : list ParsedItem) (orders0 : list Order) (s : string) :
  magnitude items <= 2 ^ 53 ->
  s ∈ ORDERED_SIZES ->
  let a := aggregateData items orders0 in
  cell (totals a) s =
  column_sum s (colorTotals a) +
  quantity_sum
    (filter (fun item => item_size item = s /\
                         detectColorFamily (color item) ∈ Object_prototype_keys) items).
Proof.
  intros Hm Hs. cbv zeta. rewrite (aggregateData_unfold _ _ Hm). cbn [totals colorTotals].
  unfold cell. rewrite (totals_tally items s Hs). cbn [default].
  rewrite (table_column_sum _ items s Hs).
  apply (quantity_sum_split (fun item => item_size item = s)
           (fun item => detectColorFamily (color item) ∈ Object_prototype_keys)).
Qed.

Lemma color_totals_account_witness :
  let items := [ {| item_id := "0-Tee - constructor / L"; productName := "Tee";
                    color := "constructor"; item_size := "LARGE"; quantity := 2 |};
                 {| item_id := "1-Tee - Jet Black / L"; productName := "Tee";
                    color := "Jet Black"; item_size := "LARGE"; quantity := 3 |} ] in
  let a := aggregateData items [] in
  cell (totals a) "LARGE" =
  column_sum "LARGE" (colorTotals a) +
  quantity_sum
    (filter (fun item => item_size item = "LARGE" /\
                         detectColorFamily (color item) ∈ Object_prototype_keys) items).
Proof.
  intros items. apply (color_totals_account items [] "LARGE").
  - vm_compute. discriminate.
  - compute_done.
Defined.

(** ** The checklist: [getCellCount] and [toggleCellCheck] *)

Lemma includes_underscore (r t : string) :
  JsString.includes (r +:+ "_" +:+ t) "_" = true.
Proof.
  induction r as [|c r IH].
  - change ("" +:+ "_" +:+ t) with (String "_" t). cbn [JsString.includes].
    destruct t; reflexivity.
  - change (String c r +:+ "_" +:+ t) with (String c (r +:+ "_" +:+ t)).
    cbn [JsString.includes]. rewrite IH. apply orb_true_r.
Qed.

Lemma size_without_underscore (s : string) :
  s ∈ ORDERED_SIZES -> JsString.includes s "_" = false.
Proof.
  intros Hs. unfold ORDERED_SIZES in Hs.
  repeat (apply elem_of_cons in Hs as [->|Hs]; [reflexivity|]). inversion Hs.
Qed.

(** Two cells of the table never share a key of [checkedCells]. *)
Lemma cellKey_inj (r s r' s' : string) :
  JsString.includes s "_" = false -> JsString.includes s' "_" = false ->
  Checklist.cellKey r s = Checklist.cellKey r' s' -> r = r' /\ s = s'.
Proof.
  intros Hs Hs'. unfold Checklist.cellKey. revert r'.
  induction r as [|c r IH]; intros [|c' r'].
  - change ("" +:+ "_" +:+ s) with (String "_" s).
    change ("" +:+ "_" +:+ s') with (String "_" s').
    intros [= ->]. split; reflexivity.
  - change ("" +:+ "_" +:+ s) with (String "_" s).
    change (String c' r' +:+ "_" +:+ s') with (String c' (r' +:+ "_" +:+ s')).
    intros [= _ ->]. rewrite includes_underscore in Hs. discriminate.
  - change ("" +:+ "_" +:+ s') with (String "_" s').
    change (String c r +:+ "_" +:+ s) with (String c (r +:+ "_" +:+ s)).
    intros [= _ <-]. rewrite includes_underscore in Hs'. discriminate.
  - change (String c r +:+ "_" +:+ s) with (String c (r +:+ "_" +:+ s)).
    change (String c' r' +:+ "_" +:+ s') with (String c' (r' +:+ "_" +:+ s')).
    intros [= -> H]. destruct (IH _ H) as [-> ->]. split; reflexivity.
Qed.

(** The count of the cell that was clicked. *)
Lemma toggleCellCheck_same (prev : gmap string Checklist.CheckedVal)
    (rowKey size : string) (totalQty delta qty' : Z) :
  Checklist.getCellCount (Checklist.toggleCellCheck rowKey size totalQty delta prev)
    rowKey size qty' =
  Z.max 0 (Z.min totalQty
             (number_add (Checklist.getCellCount prev rowKey size totalQty) delta)).
Proof.
  unfold Checklist.getCellCount, Checklist.toggleCellCheck. cbv zeta.
  rewrite lookup_insert_eq.
  destruct (prev !! Checklist.cellKey rowKey size) as [[n|[|]]|];
    (match goal with |- context [totalQty <? ?a] => destruct (Z.ltb_spec totalQty a) end;
     match goal with |- context [?a <? 0] => destruct (Z.ltb_spec a 0) end; lia).
Qed.

(** X15.  A click changes the count of its own cell to the sum, as
    numbers, of the old count and [delta], kept between 0 and the quantity
    of the cell, and changes no other cell of the table; the sum is the sum
    of the integers when their absolute values add up to 2^53 at most. *)
Theorem toggleCellCheck_one_cell (prev : gmap string Checklist.CheckedVal)
    (rowKey size : string) (totalQty delta : Z) (rowKey' size' : string) (qty' : Z) :
  size ∈ ORDERED_SIZES -> size' ∈ ORDERED_SIZES ->
  let old := Checklist.getCellCount prev rowKey size totalQty in
  let next := Checklist.toggleCellCheck rowKey size totalQty delta prev in
  Checklist.getCellCount next rowKey' size' qty' =
    (if decide (rowKey' = rowKey /\ size' = size)
     then Z.max 0 (Z.min totalQty (number_add old delta))
     else Checklist.getCellCount prev rowKey' size' qty') /\
  (Z.abs old + Z.abs delta <= 2 ^ 53 ->
   Checklist.getCellCount next rowKey size qty' = Z.max 0 (Z.min totalQty (old + delta))).
Proof.
  intros Hs Hs' old next. split.
  - case_decide as Heq.
    + destruct Heq as [-> ->]. apply toggleCellCheck_same.
    + unfold next, Checklist.getCellCount, Checklist.toggleCellCheck. cbv zeta.
      rewrite lookup_insert_ne; [reflexivity|].
      intros Hk. apply cellKey_inj in Hk as [-> ->]; auto using size_without_underscore.
  - intros Hb. unfold next. rewrite toggleCellCheck_same. fold old.
    rewrite number_add_exact by exact Hb. reflexivity.
Qed.

Lemma toggleCellCheck_one_cell_witness :
  let prev : gmap string Checklist.CheckedVal :=
    {[ "Tee - Black_LARGE" := Checklist.Count 2; "Tee_XL" := Checklist.Legacy true ]} in
  Checklist.getCellCount (Checklist.toggleCellCheck "Tee - Black" "LARGE" 3 1 prev)
    "Tee" "XL" 4 =
  if decide ("Tee" = "Tee - Black" /\ "XL" = "LARGE")
  then Z.max 0 (Z.min 3 (number_add (Checklist.getCellCount prev "Tee - Black" "LARGE" 3) 1))
  else Checklist.getCellCount prev "Tee" "XL" 4.
Proof.
  intros prev.
  apply (toggleCellCheck_one_cell prev "Tee - Black" "LARGE" 3 1 "Tee" "XL" 4); compute_done.
Defined.

(** Beyond 2^53 the sum is not always that of the integers: at 2^53 a
    click that adds one changes nothing. *)
Lemma toggleCellCheck_round :
  let prev : gmap string Checklist.CheckedVal :=
    {[ "Tee - Black_LARGE" := Checklist.Count (2 ^ 53) ]} in
  Checklist.getCellCount (Checklist.toggleCellCheck "Tee - Black" "LARGE" (2 ^ 54) 1 prev)
    "Tee - Black" "LARGE" (2 ^ 54) = 2 ^ 53.
Proof. vm_compute. reflexivity. Qed.

(** X16.  For a quantity below 2^53 and from a count between 0 and the
    quantity, [n] clicks that add one stop at the quantity and [n] clicks
    that take one stop at 0.  (From 2^53 on a click may change nothing, or
    two: the sum rounds.) *)
Theorem toggleCellCheck_clicks (prev : gmap string Checklist.CheckedVal)
    (rowKey size : string) (totalQty : Z) (n : nat) :
  let current := Checklist.getCellCount prev rowKey size totalQty in
  totalQty < 2 ^ 53 ->
  0 <= current <= totalQty ->
  Checklist.getCellCount
    (Nat.iter n (Checklist.toggleCellCheck rowKey size totalQty 1) prev)
    rowKey size totalQty = Z.min totalQty (current + Z.of_nat n) /\
  Checklist.getCellCount
    (Nat.iter n (Checklist.toggleCellCheck rowKey size totalQty (-1)) prev)
    rowKey size totalQty = Z.max 0 (current - Z.of_nat n).
Proof.
  intros current Hq Hc. subst current. induction n as [|n [IH1 IH2]].
  - cbn [Nat.iter nat_rect]. lia.
  - rewrite !Nat.iter_succ, !toggleCellCheck_same, IH1, IH2.
    rewrite !number_add_exact by lia. lia.
Qed.

Lemma toggleCellCheck_clicks_witness :
  let prev : gmap string Checklist.CheckedVal := {[ "Tee - Black_LARGE" := Checklist.Count 2 ]} in
  Checklist.getCellCount
    (Nat.iter 5 (Checklist.toggleCellCheck "Tee - Black" "LARGE" 3 1) prev)
    "Tee - Black" "LARGE" 3 = Z.min 3 (2 + Z.of_nat 5) /\
  Checklist.getCellCount
    (Nat.iter 5 (Checklist.toggleCellCheck "Tee - Black" "LARGE" 3 (-1)) prev)
    "Tee - Black" "LARGE" 3 = Z.max 0 (2 - Z.of_nat 5).
Proof.
  intros prev. apply (toggleCellCheck_clicks prev "Tee - Black" "LARGE" 3 5).
  - vm_compute. reflexivity.
  - vm_compute. split; discriminate.
Defined.

(** The bound is needed: with the quantity 2^53 + 2 all done (an old save's
    [true]), two clicks that take one leave 2^53 - 1, not 2^53. *)
Lemma toggleCellCheck_clicks_round :
  let prev : gmap string Checklist.CheckedVal := {[ "Tee - Black_LARGE" := Checklist.Legacy true ]} in
  Checklist.getCellCount
    (Nat.iter 2 (Checklist.toggleCellCheck "Tee - Black" "LARGE" (2 ^ 53 + 2) (-1)) prev)
    "Tee - Black" "LARGE" (2 ^ 53 + 2) = 2 ^ 53 - 1.
Proof. vm_compute. reflexivity. Qed.

(** ** The product table: [getProcessedProducts] *)

Lemma count_sum_perm (l l' : list Z) : Permutation l l' -> count_sum l = count_sum l'.
Proof.
  unfold count_sum.
  induction 1 as [|x l l' _ IH|x y l|l l' l'' _ IH1 _ IH2]; cbn [foldr]; lia.
Qed.

Lemma products_sort_insert_perm {A} (cmp : A -> A -> Z) (x : A) (l : list A) :
  Permutation (Products.sort_insert cmp x l) (x :: l).
Proof.
  induction l as [|y l IH]; cbn; [reflexivity|].
  destruct (0 <? cmp x y); [|reflexivity].
  rewrite IH. apply perm_swap.
Qed.

Lemma products_sort_perm {A} (cmp : A -> A -> Z) (l : list A) :
  Permutation (Products.sort cmp l) l.
Proof.
  induction l as [|x l IH]; cbn; [reflexivity|].
  rewrite products_sort_insert_perm, IH. reflexivity.
Qed.

(** Within 2^53 the total of a row is the sum of its cells. *)
Lemma sizes_total_sum (row : gmap string Z) :
  row_magnitude row <= 2 ^ 53 -> Products.sizes_total row = sizes_sum row.
Proof.
  unfold Products.sizes_total, sizes_sum, row_magnitude, ORDERED_SIZES_KEYS.
  assert (H : forall (l : list string) (acc : Z),
             Z.abs acc + foldr (fun s a => Z.abs (cell row s) + a) 0 l <= 2 ^ 53 ->
             fold_left (fun acc size => number_add acc (cell row size)) l acc =
             acc + foldr (fun s a => cell row s + a) 0 l).
  { induction l as [|s l IH]; intros acc Hb; cbn [fold_left foldr] in Hb |- *; [lia|].
    assert (Hl : 0 <= foldr (fun s a => Z.abs (cell row s) + a) 0 l).
    { clear. induction l as [|t l IH]; cbn [foldr]; lia. }
    rewrite number_add_exact by lia. rewrite IH by lia. lia. }
  intros Hb. rewrite H by lia. lia.
Qed.

(** Beyond 2^53 it is not always: 2^53, 1 and 1 make 2^53. *)
Lemma sizes_total_rounds :
  let row : gmap string Z := <["XS" := 2 ^ 53]> (<["SMALL" := 1]> (<["MEDIUM" := 1]> zero_row)) in
  Products.sizes_total row = 2 ^ 53 /\ sizes_sum row = 2 ^ 53 + 2.
Proof. vm_compute. split; reflexivity. Qed.

Lemma row_magnitude_zero_row : row_magnitude zero_row = 0.
Proof. vm_compute. reflexivity. Qed.

Lemma row_magnitude_sum_assign (row : gmap string Z) (size : string) (q : Z) :
  row_magnitude (sum_assign row size q) <= row_magnitude row + Z.abs q.
Proof.
  unfold row_magnitude, ORDERED_SIZES. cbn [foldr]. rewrite !cell_sum_assign.
  destruct (decide (size = "XS")) as [->|?];
    [repeat (case_decide; [try discriminate | try congruence]); lia|].
  destruct (decide (size = "SMALL")) as [->|?];
    [repeat (case_decide; [try discriminate | try congruence]); lia|].
  destruct (decide (size = "MEDIUM")) as [->|?];
    [repeat (case_decide; [try discriminate | try congruence]); lia|].
  destruct (decide (size = "LARGE")) as [->|?];
    [repeat (case_decide; [try discriminate | try congruence]); lia|].
  destruct (decide (size = "XL")) as [->|?];
    [repeat (case_decide; [try discriminate | try congruence]); lia|].
  destruct (decide (size = "2XL")) as [->|?];
    [repeat (case_decide; [try discriminate | try congruence]); lia|].
  destruct (decide (size = "3XL")) as [->|?];
    [repeat (case_decide; [try discriminate | try congruence]); lia|].
  lia.
Qed.

(** The cells of a row are within the magnitude of the items. *)
Lemma table_row_magnitude (key : ParsedItem -> string) (items : list ParsedItem)
    (k : string) (row : gmap string Z) :
  table_of key items !! k = Some row -> row_magnitude row <= magnitude items.
Proof.
  revert k row. induction items as [|x items IH] using rev_ind; intros k row.
  - unfold table_of. cbn [fold_left]. rewrite lookup_empty. discriminate.
  - rewrite table_of_snoc, magnitude_snoc. unfold table_step, canonical.
    pose proof (magnitude_nonneg items) as Hpos.
    case_bool_decide as Hcan.
    2:{ rewrite decide_False by exact Hcan. intros H. specialize (IH _ _ H). lia. }
    rewrite decide_True by exact Hcan. unfold sum_to_table.
    destruct (table_of key items !! key x) as [row0|] eqn:E.
    + rewrite lookup_insert. case_decide as Hk.
      * intros [= <-]. pose proof (IH _ _ E).
        pose proof (row_magnitude_sum_assign row0 (item_size x) (quantity x)). lia.
      * intros H. specialize (IH _ _ H). lia.
    + case_bool_decide as Hproto.
      * intros H. specialize (IH _ _ H). lia.
      * rewrite lookup_insert. case_decide as Hk.
        -- intros [= <-].
           pose proof (row_magnitude_sum_assign zero_row (item_size x) (quantity x)).
           rewrite row_magnitude_zero_row in *. lia.
        -- intros H. specialize (IH _ _ H). lia.
Qed.

(** The cells of a table, summed by rows or by columns. *)
Lemma rows_total_columns (table : gmap string (gmap string Z)) :
  rows_total (map_to_list table) =
  foldr (fun s acc => column_sum s table + acc) 0 ORDERED_SIZES.
Proof.
  unfold rows_total, column_sum, ORDERED_SIZES. cbn [foldr].
  rewrite !map_fold_foldr.
  induction (map_to_list table) as [|[k row] l IH]; [reflexivity|].
  cbn [map foldr count_sum uncurry snd]. unfold count_sum in IH. 
  unfold sizes_sum at 1, ORDERED_SIZES. cbn [foldr]. lia.
Qed.

Lemma totals_column_sum (items : list ParsedItem) (s : string) :
  s ∈ ORDERED_SIZES ->
  cell (totals_of items) s = column_sum s (table_of rowKey_of items).
Proof.
  intros Hs. unfold cell. rewrite (totals_tally items s Hs). cbn [default from_option id].
  rewrite (table_column_sum rowKey_of items s Hs).
  f_equal. apply list_filter_iff. intros item. split; [|tauto].
  intros H. split; [exact H | apply rowKey_not_inherited].
Qed.

(** Within 2^53 the grand total is the sum of all the cells of [products]. *)
Lemma grandTotal_rows_total (items : list ParsedItem) (orders0 : list Order) :
  magnitude items <= 2 ^ 53 ->
  grandTotal (aggregateData items orders0) =
  rows_total (map_to_list (products (aggregateData items orders0))).
Proof.
  intros Hm. rewrite rows_total_columns, (aggregateData_unfold _ _ Hm).
  cbn [grandTotal products].
  rewrite <- totals_sizes_sum. unfold sizes_sum, ORDERED_SIZES. cbn [foldr].
  rewrite !totals_column_sum by compute_done. reflexivity.
Qed.

Lemma rows_total_perm (l l' : list (string * gmap string Z)) :
  Permutation l l' -> rows_total l = rows_total l'.
Proof. intros H. unfold rows_total. apply count_sum_perm, Permutation_map, H. Qed.

Section ProductsView.

Variable Object_entries : gmap string (gmap string Z) -> list (string * gmap string Z).
Variable localeCompare : string -> string -> Z.
Variable sortField : Products.SortField.
Variable sortDirection : Products.SortDirection.

Lemma getProcessedProducts_perm (data : AggregatedData) :
  Permutation
    (Products.getProcessedProducts Object_entries localeCompare sortField sortDirection
       (Some data))
    (map Products.entry_of (Object_entries (products data))).
Proof. unfold Products.getProcessedProducts. apply products_sort_perm. Qed.

(** X17.  When [Object.entries] lists the rows of [products], each once:
    the table has one line for each row, under its key, with the total of
    the row ([sizes_total], its seven cells added up as numbers), whatever
    the sort; and when the quantities of the items of canonical size have
    absolute values that add up to 2^53 at most, the total of each line is
    the sum of its seven cells and the totals of the lines add up to the
    grand total. *)
Theorem product_lines_total (items : list ParsedItem) (orders0 : list Order) :
  let data := aggregateData items orders0 in
  let lines :=
    Products.getProcessedProducts Object_entries localeCompare sortField sortDirection
      (Some data) in
  Permutation (Object_entries (products data)) (map_to_list (products data)) ->
  (forall (n : string) (row : gmap string Z) (t : Z),
      {| Products.name := n; Products.sizes := row; Products.total := t |} ∈ lines <->
      products data !! n = Some row /\ t = Products.sizes_total row) /\
  NoDup (map Products.name lines) /\
  (magnitude items <= 2 ^ 53 ->
   (forall line, line ∈ lines -> Products.total line = sizes_sum (Products.sizes line)) /\
   count_sum (map Products.total lines) = grandTotal data).
Proof.
  intros data lines Hperm.
  assert (Hlines : Permutation lines (map Products.entry_of (map_to_list (products data)))).
  { unfold lines. rewrite getProcessedProducts_perm, Hperm. reflexivity. }
  split; [|split].
  - intros n row t. rewrite Hlines, list_elem_of_fmap. split.
    + intros [[k r] [Heq Hin]]. apply elem_of_map_to_list in Hin.
      unfold Products.entry_of in Heq. cbn [fst snd] in Heq.
      injection Heq as -> -> ->. split; [exact Hin | reflexivity].
    + intros [Hrow ->]. exists (n, row). split; [reflexivity|].
      apply elem_of_map_to_list, Hrow.
  - rewrite Hlines. rewrite <- list_fmap_compose.
    apply (NoDup_fst_map_to_list (products data)).
  - intros Hm.
    assert (Hrow : forall k r, (k, r) ∈ map_to_list (products data) ->
                               Products.sizes_total r = sizes_sum r).
    { intros k r Hin. apply elem_of_map_to_list in Hin.
      unfold data in Hin. rewrite (aggregateData_unfold _ _ Hm) in Hin. cbn [products] in Hin.
      apply sizes_total_sum. pose proof (table_row_magnitude _ _ _ _ Hin). lia. }
    split.
    + intros line. rewrite Hlines, list_elem_of_fmap.
      intros [[k r] [-> Hin]]. unfold Products.entry_of.
      cbn [Products.total Products.sizes fst snd]. exact (Hrow k r Hin).
    + rewrite (count_sum_perm _ _ (Permutation_map Products.total Hlines)).
      unfold data at 2. rewrite (grandTotal_rows_total _ _ Hm). unfold rows_total.
      rewrite <- list_fmap_compose. f_equal. apply list_fmap_ext.
      intros i [k r] Hi. unfold compose, Products.entry_of.
      cbn [Products.total fst snd]. apply (Hrow k r).
      apply list_elem_of_lookup. exists i. exact Hi.
Qed.

End ProductsView.

Lemma product_lines_total_witness :
  let items := [ {| item_id := "0-Tee - L / Black"; productName := "Tee";
                    color := "Black"; item_size := "LARGE"; quantity := 2 |};
                 {| item_id := "1-Hat - S / Red"; productName := "Hat";
                    color := "Red"; item_size := "SMALL"; quantity := 3 |} ] in
  count_sum (map Products.total
               (Products.getProcessedProducts map_to_list (fun _ _ => 0)
                  Products.by_total Products.desc (Some (aggregateData items [])))) =
  grandTotal (aggregateData items []).
Proof.
  intros items.
  destruct (product_lines_total map_to_list (fun _ _ => 0) Products.by_total Products.desc
              items [] (Permutation_refl _)) as (_ & _ & H).
  destruct H as [_ H]; [vm_compute; discriminate|]. exact H.
Defined.

(** ** The progress of the checklist: [getProgressStats] *)

Lemma quantity_sum_nonneg (items : list ParsedItem) :
  (forall item, item ∈ items -> 0 <= quantity item) -> 0 <= quantity_sum items.
Proof.
  induction items as [|x items IH]; intros H; [reflexivity|].
  unfold quantity_sum in *. cbn [foldr].
  pose proof (H x (list_elem_of_here _ _)) as Hx.
  assert (0 <= foldr (fun item acc => quantity item + acc) 0 items); [|lia].
  apply IH. intros item Hin. apply H, list_elem_of_further, Hin.
Qed.

(** With no negative quantity among the items, within 2^53, no cell of
    [products] is negative. *)
Lemma products_cells_nonneg (items : list ParsedItem) (orders0 : list Order)
    (k : string) (row : gmap string Z) (s : string) :
  magnitude items <= 2 ^ 53 ->
  (forall item, item ∈ items -> 0 <= quantity item) ->
  products (aggregateData items orders0) !! k = Some row ->
  s ∈ ORDERED_SIZES -> 0 <= cell row s.
Proof.
  intros Hm Hq Hrow Hs. rewrite (aggregateData_unfold _ _ Hm) in Hrow. cbn [products] in Hrow.
  destruct (table_rows_full rowKey_of items) as [H _].
  destruct (H _ _ Hrow) as [_ Hcells]. unfold cell. rewrite (Hcells s Hs). cbn.
  apply quantity_sum_nonneg. intros item [_ Hin]%list_elem_of_filter. apply Hq, Hin.
Qed.

Section Progress.

Variable Object_entries : gmap string (gmap string Z) -> list (string * gmap string Z).
Variable checkedCells : gmap string Checklist.CheckedVal.

(** The copy of the count in [exportData] and [getProgressStats] is
    [getCellCount]. *)
Lemma count_done_getCellCount (rowName size : string) (qty : Z) :
  Products.count_done checkedCells rowName size qty =
  Checklist.getCellCount checkedCells rowName size qty.
Proof.
  unfold Products.count_done, Checklist.getCellCount. cbv zeta.
  destruct (checkedCells !! _) as [[n|[|]]|]; reflexivity.
Qed.

Lemma getCellCount_nonneg (rowName size : string) (qty : Z) :
  counts_not_negative checkedCells -> 0 <= qty ->
  0 <= Checklist.getCellCount checkedCells rowName size qty.
Proof.
  intros Hc Hq. unfold Checklist.getCellCount. cbv zeta.
  destruct (checkedCells !! _) as [[n|[|]]|] eqn:E; [exact (Hc _ _ E) | exact Hq | lia | lia].
Qed.

(** One cell: what is counted is not negative and at most the cell, and
    is the cell exactly when the cell is empty or done. *)
Lemma progress_cell_step (rowName : string) (row : gmap string Z) (acc : Z) (s : string) :
  counts_not_negative checkedCells -> 0 <= cell row s -> 0 <= acc -> acc + cell row s <= 2 ^ 53 ->
  let next := Products.progress_cell checkedCells rowName row acc s in
  acc <= next <= acc + cell row s /\
  (next = acc + cell row s <->
   (0 < cell row s ->
    cell row s <= Checklist.getCellCount checkedCells rowName s (cell row s))).
Proof.
  intros Hc Hs Hacc Hb. cbv zeta. unfold Products.progress_cell. cbv zeta.
  rewrite count_done_getCellCount.
  pose proof (getCellCount_nonneg rowName s (cell row s) Hc Hs) as Hn.
  destruct (Z.ltb_spec 0 (cell row s)); [|lia].
  rewrite number_add_exact by lia. lia.
Qed.

(** The cells of one row. *)
Lemma progress_row (rowName : string) (row : gmap string Z) (l : list string) (acc : Z) :
  counts_not_negative checkedCells ->
  (forall s, s ∈ l -> 0 <= cell row s) ->
  let sum := foldr (fun s a => cell row s + a) 0 l in
  let done := fold_left (Products.progress_cell checkedCells rowName row) l acc in
  0 <= acc -> acc + sum <= 2 ^ 53 ->
  acc <= done <= acc + sum /\
  (done = acc + sum <->
   forall s, s ∈ l -> 0 < cell row s ->
             cell row s <= Checklist.getCellCount checkedCells rowName s (cell row s)).
Proof.
  intros Hc. cbv zeta. revert acc. induction l as [|s l IH]; intros acc Hpos Hacc Hb.
  - cbn [fold_left foldr]. split; [lia|]. split; [|lia].
    intros _ s Hs. inversion Hs.
  - cbn [fold_left foldr] in Hb |- *.
    assert (Hl : forall s, s ∈ l -> 0 <= cell row s).
    { intros s' Hs'. apply Hpos, list_elem_of_further, Hs'. }
    pose proof (Hpos s (list_elem_of_here _ _)) as Hs.
    assert (Hsum : 0 <= foldr (fun s a => cell row s + a) 0 l).
    { clear - Hl. induction l as [|t l IH]; cbn [foldr]; [lia|].
      pose proof (Hl t (list_elem_of_here _ _)).
      assert (0 <= foldr (fun s a => cell row s + a) 0 l); [|lia].
      apply IH. intros s' Hs'. apply Hl, list_elem_of_further, Hs'. }
    destruct (progress_cell_step rowName row acc s Hc Hs Hacc ltac:(lia)) as [Hstep1 Hstep2].
    destruct (IH (Products.progress_cell checkedCells rowName row acc s) Hl ltac:(lia)
                ltac:(lia)) as [Hle Heq].
    set (done := fold_left _ l _) in *.
    set (sum := foldr _ 0 l) in *.
    split; [lia|]. split.
    + intros Hd s' [->|Hin]%elem_of_cons.
      * apply Hstep2. lia.
      * apply Heq; [lia | exact Hin].
    + intros Hall.
      assert (H1 : Products.progress_cell checkedCells rowName row acc s = acc + cell row s).
      { apply Hstep2. apply Hall, list_elem_of_here. }
      assert (H2 : done = Products.progress_cell checkedCells rowName row acc s + sum).
      { apply Heq. intros s' Hs'. apply Hall, list_elem_of_further, Hs'. }
      lia.
Qed.

Lemma sizes_sum_nonneg (row : gmap string Z) :
  (forall s, s ∈ ORDERED_SIZES -> 0 <= cell row s) -> 0 <= sizes_sum row.
Proof.
  intros H. unfold sizes_sum. induction ORDERED_SIZES as [|t l IH]; cbn [foldr]; [lia|].
  pose proof (H t (list_elem_of_here _ _)).
  assert (0 <= foldr (fun s acc => cell row s + acc) 0 l); [|lia].
  apply IH. intros s' Hs'. apply H, list_elem_of_further, Hs'.
Qed.

(** The rows of a listing. *)
Lemma progress_rows (rows : list (string * gmap string Z)) (acc : Z) :
  counts_not_negative checkedCells ->
  (forall e s, e ∈ rows -> s ∈ ORDERED_SIZES -> 0 <= cell e.2 s) ->
  let done :=
    fold_left
      (fun acc e => fold_left (Products.progress_cell checkedCells e.1 e.2)
                      ORDERED_SIZES_KEYS acc) rows acc in
  0 <= acc -> acc + rows_total rows <= 2 ^ 53 ->
  acc <= done <= acc + rows_total rows /\
  (done = acc + rows_total rows <->
   forall e s, e ∈ rows -> s ∈ ORDERED_SIZES -> 0 < cell e.2 s ->
               cell e.2 s <= Checklist.getCellCount checkedCells e.1 s (cell e.2 s)).
Proof.
  intros Hc. cbv zeta. revert acc. induction rows as [|e rows IH]; intros acc Hpos Hacc Hb.
  - cbn [fold_left]. unfold rows_total, count_sum. cbn [map foldr]. split; [lia|].
    split; [|lia]. intros _ e s He. inversion He.
  - cbn [fold_left].
    assert (Hrows : forall e s, e ∈ rows -> s ∈ ORDERED_SIZES -> 0 <= cell e.2 s).
    { intros e' s He' Hs. apply Hpos; [apply list_elem_of_further, He' | exact Hs]. }
    assert (He : forall s, s ∈ ORDERED_SIZES -> 0 <= cell e.2 s).
    { intros s Hs. apply Hpos; [apply list_elem_of_here | exact Hs]. }
    assert (Ht : rows_total (e :: rows) = sizes_sum e.2 + rows_total rows) by reflexivity.
    rewrite Ht in Hb |- *.
    assert (Hrest : 0 <= rows_total rows).
    { clear - Hrows. induction rows as [|r rows IH].
      - unfold rows_total, count_sum. cbn. lia.
      - assert (Hr : rows_total (r :: rows) = sizes_sum r.2 + rows_total rows) by reflexivity.
        rewrite Hr.
        assert (0 <= sizes_sum r.2).
        { apply sizes_sum_nonneg. intros s Hs. apply Hrows; [apply list_elem_of_here | exact Hs]. }
        assert (0 <= rows_total rows); [|lia].
        apply IH. intros e' s He' Hs. apply Hrows; [apply list_elem_of_further, He' | exact Hs]. }
    pose proof (sizes_sum_nonneg e.2 He) as Hrow.
    destruct (progress_row e.1 e.2 ORDERED_SIZES acc Hc He Hacc) as [Hle1 Heq1].
    { fold (sizes_sum e.2). lia. }
    fold (sizes_sum e.2) in Hle1, Heq1.
    change ORDERED_SIZES_KEYS with ORDERED_SIZES.
    set (acc1 := fold_left _ ORDERED_SIZES acc) in *.
    destruct (IH acc1 Hrows ltac:(lia) ltac:(lia)) as [Hle Heq].
    set (done := fold_left _ rows acc1) in *.
    split; [lia|]. split.
    + intros Hd e' s [->|Hin]%elem_of_cons Hs Hq.
      * apply Heq1; [lia | exact Hs | exact Hq].
      * apply Heq; [lia | exact Hin | exact Hs | exact Hq].
    + intros Hall.
      assert (H1 : acc1 = acc + sizes_sum e.2).
      { apply Heq1. intros s Hs. apply Hall; [apply list_elem_of_here | exact Hs]. }
      assert (H2 : done = acc1 + rows_total rows).
      { apply Heq. intros e' s He' Hs. apply Hall; [apply list_elem_of_further, He' | exact Hs]. }
      lia.
Qed.

(** X18.  When no item has a negative quantity, the quantities of the
    items of canonical size add up to 2^53 at most, no count kept in
    [checkedCells] is negative and [Object.entries] lists the rows of
    [products], each once: the count done is at most the total count, and
    it is the total count exactly when every cell with a quantity shows as
    done in the table ([current >= qty]). *)
Theorem progress_bounded (items : list ParsedItem) (orders0 : list Order) :
  let data := aggregateData items orders0 in
  let stats := Products.getProgressStats Object_entries checkedCells (Some data) in
  (forall item, item ∈ items -> 0 <= quantity item) ->
  magnitude items <= 2 ^ 53 ->
  counts_not_negative checkedCells ->
  Permutation (Object_entries (products data)) (map_to_list (products data)) ->
  Products.totalCount stats = grandTotal data /\
  0 <= Products.checkedCount stats <= Products.totalCount stats /\
  (Products.checkedCount stats = Products.totalCount stats <->
   forall (rowName : string) (row : gmap string Z) (size : string),
     products data !! rowName = Some row -> size ∈ ORDERED_SIZES -> 0 < cell row size ->
     cell row size <= Checklist.getCellCount checkedCells rowName size (cell row size)).
Proof.
  intros data stats Hq Hm Hc Hperm. unfold stats, Products.getProgressStats.
  cbn [Products.totalCount Products.checkedCount]. split; [reflexivity|].
  assert (Hin : forall e, e ∈ Object_entries (products data) <-> products data !! e.1 = Some e.2).
  { intros [k row]. rewrite Hperm. apply elem_of_map_to_list. }
  assert (Hpos : forall e s, e ∈ Object_entries (products data) -> s ∈ ORDERED_SIZES ->
                             0 <= cell e.2 s).
  { intros e s He Hs. apply Hin in He.
    exact (products_cells_nonneg items orders0 _ _ s Hm Hq He Hs). }
  assert (Ht : grandTotal data = 0 + rows_total (Object_entries (products data))).
  { rewrite (rows_total_perm _ _ Hperm). unfold data.
    rewrite (grandTotal_rows_total _ _ Hm). lia. }
  assert (Hg : grandTotal data <= 2 ^ 53).
  { unfold data. rewrite (aggregateData_unfold _ _ Hm). cbn [grandTotal].
    pose proof (quantity_sum_bound canonical items (fun _ H => H)). lia. }
  destruct (progress_rows (Object_entries (products data)) 0 Hc Hpos ltac:(lia) ltac:(lia))
    as [Hle Heq].
  rewrite Ht. split; [exact Hle|]. rewrite Heq. split.
  - intros H rowName row size Hrow. apply (H (rowName, row)). apply Hin, Hrow.
  - intros H [k row] s He. apply H. apply Hin in He. exact He.
Qed.

(** X19.  The count done is not negative when no count kept in
    [checkedCells] is, whatever the data and however large the quantities;
    it is 0 when there is no data. *)
Theorem progress_not_negative (data : option AggregatedData) :
  counts_not_negative checkedCells ->
  0 <= Products.checkedCount (Products.getProgressStats Object_entries checkedCells data) /\
  Products.checkedCount (Products.getProgressStats Object_entries checkedCells None) = 0.
Proof.
  intros Hc. split; [|reflexivity]. destruct data as [d|]; [|reflexivity].
  unfold Products.getProgressStats. cbn [Products.checkedCount].
  assert (Hcell : forall n row acc s,
             0 <= acc -> 0 <= Products.progress_cell checkedCells n row acc s).
  { intros n row acc s Hacc. unfold Products.progress_cell. cbv zeta.
    rewrite count_done_getCellCount.
    destruct (Z.ltb_spec 0 (cell row s)); [|exact Hacc].
    apply number_add_nonneg; [exact Hacc|].
    pose proof (getCellCount_nonneg n s (cell row s) Hc ltac:(lia)). lia. }
  assert (Hrow : forall n row l acc,
             0 <= acc -> 0 <= fold_left (Products.progress_cell checkedCells n row) l acc).
  { intros n row l. induction l as [|s l IH]; intros acc Hacc; [exact Hacc|].
    cbn [fold_left]. apply IH, Hcell, Hacc. }
  generalize (Object_entries (products d)) as rows. intros rows.
  assert (H : forall acc, 0 <= acc ->
             0 <= fold_left
                    (fun acc e => fold_left (Products.progress_cell checkedCells e.1 e.2)
                                    ORDERED_SIZES_KEYS acc) rows acc); [|apply H; lia].
  induction rows as [|e rows IH]; intros acc Hacc; [exact Hacc|].
  cbn [fold_left]. apply IH, Hrow, Hacc.
Qed.

End Progress.

Lemma progress_bounded_witness :
  let items := [ {| item_id := "0-Tee - L / Black"; productName := "Tee";
                    color := "Black"; item_size := "LARGE"; quantity := 2 |};
                 {| item_id := "1-Hat - S / Red"; productName := "Hat";
                    color := "Red"; item_size := "SMALL"; quantity := 3 |} ] in
  let checkedCells : gmap string Checklist.CheckedVal :=
    {[ "Tee - Black_LARGE" := Checklist.Count 5; "Hat - Red_SMALL" := Checklist.Count 1 ]} in
  let stats := Products.getProgressStats map_to_list checkedCells
                 (Some (aggregateData items [])) in
  0 <= Products.checkedCount stats <= Products.totalCount stats.
Proof.
  intros items checkedCells.
  assert (Hq : forall item, item ∈ items -> 0 <= quantity item).
  { intros item Hin. unfold items in Hin.
    repeat (apply elem_of_cons in Hin as [->|Hin]; [cbn; lia|]). inversion Hin. }
  assert (Hm : magnitude items <= 2 ^ 53) by (vm_compute; discriminate).
  assert (Hc : counts_not_negative checkedCells).
  { intros k n H. unfold checkedCells in H.
    apply lookup_insert_Some in H as [[_ [= <-]]|[_ H]]; [lia|].
    apply lookup_singleton_Some in H as [_ [= <-]]. lia. }
  exact (proj1 (proj2 (progress_bounded map_to_list checkedCells items [] Hq Hm Hc
                         (Permutation_refl _)))).
Defined.

Lemma progress_not_negative_witness :
  let items := [ {| item_id := "0-Tee - L / Black"; productName := "Tee";
                    color := "Black"; item_size := "LARGE"; quantity := 2 |};
                 {| item_id := "1-Hat - S / Red"; productName := "Hat";
                    color := "Red"; item_size := "SMALL"; quantity := 3 |} ] in
  let checkedCells : gmap string Checklist.CheckedVal :=
    {[ "Tee - Black_LARGE" := Checklist.Count 1 ]} in
  0 <= Products.checkedCount
         (Products.getProgressStats map_to_list checkedCells (Some (aggregateData items []))).
Proof.
  intros items checkedCells.
  assert (Hc : counts_not_negative checkedCells).
  { intros k n H. apply lookup_singleton_Some in H as [_ [= <-]]. lia. }
  exact (proj1 (progress_not_negative map_to_list checkedCells
                  (Some (aggregateData items [])) Hc)).
Defined.

(** The hypothesis on the quantities is needed: a row with a negative
    quantity lowers the total count and not the count done. *)
Lemma progress_can_exceed_total :
  let items := [ {| item_id := "0-Tee - L / Black"; productName := "Tee";
                    color := "Black"; item_size := "LARGE"; quantity := 5 |};
                 {| item_id := "1-Hat - L / Red"; productName := "Hat";
                    color := "Red"; item_size := "LARGE"; quantity := -3 |} ] in
  let checkedCells : gmap string Checklist.CheckedVal :=
    {[ "Tee - Black_LARGE" := Checklist.Count 5 ]} in
  let stats := Products.getProgressStats map_to_list checkedCells
                 (Some (aggregateData items [])) in
  Products.checkedCount stats = 5 /\ Products.totalCount stats = 2.
Proof. vm_compute. split; reflexivity. Qed.

(** So is the bound: with the quantities 2^53, 1 and 1 all done, the count
    done is 2^53 + 2 and the total count 2^53. *)
Lemma progress_can_exceed_total_by_rounding :
  let items := [ {| item_id := "0-Tee - XS / Red"; productName := "Tee";
                    color := "Red"; item_size := "XS"; quantity := 2 ^ 53 |};
                 {| item_id := "1-Cap - XS / Red"; productName := "Cap";
                    color := "Red"; item_size := "XS"; quantity := 1 |};
                 {| item_id := "2-Cap - XS / Red"; productName := "Cap";
                    color := "Red"; item_size := "XS"; quantity := 1 |} ] in
  let checkedCells : gmap string Checklist.CheckedVal :=
    {[ "Tee - Red_XS" := Checklist.Legacy true; "Cap - Red_XS" := Checklist.Legacy true ]} in
  let stats := Products.getProgressStats map_to_list checkedCells
                 (Some (aggregateData items [])) in
  Products.checkedCount stats = 2 ^ 53 + 2 /\ Products.totalCount stats = 2 ^ 53.
Proof. vm_compute. split; reflexivity. Qed.

(** ** The sort of the product table and the quick statistics *)







(** ** The export: [exportData] *)

Lemma all_chars_app (p : ascii -> bool) (a b : string) :
  all_chars p (a +:+ b) = all_chars p a && all_chars p b.
Proof.
  induction a as [|c a IH]; [reflexivity|].
  change (String c a +:+ b) with (String c (a +:+ b)). cbn [all_chars].
  rewrite IH. apply andb_assoc.
Qed.

Lemma all_chars_impl (p q : ascii -> bool) (s : string) :
  (forall c, p c = true -> q c = true) -> all_chars p s = true -> all_chars q s = true.
Proof.
  intros Hpq. induction s as [|c s IH]; [reflexivity|]. cbn [all_chars].
  intros [Hc Hs]%andb_true_iff. rewrite (Hpq _ Hc), (IH Hs). reflexivity.
Qed.

Lemma digit_not_comma (c : ascii) : JsString.is_digit c = true -> not_comma c = true.
Proof. destruct c as [[] [] [] [] [] [] [] []]; vm_compute; intros H; first [reflexivity | discriminate H]. Qed.

Lemma number_toString_no_comma (n : Z) : all_chars not_comma (number_toString n) = true.
Proof.
  unfold number_toString. destruct (Z.to_int n) as [d|d]; cbn [NilEmpty.string_of_int].
  - apply (all_chars_impl JsString.is_digit), string_of_uint_digits. apply digit_not_comma.
  - cbn [all_chars]. change (not_comma "-") with true. cbn [andb].
    apply (all_chars_impl JsString.is_digit), string_of_uint_digits. apply digit_not_comma.
Qed.

Lemma without_commas_no_comma (s : string) :
  all_chars not_comma (Products.without_commas s) = true.
Proof.
  unfold Products.without_commas. induction s as [|c s IH]; [reflexivity|].
  cbn [JsString.filter_chars]. destruct (negb (Ascii.eqb c ",")) eqn:E; [|exact IH].
  cbn [all_chars]. unfold not_comma at 1. rewrite E, IH. reflexivity.
Qed.

Lemma split_go_comma_free (f : string) :
  all_chars not_comma f = true -> JsString.split_go "," 0 f = (f, []).
Proof.
  induction f as [|c f IH]; [reflexivity|]. cbn [all_chars].
  intros [Hc Hf]%andb_true_iff. cbn [JsString.split_go].
  assert (Hp : String.prefix "," (String c f) = false).
  { cbn [String.prefix]. destruct (Ascii.ascii_dec "," c) as [<-|]; [discriminate Hc|reflexivity]. }
  rewrite Hp, (IH Hf). reflexivity.
Qed.

Lemma split_go_comma_field (f r : string) :
  all_chars not_comma f = true ->
  JsString.split_go "," 0 (f +:+ String "," r) =
  (f, (JsString.split_go "," 0 r).1 :: (JsString.split_go "," 0 r).2).
Proof.
  induction f as [|c f IH].
  - intros _. change ("" +:+ String "," r) with (String "," r).
    cbn [JsString.split_go].
    assert (Hp : String.prefix "," (String "," r) = true) by (destruct r; reflexivity).
    rewrite Hp. cbn [String.length Nat.sub].
    destruct (JsString.split_go "," 0 r). reflexivity.
  - cbn [all_chars]. intros [Hc Hf]%andb_true_iff.
    change (String c f +:+ String "," r) with (String c (f +:+ String "," r)).
    cbn [JsString.split_go].
    assert (Hp : String.prefix "," (String c (f +:+ String "," r)) = false).
    { cbn [String.prefix]. destruct (Ascii.ascii_dec "," c) as [<-|]; [discriminate Hc|reflexivity]. }
    rewrite Hp, (IH Hf). reflexivity.
Qed.

(** Fields without a comma, joined with commas, split into themselves. *)
Lemma split_join_commas (f : string) (fields : list string) :
  Forall (fun x => all_chars not_comma x = true) (f :: fields) ->
  JsString.split (JsString.join (f :: fields) ",") "," = f :: fields.
Proof.
  unfold JsString.split, JsString.join. revert f.
  induction fields as [|g fields IH]; intros f Hall.
  - cbn [String.concat]. rewrite split_go_comma_free; [reflexivity|].
    exact (Forall_inv Hall).
  - change (String.concat "," (f :: g :: fields))
      with (f +:+ String "," (String.concat "," (g :: fields))).
    rewrite split_go_comma_field by exact (Forall_inv Hall).
    specialize (IH g (Forall_inv_tail Hall)).
    destruct (JsString.split_go "," 0 (String.concat "," (g :: fields))) as [h t].
    cbn [fst snd]. rewrite IH. reflexivity.
Qed.

Lemma string_app_nil (s : string) : s +:+ "" = s.
Proof.
  induction s as [|c s IH]; [reflexivity|].
  change (String c (s +:+ "") = String c s). f_equal. exact IH.
Qed.

Lemma concat_empty_cons (x : string) (l : list string) :
  String.concat "" (x :: l) = x +:+ String.concat "" l.
Proof.
  destruct l as [|y l]; [symmetry; apply string_app_nil | reflexivity].
Qed.

Lemma fold_left_append {A} (g : A -> string) (l : list A) (init : string) :
  fold_left (fun acc x => acc +:+ g x) l init = init +:+ String.concat "" (map g l).
Proof.
  revert init. induction l as [|x l IH]; intros init.
  - symmetry. apply string_app_nil.
  - cbn [fold_left map]. rewrite IH, string_app_assoc, concat_empty_cons. reflexivity.
Qed.

Section ExportText.

Variable Object_entries : gmap string (gmap string Z) -> list (string * gmap string Z).
Variable localeCompare : string -> string -> Z.
Variable sortField : Products.SortField.
Variable sortDirection : Products.SortDirection.
Variable checkedCells : gmap string Checklist.CheckedVal.

Lemma export_cell_no_comma (withProgress : bool) (item : Products.Entry) (size : string) :
  all_chars not_comma (Products.export_cell checkedCells withProgress item size) = true.
Proof.
  unfold Products.export_cell. cbv zeta.
  destruct (withProgress && _); [|apply number_toString_no_comma].
  destruct (_ <=? _).
  - rewrite !all_chars_app, number_toString_no_comma. reflexivity.
  - destruct (0 <? _); [|apply number_toString_no_comma].
    rewrite !all_chars_app, !number_toString_no_comma. reflexivity.
Qed.

(** X22.  The text of the export is the header line and then one line for
    each line of the product table, in the order of the table, each ended
    by a line feed; every line splits at its commas into nine fields, the
    fields it was made of, whatever commas the name of the product had. *)
Theorem export_lines (withProgress : bool) (data : AggregatedData) :
  let lines :=
    Products.getProcessedProducts Object_entries localeCompare sortField sortDirection
      (Some data) in
  let fields := Products.export_fields checkedCells withProgress in
  Products.exportData_content Object_entries localeCompare sortField sortDirection
    checkedCells withProgress data =
  "data:text/csv;charset=utf-8," +:+
  String.concat ""
    (map (fun l => JsString.join l "," +:+ newline)
       (Products.export_header :: map fields lines)) /\
  JsString.split (JsString.join Products.export_header ",") "," = Products.export_header /\
  forall item : Products.Entry,
    List.length (fields item) = 9%nat /\
    JsString.split (JsString.join (fields item) ",") "," = fields item.
Proof.
  intros lines fields. split; [|split].
  - unfold Products.exportData_content. fold lines.
    rewrite (fold_left_append
               (fun item => JsString.join (Products.export_fields checkedCells withProgress item) ","
                            +:+ newline)).
    rewrite string_app_assoc. f_equal.
    cbn [map]. rewrite concat_empty_cons, map_map. reflexivity.
  - reflexivity.
  - intros item. split; [reflexivity|].
    unfold fields, Products.export_fields. cbn [app].
    apply split_join_commas. constructor; [apply without_commas_no_comma|].
    unfold ORDERED_SIZES_KEYS, ORDERED_SIZES. cbn [map app].
    repeat (constructor; [first [apply export_cell_no_comma | apply number_toString_no_comma]|]).
    constructor.
Qed.

End ExportText.

(** ** The patterns that find the columns of the shipping report *)

Lemma toLowerCase_app (a b : string) :
  JsString.toLowerCase (a +:+ b) = JsString.toLowerCase a +:+ JsString.toLowerCase b.
Proof.
  unfold JsString.toLowerCase. induction a as [|c a IH]; [reflexivity|].
  change (String c a +:+ b) with (String c (a +:+ b)). cbn [JsString.map_chars].
  rewrite IH. reflexivity.
Qed.

Lemma includes_suffix (pre s needle : string) :
  JsString.includes s needle = true -> JsString.includes (pre +:+ s) needle = true.
Proof.
  intros H. induction pre as [|c pre IH]; [exact H|].
  change (String c pre +:+ s) with (String c (pre +:+ s)).
  cbn [JsString.includes]. rewrite IH. apply orb_true_r.
Qed.

(** A literal matches at the start of [s] when its lower-cased text starts
    the lower-cased [s]. *)
Lemma strip_prefix_ci_prefix (lit s : string) :
  match JsRegExp.strip_prefix_ci lit s with Some _ => true | None => false end =
  String.prefix (JsString.toLowerCase lit) (JsString.toLowerCase s).
Proof.
  unfold JsString.toLowerCase. revert s. induction lit as [|a lit IH]; intros [|b s].
  - reflexivity.
  - reflexivity.
  - reflexivity.
  - cbn [JsRegExp.strip_prefix_ci JsString.map_chars String.prefix].
    destruct (Ascii.eqb_spec (JsString.lower_char a) (JsString.lower_char b)) as [E|E].
    + rewrite E. destruct (Ascii.ascii_dec _ _) as [_|Hn]; [apply IH | contradiction].
    + destruct (Ascii.ascii_dec _ _) as [Hy|_]; [contradiction | reflexivity].
Qed.

Lemma matches_here_Lit (lit s : string) :
  JsRegExp.matches_here (JsRegExp.Lit lit) s =
  String.prefix (JsString.toLowerCase lit) (JsString.toLowerCase s).
Proof.
  rewrite <- strip_prefix_ci_prefix. unfold JsRegExp.matches_here.
  cbn [JsRegExp.match_here]. destruct (JsRegExp.strip_prefix_ci lit s); reflexivity.
Qed.

Lemma test_Lit (lit s : string) :
  JsRegExp.test (JsRegExp.Lit lit) s =
  JsString.includes (JsString.toLowerCase s) (JsString.toLowerCase lit).
Proof.
  induction s as [|c s IH].
  - cbn [JsRegExp.test]. rewrite matches_here_Lit. reflexivity.
  - cbn [JsRegExp.test]. rewrite IH, matches_here_Lit. reflexivity.
Qed.

Lemma matches_here_Alt (r1 r2 : JsRegExp.regex) (s : string) :
  JsRegExp.matches_here (JsRegExp.Alt r1 r2) s =
  JsRegExp.matches_here r1 s || JsRegExp.matches_here r2 s.
Proof.
  unfold JsRegExp.matches_here. cbn [JsRegExp.match_here].
  destruct (JsRegExp.match_here r1 s); [|reflexivity].
  destruct (JsRegExp.match_here r2 s); reflexivity.
Qed.

Lemma test_Alt (r1 r2 : JsRegExp.regex) (s : string) :
  JsRegExp.test (JsRegExp.Alt r1 r2) s = JsRegExp.test r1 s || JsRegExp.test r2 s.
Proof.
  induction s as [|c s IH]; cbn [JsRegExp.test]; rewrite matches_here_Alt.
  - rewrite !orb_false_r. reflexivity.
  - rewrite IH.
    destruct (JsRegExp.matches_here r1 _), (JsRegExp.matches_here r2 _),
      (JsRegExp.test r1 s), (JsRegExp.test r2 s); reflexivity.
Qed.

(** What a pattern leaves is the end of what it was given. *)
Lemma match_here_suffix (r : JsRegExp.regex) (s rest : string) :
  rest ∈ JsRegExp.match_here r s -> exists pre, s = pre +:+ rest.
Proof.
  revert s rest. induction r as [lit| |r1 IH1 r2 IH2|r1 IH1 r2 IH2]; intros s rest.
  - cbn [JsRegExp.match_here]. revert s.
    induction lit as [|a lit IH]; intros s.
    + cbn. intros ->%list_elem_of_singleton. exists "". reflexivity.
    + destruct s as [|b s]; cbn [JsRegExp.strip_prefix_ci]; [intros H; inversion H|].
      destruct (Ascii.eqb _ _); [|intros H; inversion H].
      intros H. destruct (IH s H) as [pre ->]. exists (String b pre). reflexivity.
  - cbn [JsRegExp.match_here]. induction s as [|c s IH].
    + cbn. intros ->%list_elem_of_singleton. exists "". reflexivity.
    + cbn [JsRegExp.skip_white_space].
      intros [->|H]%elem_of_cons; [exists ""; reflexivity|].
      destruct (JsString.is_white_space c); [|inversion H].
      destruct (IH H) as [pre ->]. exists (String c pre). reflexivity.
  - cbn [JsRegExp.match_here]. intros H.
    apply list_elem_of_In, in_flat_map in H as [mid [H1 H2]].
    apply list_elem_of_In in H1, H2.
    destruct (IH1 _ _ H1) as [p1 ->]. destruct (IH2 _ _ H2) as [p2 ->].
    exists (p1 +:+ p2). symmetry. apply string_app_assoc.
  - cbn [JsRegExp.match_here]. intros [H|H]%elem_of_app; eauto.
Qed.

Lemma matches_here_Seq (r1 r2 : JsRegExp.regex) (s : string) :
  JsRegExp.matches_here (JsRegExp.Seq r1 r2) s = true ->
  exists mid, mid ∈ JsRegExp.match_here r1 s /\ JsRegExp.matches_here r2 mid = true.
Proof.
  unfold JsRegExp.matches_here. cbn [JsRegExp.match_here].
  destruct (flat_map _ _) as [|x l] eqn:E; [discriminate|]. intros _.
  assert (Hx : In x (flat_map (JsRegExp.match_here r2) (JsRegExp.match_here r1 s))).
  { rewrite E. left. reflexivity. }
  apply in_flat_map in Hx as [mid [H1 H2]]. exists mid.
  split; [apply list_elem_of_In, H1|].
  destruct (JsRegExp.match_here r2 mid); [destruct H2 | reflexivity].
Qed.

(** A pattern of two words with white space between them is found only
    where the second word is. *)
Lemma test_two_words (w1 w2 s : string) :
  JsRegExp.test
    (JsRegExp.Seq (JsRegExp.Lit w1) (JsRegExp.Seq JsRegExp.WsStar (JsRegExp.Lit w2))) s = true ->
  JsString.includes (JsString.toLowerCase s) (JsString.toLowerCase w2) = true.
Proof.
  induction s as [|c s IH]; cbn [JsRegExp.test].
  - rewrite orb_false_r. intros H.
    apply matches_here_Seq in H as [m1 [H1 H]].
    apply matches_here_Seq in H as [m2 [H2 H]].
    apply match_here_suffix in H1 as [p1 E1]. apply match_here_suffix in H2 as [p2 ->].
    rewrite E1, !toLowerCase_app. apply includes_suffix, includes_suffix.
    rewrite <- test_Lit. destruct m2; cbn [JsRegExp.test]; rewrite H; reflexivity.
  - intros [H|H]%orb_true_iff.
    + apply matches_here_Seq in H as [m1 [H1 H]].
      apply matches_here_Seq in H as [m2 [H2 H]].
      apply match_here_suffix in H1 as [p1 E1]. apply match_here_suffix in H2 as [p2 ->].
      rewrite E1, !toLowerCase_app. apply includes_suffix, includes_suffix.
      rewrite <- test_Lit. destruct m2; cbn [JsRegExp.test]; rewrite H; reflexivity.
    + change (JsString.toLowerCase (String c s))
        with (String (JsString.lower_char c) "" +:+ JsString.toLowerCase s).
      apply includes_suffix, IH, H.
Qed.

(** X23.  Which columns of the shipping report are taken: a column is a
    key column exactly when its name mentions "name", in any letter case,
    or has "order", white space or none, and "id"; it is a cost column
    exactly when it mentions "cost", "amount", "price" or "label" or has
    "shipping", white space or none, and "charge". *)
Theorem shipping_columns (h : string) :
  JsRegExp.test nameKey_re h = mentions h "name" || JsRegExp.test order_id_re h /\
  JsRegExp.test costKey_re h =
    JsRegExp.test shipping_charge_re h || mentions h "cost" || mentions h "amount"
    || mentions h "price" || mentions h "label".
Proof.
  unfold nameKey_re, costKey_re, mentions. rewrite !test_Alt, !test_Lit.
  fold order_id_re shipping_charge_re. split.
  - change (JsString.toLowerCase "name") with "name".
    destruct (JsRegExp.test (JsRegExp.Seq (JsRegExp.Lit "order") _) h) eqn:E.
    + apply test_two_words in E. change (JsString.toLowerCase "name") with "name" in E.
      rewrite E. reflexivity.
    + cbn [orb]. apply orb_comm.
  - change (JsString.toLowerCase "cost") with "cost".
    change (JsString.toLowerCase "amount") with "amount".
    change (JsString.toLowerCase "price") with "price".
    change (JsString.toLowerCase "label") with "label".
    rewrite !orb_assoc. reflexivity.
Qed.

(** ** [parseInt] and the decimal text of an integer *)

Lemma trimStart_white_space (ws s : string) :
  all_chars JsString.is_white_space ws = true ->
  JsString.trimStart (ws +:+ s) = JsString.trimStart s.
Proof.
  induction ws as [|c ws IH]; [reflexivity|]. cbn [all_chars].
  intros [Hc Hws]%andb_true_iff.
  change (String c ws +:+ s) with (String c (ws +:+ s)).
  cbn [JsString.trimStart]. rewrite Hc. apply IH, Hws.
Qed.

Lemma take_digits_uint (d : Decimal.uint) (rest : string) :
  starts_with_digit rest = false ->
  JsNumber.take_digits (NilEmpty.string_of_uint d +:+ rest) =
  (list_ascii_of_string (NilEmpty.string_of_uint d), rest).
Proof.
  intros Hrest.
  assert (Hnil : JsNumber.take_digits rest = ([], rest)).
  { destruct rest as [|c rest]; [reflexivity|]. cbn in Hrest |- *. rewrite Hrest. reflexivity. }
  induction d; cbn [NilEmpty.string_of_uint list_ascii_of_string];
    try exact Hnil;
    match goal with
    | |- context [String ?c ?s +:+ rest] =>
        change (String c s +:+ rest) with (String c (s +:+ rest))
    end;
    cbn [JsNumber.take_digits];
    match goal with
    | |- context [JsString.is_digit ?c] => change (JsString.is_digit c) with true
    end;
    cbv iota; rewrite IHd; reflexivity.
Qed.

Lemma digits_value_acc (d : Decimal.uint) (acc : positive) :
  fold_left (fun acc c => 10 * acc + JsNumber.digit_value c)
    (list_ascii_of_string (NilEmpty.string_of_uint d)) (Zpos acc) =
  Zpos (Pos.of_uint_acc d acc).
Proof.
  revert acc.
  induction d; intros acc;
    cbn [NilEmpty.string_of_uint list_ascii_of_string fold_left Pos.of_uint_acc];
    try reflexivity;
    rewrite <- IHd; f_equal;
    match goal with
    | |- context [JsNumber.digit_value ?c] =>
        let v := eval vm_compute in (JsNumber.digit_value c) in
        change (JsNumber.digit_value c) with v
    end; lia.
Qed.

Lemma digits_value_uint (d : Decimal.uint) :
  JsNumber.digits_value (list_ascii_of_string (NilEmpty.string_of_uint d)) =
  Z.of_N (Pos.of_uint d).
Proof.
  unfold JsNumber.digits_value.
  induction d;
    cbn [NilEmpty.string_of_uint list_ascii_of_string fold_left Pos.of_uint];
    try reflexivity;
    match goal with
    | |- context [JsNumber.digit_value ?c] =>
        let v := eval vm_compute in (10 * 0 + JsNumber.digit_value c) in
        change (10 * 0 + JsNumber.digit_value c) with v
    end;
    first [exact IHd | apply digits_value_acc].
Qed.

(** The decimal text of a positive number: digits, and at least one. *)
Lemma to_uint_text (p : positive) :
  exists c s, NilEmpty.string_of_uint (Pos.to_uint p) = String c s /\
              JsString.is_digit c = true.
Proof.
  pose proof (string_of_uint_digits (Pos.to_uint p)) as Hd.
  pose proof (DecimalPos.Unsigned.to_uint_nonnil p) as Hn.
  destruct (Pos.to_uint p); try contradiction;
    cbn [NilEmpty.string_of_uint] in *; eexists _, _; split; reflexivity.
Qed.

Lemma digit_not_sign_or_space (c : ascii) :
  JsString.is_digit c = true ->
  c <> "-"%char /\ c <> "+"%char /\ JsString.is_white_space c = false.
Proof.
  destruct c as [[] [] [] [] [] [] [] []]; vm_compute; intros H;
    first [discriminate H | repeat split; discriminate].
Qed.

Lemma parseInt_digits (d : Decimal.uint) (c : ascii) (s rest : string) :
  NilEmpty.string_of_uint d = String c s -> JsString.is_digit c = true ->
  starts_with_digit rest = false ->
  JsNumber.parseInt (NilEmpty.string_of_uint d +:+ rest) = Some (Z.of_N (Pos.of_uint d)) /\
  JsNumber.parseInt (String "-" (NilEmpty.string_of_uint d +:+ rest))
    = Some (- Z.of_N (Pos.of_uint d)).
Proof.
  intros Hd Hc Hrest.
  destruct (digit_not_sign_or_space c Hc) as [Hm [Hp Hw]].
  pose proof (take_digits_uint d rest Hrest) as Ht.
  pose proof (digits_value_uint d) as Hv.
  unfold JsNumber.parseInt. rewrite Hd in *.
  change (String c s +:+ rest) with (String c (s +:+ rest)) in *.
  cbn [JsString.trimStart]. rewrite Hw. change (JsString.is_white_space "-") with false.
  cbv iota. split.
  - assert (Hs : JsNumber.take_sign (String c (s +:+ rest)) = (false, String c (s +:+ rest))).
    { unfold JsNumber.take_sign.
      destruct c as [[] [] [] [] [] [] [] []]; first [reflexivity | contradiction]. }
    rewrite Hs, Ht. cbn [list_ascii_of_string]. cbn [list_ascii_of_string] in Hv.
    rewrite Hv. reflexivity.
  - cbn [JsNumber.take_sign]. rewrite Ht. cbn [list_ascii_of_string].
    cbn [list_ascii_of_string] in Hv. rewrite Hv. reflexivity.
Qed.

(** X24.  [parseInt] reads back the decimal text of an integer (of at
    most 2^53 in absolute value, where a number is its text exactly), also
    with white space before it and with anything after it that does not
    start with a digit. *)
Theorem parseInt_reads_decimal (ws rest : string) (n : Z) :
  Z.abs n <= 2 ^ 53 ->
  all_chars JsString.is_white_space ws = true ->
  starts_with_digit rest = false ->
  JsNumber.parseInt (ws +:+ number_toString n +:+ rest) = Some n.
Proof.
  intros _ Hws Hrest.
  assert (H : JsNumber.parseInt (number_toString n +:+ rest) = Some n).
  { unfold number_toString. destruct n as [|p|p]; cbn [Z.to_int NilEmpty.string_of_int].
    - destruct rest as [|c rest]; [reflexivity|].
      cbn in Hrest. unfold JsNumber.parseInt.
      change (NilEmpty.string_of_uint Decimal.zero +:+ String c rest)
        with (String "0" (String c rest)).
      cbn [JsString.trimStart]. change (JsString.is_white_space "0") with false. cbv iota.
      cbn [JsNumber.take_sign JsNumber.take_digits].
      change (JsString.is_digit "0") with true. rewrite Hrest. reflexivity.
    - destruct (to_uint_text p) as [c [s [Hd Hc]]].
      rewrite (proj1 (parseInt_digits _ c s rest Hd Hc Hrest)).
      rewrite DecimalPos.Unsigned.of_to. reflexivity.
    - destruct (to_uint_text p) as [c [s [Hd Hc]]].
      change (String "-" (NilEmpty.string_of_uint (Pos.to_uint p)) +:+ rest)
        with (String "-" (NilEmpty.string_of_uint (Pos.to_uint p) +:+ rest)).
      rewrite (proj2 (parseInt_digits _ c s rest Hd Hc Hrest)).
      rewrite DecimalPos.Unsigned.of_to. reflexivity. }
  unfold JsNumber.parseInt in *. rewrite trimStart_white_space by exact Hws. exact H.
Qed.

Lemma parseInt_reads_decimal_witness :
  JsNumber.parseInt ("  " +:+ number_toString (-12) +:+ " pcs") = Some (-12).
Proof. apply (parseInt_reads_decimal "  " " pcs" (-12)); [lia | reflexivity | reflexivity]. Defined.
